(** * rcutils time: steady / system clock reads and the per-thread
      monotonicity guard

    Shallow embedding of [src/time_common.c], [src/time_unix.c] and
    [src/time_win32.c].  The C code is stateful (thread-local storage, a
    process-wide pthread key, heap cells, the caller's output destination), so
    it is modelled in a small state monad over an explicit [world]; a call
    that would run into C undefined behaviour yields [None].  The three
    preprocessor cases of [time_common.c] are the values of [tls_backend].
    Error messages ([RCUTILS_SET_ERROR_MSG]) are left out: they go to a
    separate error facility and no function here reads them back. *)

From stdpp Require Import base option numbers list gmap.
From Stdlib Require Import ZArith Lia Sorted.

Local Open Scope Z_scope.

(** ** Machine integers *)

Definition INT64_MAX : Z := 9223372036854775807.
Definition INT64_MIN : Z := -9223372036854775808.

(** Two's-complement wrap-around of a mathematical integer to [int64_t]. *)
Definition wrap64 (z : Z) : Z := (z + 2 ^ 63) mod 2 ^ 64 - 2 ^ 63.

Definition in_int64 (z : Z) : Prop := INT64_MIN <= z <= INT64_MAX.

(** [<errno.h>] values used by the pthread calls. *)
Definition EAGAIN : Z := 11.
Definition ENOMEM : Z := 12.
Definition EINVAL : Z := 22.

(** ** Return codes *)

(** Modelled from the spec: [rcutils/types.h], which declares
    [rcutils_ret_t] and its values, is not among the sources.  These are the
    status codes the three files return, taken as pairwise distinct like the
    error kinds of the spec ([UnspecifiedError], [BadAllocation],
    [InvalidArgument], [Overflow], [NonMonotonicSteadyTime]). *)
Inductive rcutils_ret_t : Set :=
  | RCUTILS_RET_OK
  | RCUTILS_RET_ERROR
  | RCUTILS_RET_BAD_ALLOC
  | RCUTILS_RET_INVALID_ARGUMENT
  | RCUTILS_CALCULATION_OVERFLOW
  | RCUTILS_NON_MONOTONIC_STEADY_TIME.

#[global] Instance rcutils_ret_t_eq_dec : EqDecision rcutils_ret_t.
Proof. solve_decision. Defined.

(** ** Build configuration

    [time_common.c] selects one of three implementations of the thread-local
    cell with the preprocessor:
    - [RCUTILS_DISABLE_TIME_SANITY_CHECKS] set,
    - sanity checks on, with [_Thread_local],
    - sanity checks on, with pthread keys ([RCUTILS_THREAD_LOCAL_PTHREAD]). *)

Inductive tls_backend : Set :=
  | SanityChecksDisabled
  | NativeThreadLocal
  | ThreadLocalPthread.

#[global] Instance tls_backend_eq_dec : EqDecision tls_backend.
Proof. solve_decision. Defined.

(** [RCUTILS_DISABLE_TIME_SANITY_CHECKS] as seen by [time_unix.c] and
    [time_win32.c]. *)
Definition RCUTILS_DISABLE_TIME_SANITY_CHECKS (b : tls_backend) : bool :=
  match b with
  | SanityChecksDisabled => true
  | _ => false
  end.

(** ** Data *)

Definition thread_id := nat.
Definition addr := nat.   (* a non-NULL heap address *)
Definition loc := nat.    (* a non-NULL address in the caller's memory *)

(** Modelled from the spec: [rcutils/allocator.h] is not among the sources.
    [rcutils_allocator_t] bundles an allocate function, a deallocate function
    and an opaque state; the code only copies it and calls through it, so it
    is represented by its identity. *)
Record rcutils_allocator_t : Set := { allocator_state : nat }.

#[global] Instance rcutils_allocator_t_eq_dec : EqDecision rcutils_allocator_t.
Proof. solve_decision. Defined.

Definition rcutils_get_default_allocator : rcutils_allocator_t :=
  {| allocator_state := 0 |}.

(** [__last_steady_timestamp_storage_t] *)
Record __last_steady_timestamp_storage_t : Set := {
  timestamp : Z;
  self_allocator : rcutils_allocator_t
}.

(** [struct timespec] as filled in by [clock_gettime] / [clock_get_time]. *)
Record timespec : Set := { tv_sec : Z; tv_nsec : Z }.

(** Effects that leave a mark outside the thread-local cell, newest first. *)
Inductive event : Set :=
  | EvKeyCreate (ret : Z)
  | EvAllocate (a : rcutils_allocator_t) (p : option addr)
  | EvDeallocate (a : rcutils_allocator_t) (p : addr)
  | EvStoreNow (l : loc) (v : Z).

#[global] Instance event_eq_dec : EqDecision event.
Proof. solve_decision. Defined.

(** The state the three files read and write.

    - [__last_steady_timestamp]: the [_Thread_local] variable of that name,
      one instance per thread; a thread that never wrote it still has the
      initializer [INT64_MIN].
    - [__key_init_once], [__make_pthread_keys_ret]: the statics of the
      pthread case ([true] stands for a [pthread_once_t] that has run).
    - [specific]: the value each thread has under
      [__last_steady_timestamp_storage_key]; absent means [NULL].
    - [heap], [brk]: live heap cells and the next address handed out
      (addresses are never reused, so a stale pointer stays stale).
    - [mem]: the caller's memory holding the [now] destination.
    - [pending]: the results of the coming fallible environment calls
      ([pthread_once], [pthread_key_create], [allocate],
      [pthread_setspecific]), in call order; [0] is success and an exhausted
      list means success.
    - [trace]: the events so far. *)
Record world : Type := {
  __last_steady_timestamp : gmap thread_id Z;
  __key_init_once : bool;
  __make_pthread_keys_ret : rcutils_ret_t;
  specific : gmap thread_id addr;
  heap : gmap addr __last_steady_timestamp_storage_t;
  brk : addr;
  mem : gmap loc Z;
  pending : list Z;
  trace : list event
}.

Definition set_tls (f : gmap thread_id Z -> gmap thread_id Z) (w : world) : world :=
  {| __last_steady_timestamp := f (__last_steady_timestamp w);
     __key_init_once := __key_init_once w;
     __make_pthread_keys_ret := __make_pthread_keys_ret w;
     specific := specific w; heap := heap w; brk := brk w; mem := mem w;
     pending := pending w; trace := trace w |}.

Definition set_key_init_once (b : bool) (w : world) : world :=
  {| __last_steady_timestamp := __last_steady_timestamp w;
     __key_init_once := b;
     __make_pthread_keys_ret := __make_pthread_keys_ret w;
     specific := specific w; heap := heap w; brk := brk w; mem := mem w;
     pending := pending w; trace := trace w |}.

Definition set_make_pthread_keys_ret (r : rcutils_ret_t) (w : world) : world :=
  {| __last_steady_timestamp := __last_steady_timestamp w;
     __key_init_once := __key_init_once w;
     __make_pthread_keys_ret := r;
     specific := specific w; heap := heap w; brk := brk w; mem := mem w;
     pending := pending w; trace := trace w |}.

Definition set_specific (f : gmap thread_id addr -> gmap thread_id addr) (w : world) : world :=
  {| __last_steady_timestamp := __last_steady_timestamp w;
     __key_init_once := __key_init_once w;
     __make_pthread_keys_ret := __make_pthread_keys_ret w;
     specific := f (specific w); heap := heap w; brk := brk w; mem := mem w;
     pending := pending w; trace := trace w |}.

Definition set_heap
    (f : gmap addr __last_steady_timestamp_storage_t ->
         gmap addr __last_steady_timestamp_storage_t) (w : world) : world :=
  {| __last_steady_timestamp := __last_steady_timestamp w;
     __key_init_once := __key_init_once w;
     __make_pthread_keys_ret := __make_pthread_keys_ret w;
     specific := specific w; heap := f (heap w); brk := brk w; mem := mem w;
     pending := pending w; trace := trace w |}.

Definition set_brk (n : addr) (w : world) : world :=
  {| __last_steady_timestamp := __last_steady_timestamp w;
     __key_init_once := __key_init_once w;
     __make_pthread_keys_ret := __make_pthread_keys_ret w;
     specific := specific w; heap := heap w; brk := n; mem := mem w;
     pending := pending w; trace := trace w |}.

Definition set_mem (f : gmap loc Z -> gmap loc Z) (w : world) : world :=
  {| __last_steady_timestamp := __last_steady_timestamp w;
     __key_init_once := __key_init_once w;
     __make_pthread_keys_ret := __make_pthread_keys_ret w;
     specific := specific w; heap := heap w; brk := brk w; mem := f (mem w);
     pending := pending w; trace := trace w |}.

Definition set_pending (l : list Z) (w : world) : world :=
  {| __last_steady_timestamp := __last_steady_timestamp w;
     __key_init_once := __key_init_once w;
     __make_pthread_keys_ret := __make_pthread_keys_ret w;
     specific := specific w; heap := heap w; brk := brk w; mem := mem w;
     pending := l; trace := trace w |}.

Definition log (e : event) (w : world) : world :=
  {| __last_steady_timestamp := __last_steady_timestamp w;
     __key_init_once := __key_init_once w;
     __make_pthread_keys_ret := __make_pthread_keys_ret w;
     specific := specific w; heap := heap w; brk := brk w; mem := mem w;
     pending := pending w; trace := e :: trace w |}.

(** A process right after start-up: statics at their initializers, no
    thread has touched anything, the environment never fails. *)
Definition initial_world : world :=
  {| __last_steady_timestamp := ∅;
     __key_init_once := false;
     __make_pthread_keys_ret := RCUTILS_RET_OK;
     specific := ∅; heap := ∅; brk := 1%nat; mem := ∅;
     pending := []; trace := [] |}.

(** ** The monad *)

Definition M (A : Type) : Type := world -> option (A * world).

Definition ret {A} (a : A) : M A := fun w => Some (a, w).

Definition bind {A B} (m : M A) (k : A -> M B) : M B :=
  fun w => match m w with
           | Some (a, w') => k a w'
           | None => None
           end.

(** C undefined behaviour (use of a released cell, division by zero). *)
Definition undefined {A} : M A := fun _ => None.

Definition modify (f : world -> world) : M unit := fun w => Some (tt, f w).

Definition gets {A} (f : world -> A) : M A := fun w => Some (f w, w).

Declare Scope rc_scope.
Delimit Scope rc_scope with rc.
Notation "x <- m ;; k" := (bind m (fun x => k))
  (at level 100, m at next level, right associativity) : rc_scope.
Notation "m ;;; k" := (bind m (fun _ => k))
  (at level 100, right associativity) : rc_scope.
Local Open Scope rc_scope.

(** ** The environment: pthreads, the allocator, the caller's memory *)

(** Result of the next fallible environment call. *)
Definition env_result : M Z :=
  fun w => Some (hd 0 (pending w), set_pending (tl (pending w)) w).

(** [pthread_once(&__key_init_once, init_routine)]: on success the routine
    has run exactly once in the process. *)
Definition pthread_once (init_routine : M unit) : M Z :=
  r <- env_result ;;
  if r =? 0 then
    done <- gets __key_init_once ;;
    if (done : bool) then ret 0
    else modify (set_key_init_once true) ;;; init_routine ;;; ret 0
  else ret r.

(** [pthread_key_create(&__last_steady_timestamp_storage_key, destructor)] *)
Definition pthread_key_create : M Z :=
  r <- env_result ;;
  modify (log (EvKeyCreate r)) ;;;
  ret r.

(** [pthread_getspecific(__last_steady_timestamp_storage_key)] on thread
    [tid]; a thread without a value gets [NULL].  The key exists once
    [pthread_once] has run [__make_pthread_keys] and that left
    [__make_pthread_keys_ret] at [RCUTILS_RET_OK]; the call on a key that was
    never created (the zero-initialized [pthread_key_t]) is undefined. *)
Definition pthread_getspecific (tid : thread_id) : M (option addr) :=
  fun w =>
    if __key_init_once w then
      match __make_pthread_keys_ret w with
      | RCUTILS_RET_OK => Some (specific w !! tid, w)
      | _ => None
      end
    else None.

(** [pthread_setspecific(__last_steady_timestamp_storage_key, value)] on
    thread [tid]; a failing call leaves the thread's value as it was. *)
Definition pthread_setspecific (tid : thread_id) (value : option addr) : M Z :=
  r <- env_result ;;
  if r =? 0 then
    modify (set_specific (fun m => match value with
                                   | Some p => <[tid := p]> m
                                   | None => delete tid m
                                   end)) ;;;
    ret 0
  else ret r.

(** [allocator.allocate(sizeof(__last_steady_timestamp_storage_t), allocator.state)] *)
Definition allocate (allocator : rcutils_allocator_t) : M (option addr) :=
  r <- env_result ;;
  if r =? 0 then
    p <- gets brk ;;
    modify (set_brk (S p)) ;;;
    modify (log (EvAllocate allocator (Some p))) ;;;
    ret (Some p)
  else
    modify (log (EvAllocate allocator None)) ;;;
    ret None.

(** [allocator.deallocate(p, allocator.state)]; releasing a cell that is not
    live is undefined. *)
Definition deallocate (allocator : rcutils_allocator_t) (p : addr) : M unit :=
  fun w => match heap w !! p with
           | Some _ => Some (tt, log (EvDeallocate allocator p) (set_heap (delete p) w))
           | None => None
           end.

(** Read of the cell [*p]; undefined when the cell is not live. *)
Definition load (p : addr) : M __last_steady_timestamp_storage_t :=
  fun w => match heap w !! p with
           | Some s => Some (s, w)
           | None => None
           end.

(** Write of both fields of the cell [*p]. *)
Definition store (p : addr) (s : __last_steady_timestamp_storage_t) : M unit :=
  modify (set_heap <[p := s]>).

(** [*now = v] *)
Definition store_now (now : loc) (v : Z) : M unit :=
  modify (set_mem <[now := v]>) ;;;
  modify (log (EvStoreNow now v)).

(** ** [rcutils/error_handling.h] *)

(** Modelled from the spec: [rcutils/error_handling.h] is not among the
    sources.  [RCUTILS_CHECK_ARGUMENT_FOR_NULL(argument, error_return_type,
    allocator)] makes the enclosing function return [error_return_type] when
    [argument] is [NULL] (the spec's [InvalidArgument] for a null output
    destination) and lets it go on otherwise. *)
Definition RCUTILS_CHECK_ARGUMENT_FOR_NULL {A}
    (argument : option A) (error_return_type : rcutils_ret_t)
    (rest : A -> M rcutils_ret_t) : M rcutils_ret_t :=
  match argument with
  | None => ret error_return_type
  | Some a => rest a
  end.

(** ** [rcutils/time.h] *)

(** [RCUTILS_S_TO_NS(seconds)] is [(seconds * (1000 * 1000 * 1000))],
    evaluated in [int64_t] at every use in the three files. *)
Definition RCUTILS_S_TO_NS (seconds : Z) : Z :=
  wrap64 (seconds * (1000 * 1000 * 1000)).

(** ** [time_common.c] *)

Module time_common.

(** *** Case "sanity checks enabled, with pthread" *)

Definition __make_pthread_keys : M unit :=
  r <- pthread_key_create ;;
  if r =? 0 then ret tt
  else if r =? EAGAIN then modify (set_make_pthread_keys_ret RCUTILS_RET_ERROR)
  else if r =? ENOMEM then modify (set_make_pthread_keys_ret RCUTILS_RET_BAD_ALLOC)
  else modify (set_make_pthread_keys_ret RCUTILS_RET_ERROR).

(** The [switch] has no [default]: any other result falls through to
    [RCUTILS_RET_OK]. *)
Definition __set_last_steady_timestamp
    (tid : thread_id) (last_timestamp : option addr) : M rcutils_ret_t :=
  pthread_ret <- pthread_setspecific tid last_timestamp ;;
  if pthread_ret =? 0 then ret RCUTILS_RET_OK
  else if pthread_ret =? ENOMEM then ret RCUTILS_RET_BAD_ALLOC
  else if pthread_ret =? EINVAL then ret RCUTILS_RET_ERROR
  else ret RCUTILS_RET_OK.

Definition __ensure_last_steady_timestamp_storage
    (tid : thread_id) (allocator : rcutils_allocator_t) : M rcutils_ret_t :=
  pthread_ret <- pthread_once __make_pthread_keys ;;
  if pthread_ret =? 0 then
    keys_ret <- gets __make_pthread_keys_ret ;;
    match keys_ret with
    | RCUTILS_RET_OK =>
        last_steady_timestamp <- pthread_getspecific tid ;;
        match last_steady_timestamp with
        | None =>
            p <- allocate allocator ;;
            match p with
            | None => ret RCUTILS_RET_BAD_ALLOC
            | Some p =>
                store p {| timestamp := INT64_MIN; self_allocator := allocator |} ;;;
                __set_last_steady_timestamp tid (Some p)
            end
        | Some _ => ret RCUTILS_RET_OK
        end
    | _ => ret keys_ret
    end
  else if pthread_ret =? EINVAL then ret RCUTILS_RET_ERROR
  else ret RCUTILS_RET_ERROR.

Definition __destroy_last_steady_timestamp_storage (tid : thread_id) : M rcutils_ret_t :=
  last_steady_timestamp <- pthread_getspecific tid ;;
  match last_steady_timestamp with
  | Some p =>
      s <- load p ;;
      deallocate (self_allocator s) p ;;;
      __set_last_steady_timestamp tid None
  | None => ret RCUTILS_RET_OK
  end.

(** *** The four private functions, one definition per build case

    [last_timestamp] always points to a local of the caller, so the
    [NULL] check of the C function cannot fire; the second component is the
    local after the call (it is only read after [RCUTILS_RET_OK]). *)

Definition __rcutils_time_common_get_last_steady_timestamp_thread_local
    (b : tls_backend) (tid : thread_id) : M (rcutils_ret_t * Z) :=
  match b with
  | SanityChecksDisabled => ret (RCUTILS_RET_OK, INT64_MIN)
  | NativeThreadLocal =>
      v <- gets (fun w => default INT64_MIN (__last_steady_timestamp w !! tid)) ;;
      ret (RCUTILS_RET_OK, v)
  | ThreadLocalPthread =>
      let allocator := rcutils_get_default_allocator in
      r <- __ensure_last_steady_timestamp_storage tid allocator ;;
      match r with
      | RCUTILS_RET_OK =>
          last_steady_timestamp <- pthread_getspecific tid ;;
          match last_steady_timestamp with
          | None => ret (RCUTILS_RET_ERROR, 0)
          | Some p => s <- load p ;; ret (RCUTILS_RET_OK, timestamp s)
          end
      | _ => ret (r, 0)
      end
  end.

Definition __rcutils_time_common_set_last_steady_timestamp_thread_local
    (b : tls_backend) (tid : thread_id) (new_last_steady_timestamp : Z) : M rcutils_ret_t :=
  match b with
  | SanityChecksDisabled => ret RCUTILS_RET_OK
  | NativeThreadLocal =>
      modify (set_tls <[tid := new_last_steady_timestamp]>) ;;;
      ret RCUTILS_RET_OK
  | ThreadLocalPthread =>
      let allocator := rcutils_get_default_allocator in
      r <- __ensure_last_steady_timestamp_storage tid allocator ;;
      match r with
      | RCUTILS_RET_OK =>
          last_steady_timestamp <- pthread_getspecific tid ;;
          match last_steady_timestamp with
          | None => ret RCUTILS_RET_ERROR
          | Some p =>
              s <- load p ;;
              store p {| timestamp := new_last_steady_timestamp;
                         self_allocator := self_allocator s |} ;;;
              __set_last_steady_timestamp tid (Some p)
          end
      | _ => ret r
      end
  end.

Definition __rcutils_time_common_ensure_last_steady_timestamp
    (b : tls_backend) (tid : thread_id) (allocator : rcutils_allocator_t) : M rcutils_ret_t :=
  match b with
  | SanityChecksDisabled => ret RCUTILS_RET_OK
  | NativeThreadLocal => ret RCUTILS_RET_OK
  | ThreadLocalPthread => __ensure_last_steady_timestamp_storage tid allocator
  end.

Definition __rcutils_time_common_destroy_last_steady_timestamp
    (b : tls_backend) (tid : thread_id) : M rcutils_ret_t :=
  match b with
  | SanityChecksDisabled => ret RCUTILS_RET_OK
  | NativeThreadLocal => ret RCUTILS_RET_OK
  | ThreadLocalPthread => __destroy_last_steady_timestamp_storage tid
  end.

(** *** Public functions *)

Definition rcutils_steady_time_now_thread_specific_init
    (b : tls_backend) (tid : thread_id) (custom_allocator : rcutils_allocator_t)
    : M rcutils_ret_t :=
  __rcutils_time_common_ensure_last_steady_timestamp b tid custom_allocator.

Definition rcutils_steady_time_now_thread_specific_fini
    (b : tls_backend) (tid : thread_id) : M rcutils_ret_t :=
  __rcutils_time_common_destroy_last_steady_timestamp b tid.

Definition __rcutils_check_steady_time_monotonicity_thread_local
    (b : tls_backend) (tid : thread_id) (current_steady_timestamp : Z) : M rcutils_ret_t :=
  got <- __rcutils_time_common_get_last_steady_timestamp_thread_local b tid ;;
  let r := fst got in
  let last_steady_sample := snd got in
  match r with
  | RCUTILS_RET_OK =>
      if last_steady_sample >? current_steady_timestamp
      then ret RCUTILS_NON_MONOTONIC_STEADY_TIME
      else
        r <- __rcutils_time_common_set_last_steady_timestamp_thread_local
               b tid current_steady_timestamp ;;
        match r with
        | RCUTILS_RET_OK => ret RCUTILS_RET_OK
        | _ => ret r
        end
  | _ => ret r
  end.

End time_common.

(** ** [time_unix.c]

    The sample [timespec_now] is what [clock_gettime] (or, on OS X,
    [clock_get_time]) stored; its result code is not looked at by the code.
    A [NULL] [now] is [None]. *)

Module time_unix.
Import time_common.

Definition __WOULD_BE_NEGATIVE (seconds subseconds : Z) : bool :=
  (seconds <? 0) || ((subseconds <? 0) && (seconds =? 0)).

Definition rcutils_system_time_now
    (b : tls_backend) (now : option loc) (timespec_now : timespec) : M rcutils_ret_t :=
  RCUTILS_CHECK_ARGUMENT_FOR_NULL now RCUTILS_RET_INVALID_ARGUMENT (fun now =>
    if __WOULD_BE_NEGATIVE (tv_sec timespec_now) (tv_nsec timespec_now)
    then ret RCUTILS_RET_ERROR
    else
      let total_seconds_in_ns := RCUTILS_S_TO_NS (tv_sec timespec_now) in
      let total_ns := wrap64 (total_seconds_in_ns + tv_nsec timespec_now) in
      if RCUTILS_DISABLE_TIME_SANITY_CHECKS b then
        store_now now total_ns ;;;
        ret RCUTILS_RET_OK
      else
        let overflow_happened :=
          (tv_sec timespec_now >? Z.quot INT64_MAX 1000000000)
          || ((tv_nsec timespec_now >? 0)
              && (total_seconds_in_ns >? INT64_MAX - tv_nsec timespec_now)) in
        if overflow_happened then ret RCUTILS_RET_ERROR
        else
          store_now now total_ns ;;;
          ret RCUTILS_RET_OK).

Definition rcutils_steady_time_now
    (b : tls_backend) (tid : thread_id) (now : option loc) (timespec_now : timespec)
    : M rcutils_ret_t :=
  RCUTILS_CHECK_ARGUMENT_FOR_NULL now RCUTILS_RET_INVALID_ARGUMENT (fun now =>
    if __WOULD_BE_NEGATIVE (tv_sec timespec_now) (tv_nsec timespec_now)
    then ret RCUTILS_RET_ERROR
    else
      let total_seconds_in_ns := RCUTILS_S_TO_NS (tv_sec timespec_now) in
      let total_ns := wrap64 (total_seconds_in_ns + tv_nsec timespec_now) in
      if RCUTILS_DISABLE_TIME_SANITY_CHECKS b then
        store_now now total_ns ;;;
        ret RCUTILS_RET_OK
      else
        let overflow_happened :=
          (tv_sec timespec_now >? Z.quot INT64_MAX 1000000000)
          || ((tv_nsec timespec_now >? 0)
              && (total_seconds_in_ns >? INT64_MAX - tv_nsec timespec_now)) in
        if overflow_happened then ret RCUTILS_CALCULATION_OVERFLOW
        else
          r <- __rcutils_check_steady_time_monotonicity_thread_local b tid total_ns ;;
          match r with
          | RCUTILS_RET_OK =>
              store_now now total_ns ;;;
              ret RCUTILS_RET_OK
          | _ => ret r
          end).

End time_unix.

(** ** [time_win32.c] *)

Module time_win32.
Import time_common.

(** [FILETIME] as filled in by [GetSystemTimePreciseAsFileTime]: two
    32-bit words. *)
Record FILETIME : Set := { dwLowDateTime : Z; dwHighDateTime : Z }.

(** [li.LowPart = ft.dwLowDateTime; li.HighPart = ft.dwHighDateTime;]
    read back as the signed 64-bit [li.QuadPart]. *)
Definition QuadPart_of (ft : FILETIME) : Z :=
  wrap64 (Z.lor (Z.shiftl (dwHighDateTime ft) 32) (dwLowDateTime ft)).

(** No part of this function depends on [RCUTILS_DISABLE_TIME_SANITY_CHECKS]. *)
Definition rcutils_system_time_now (now : option loc) (ft : FILETIME) : M rcutils_ret_t :=
  RCUTILS_CHECK_ARGUMENT_FOR_NULL now RCUTILS_RET_INVALID_ARGUMENT (fun now =>
    let QuadPart := wrap64 (QuadPart_of ft - 116444736000000000) in
    if QuadPart >? Z.quot INT64_MAX 100 then ret RCUTILS_CALCULATION_OVERFLOW
    else
      store_now now (wrap64 (QuadPart * 100)) ;;;
      ret RCUTILS_RET_OK).

(** [cpu_frequency] and [performance_count] are the [QuadPart]s stored by
    [QueryPerformanceFrequency] and [QueryPerformanceCounter].  Division by
    zero and [INT64_MIN / -1] are undefined in C. *)
Definition rcutils_steady_time_now
    (b : tls_backend) (tid : thread_id) (now : option loc)
    (cpu_frequency performance_count : Z) : M rcutils_ret_t :=
  RCUTILS_CHECK_ARGUMENT_FOR_NULL now RCUTILS_RET_INVALID_ARGUMENT (fun now =>
    if (cpu_frequency =? 0)
       || ((cpu_frequency =? -1) && (performance_count =? INT64_MIN))
    then undefined
    else
      let whole_seconds := Z.quot performance_count cpu_frequency in
      let remainder_count := Z.rem performance_count cpu_frequency in
      let remainder_ns := Z.quot (RCUTILS_S_TO_NS remainder_count) cpu_frequency in
      let total_seconds_in_ns := RCUTILS_S_TO_NS whole_seconds in
      let total_ns := wrap64 (total_seconds_in_ns + remainder_ns) in
      if RCUTILS_DISABLE_TIME_SANITY_CHECKS b then
        store_now now total_ns ;;;
        ret RCUTILS_RET_OK
      else if remainder_count >? Z.quot INT64_MAX 1000000000
      then ret RCUTILS_CALCULATION_OVERFLOW
      else if whole_seconds >? Z.quot INT64_MAX 1000000000
      then ret RCUTILS_CALCULATION_OVERFLOW
      else if (remainder_ns >? 0) && (total_seconds_in_ns >? INT64_MAX - remainder_ns)
      then ret RCUTILS_CALCULATION_OVERFLOW
      else
        r <- __rcutils_check_steady_time_monotonicity_thread_local b tid total_ns ;;
        match r with
        | RCUTILS_RET_OK =>
            store_now now total_ns ;;;
            ret RCUTILS_RET_OK
        | _ => ret r
        end).

End time_win32.

(** ** Notions used to state the properties *)

Import time_common.

(** The values written through [now], newest first. *)
Definition stores (tr : list event) : list (loc * Z) :=
  omap (fun e => match e with EvStoreNow l v => Some (l, v) | _ => None end) tr.

(** The cells handed back to an allocator, newest first. *)
Definition releases (tr : list event) : list (rcutils_allocator_t * addr) :=
  omap (fun e => match e with EvDeallocate a p => Some (a, p) | _ => None end) tr.

(** The last steady timestamp recorded for thread [tid]; a thread without a
    cell has "no prior sample", which the code represents by [INT64_MIN]. *)
Definition last_recorded (b : tls_backend) (w : world) (tid : thread_id) : Z :=
  match b with
  | SanityChecksDisabled => INT64_MIN
  | NativeThreadLocal => default INT64_MIN (__last_steady_timestamp w !! tid)
  | ThreadLocalPthread =>
      match specific w !! tid with
      | Some p => from_option timestamp INT64_MIN (heap w !! p)
      | None => INT64_MIN
      end
  end.

(** Thread [tid] has no cell yet. *)
Definition fresh_thread (w : world) (tid : thread_id) : Prop :=
  __last_steady_timestamp w !! tid = None /\ specific w !! tid = None.

(** The values [__make_pthread_keys_ret] can take: its initializer and the
    two codes [__make_pthread_keys] assigns. *)
Definition keys_ret_sane (r : rcutils_ret_t) : Prop :=
  r = RCUTILS_RET_OK \/ r = RCUTILS_RET_ERROR \/ r = RCUTILS_RET_BAD_ALLOC.

(** What the pthread case relies on for thread [tid]: every pointer kept
    under the key was handed out by the allocator, the thread's own pointer
    is to a live cell that no other thread points to, and it was installed
    after the key was created. *)
Record thread_ok (w : world) (tid : thread_id) : Prop := {
  keys_ret_ok : keys_ret_sane (__make_pthread_keys_ret w);
  specific_below : forall t p, specific w !! t = Some p -> (p < brk w)%nat;
  cell_live : forall p, specific w !! tid = Some p -> is_Some (heap w !! p);
  cell_own : forall p t, specific w !! tid = Some p -> specific w !! t = Some p -> t = tid;
  cell_key : forall p, specific w !! tid = Some p ->
             __key_init_once w = true /\ __make_pthread_keys_ret w = RCUTILS_RET_OK
}.

(** The environment lets every coming call succeed. *)
Definition no_faults (w : world) : Prop := Forall (fun r => r = 0) (pending w).

(** The next environment call succeeds. *)
Definition next_ok (w : world) : Prop := hd 0 (pending w) = 0.

(** The footprint, on the thread-local cells, of a call made by thread [t]:
    nothing of another thread's variable, key value or cell. *)
Record touches (t : thread_id) (w w' : world) : Prop := {
  t_tls : forall t', t' <> t ->
          __last_steady_timestamp w' !! t' = __last_steady_timestamp w !! t';
  t_specific : forall t', t' <> t -> specific w' !! t' = specific w !! t';
  t_heap : forall p, (p < brk w)%nat -> specific w !! t <> Some p ->
           heap w' !! p = heap w !! p;
  t_brk : (brk w <= brk w')%nat;
  t_new : forall p, specific w' !! t = Some p ->
          specific w !! t = Some p \/ (brk w <= p < brk w')%nat;
  t_once : __key_init_once w = true ->
           __key_init_once w' = true /\ __make_pthread_keys_ret w' = __make_pthread_keys_ret w;
  t_keys : keys_ret_sane (__make_pthread_keys_ret w) ->
           keys_ret_sane (__make_pthread_keys_ret w')
}.

(** Nothing was written to the caller's memory. *)
Definition silent (w w' : world) : Prop :=
  mem w' = mem w /\ stores (trace w') = stores (trace w).

(** *** Call sequences *)

Inductive call : Set :=
  | SteadyTimeNow (now : option loc) (sample : timespec)
  | SystemTimeNow (now : option loc) (sample : timespec)
  | ThreadSpecificInit (allocator : rcutils_allocator_t)
  | ThreadSpecificFini.

#[global] Instance timespec_eq_dec : EqDecision timespec.
Proof. solve_decision. Defined.

#[global] Instance call_eq_dec : EqDecision call.
Proof. solve_decision. Defined.

Definition perform (b : tls_backend) (tid : thread_id) (c : call) : M rcutils_ret_t :=
  match c with
  | SteadyTimeNow now sample => time_unix.rcutils_steady_time_now b tid now sample
  | SystemTimeNow now sample => time_unix.rcutils_system_time_now b now sample
  | ThreadSpecificInit allocator => rcutils_steady_time_now_thread_specific_init b tid allocator
  | ThreadSpecificFini => rcutils_steady_time_now_thread_specific_fini b tid
  end.

(** What the caller sees of one call: the status, and the content of its
    destination afterwards. *)
Record observation : Set := {
  o_thread : thread_id;
  o_call : call;
  o_ret : rcutils_ret_t;
  o_now : option Z
}.

Definition destination (c : call) : option loc :=
  match c with
  | SteadyTimeNow now _ | SystemTimeNow now _ => now
  | _ => None
  end.

Definition observe (b : tls_backend) (tc : thread_id * call) : M observation :=
  r <- perform b (fst tc) (snd tc) ;;
  v <- gets (fun w => destination (snd tc) ≫= fun l => mem w !! l) ;;
  ret {| o_thread := fst tc; o_call := snd tc; o_ret := r; o_now := v |}.

(** An interleaving of calls made by any number of threads. *)
Fixpoint run (b : tls_backend) (cs : list (thread_id * call)) : M (list observation) :=
  match cs with
  | [] => ret []
  | tc :: cs => o <- observe b tc ;; os <- run b cs ;; ret (o :: os)
  end.

(** The values thread [tid] got from its successful steady-time reads, in
    call order. *)
Definition steady_value (tid : thread_id) (o : observation) : option Z :=
  match o_call o, o_ret o with
  | SteadyTimeNow _ _, RCUTILS_RET_OK =>
      if decide (o_thread o = tid) then o_now o else None
  | _, _ => None
  end.

Definition steady_values (tid : thread_id) (os : list observation) : list Z :=
  omap (steady_value tid) os.

(** The nanosecond count the unix reads compute from a sample. *)
Definition total_ns (s : timespec) : Z :=
  wrap64 (RCUTILS_S_TO_NS (tv_sec s) + tv_nsec s).

(** The overflow conditions of [NanosecondArithmetic], on mathematical
    integers. *)
Definition overflows (s : timespec) : Prop :=
  tv_sec s > INT64_MAX / 1000000000
  \/ (tv_nsec s > 0 /\ tv_sec s * 1000000000 > INT64_MAX - tv_nsec s).

(** The samples both unix reads refuse as "unexpected negative time". *)
Definition negative_sample (s : timespec) : Prop :=
  tv_sec s < 0 \/ (tv_nsec s < 0 /\ tv_sec s = 0).

(** What a successful read leaves in the caller's memory. *)
Definition stored (l : loc) (v : Z) (w w' : world) : Prop :=
  mem w' = <[l := v]> (mem w) /\ stores (trace w') = (l, v) :: stores (trace w).

(** What both steady-time reads guarantee to the calling thread, [v] being
    the nanosecond count computed from the sample. *)
Definition steady_post (b : tls_backend) (t : thread_id) (now : option loc) (v : Z)
    (w : world) (r : rcutils_ret_t) (w' : world) : Prop :=
  thread_ok w' t /\
  last_recorded b w t <= last_recorded b w' t /\
  (r = RCUTILS_RET_OK ->
   exists l, now = Some l /\ stored l v w w' /\
             (b <> SanityChecksDisabled ->
              last_recorded b w t <= v /\ last_recorded b w' t = v)) /\
  (r <> RCUTILS_RET_OK -> silent w w') /\
  (r = RCUTILS_NON_MONOTONIC_STEADY_TIME ->
   last_recorded b w t > v /\ b <> SanityChecksDisabled) /\
  (r = RCUTILS_RET_OK -> b = ThreadLocalPthread -> is_Some (specific w' !! t)).

(** The nanosecond count the win32 steady-time read computes. *)
Definition win32_total_ns (cpu_frequency performance_count : Z) : Z :=
  wrap64 (RCUTILS_S_TO_NS (Z.quot performance_count cpu_frequency)
          + Z.quot (RCUTILS_S_TO_NS (Z.rem performance_count cpu_frequency)) cpu_frequency).

(** The counter and frequency for which the divisions of the win32
    steady-time read are defined. *)
Definition win32_defined (cpu_frequency performance_count : Z) : Prop :=
  cpu_frequency <> 0 /\ ~ (cpu_frequency = -1 /\ performance_count = INT64_MIN).

(** The part of the world the monotonicity guard lives in. *)
Definition guard_state (w : world) :=
  (__last_steady_timestamp w, __key_init_once w, __make_pthread_keys_ret w,
   specific w, heap w, brk w, pending w).

(** The world after a successful release of the cell [p] of thread [t]. *)
Definition released (t : thread_id) (p : addr) (a : rcutils_allocator_t) (w : world) : world :=
  set_specific (fun m => delete t m)
    (set_pending (tail (pending w))
       (log (EvDeallocate a p) (set_heap (delete p) w))).

(** *** Worlds and call sequences used as examples *)

(** A sample one second past the largest one that fits. *)
Definition sample_past_the_limit : timespec :=
  {| tv_sec := INT64_MAX / 1000000000 + 1; tv_nsec := 0 |}.

Definition two_threads_calls : list (thread_id * call) :=
  [ (0%nat, SteadyTimeNow (Some 7%nat) {| tv_sec := 5; tv_nsec := 100 |});
    (1%nat, SteadyTimeNow (Some 8%nat) {| tv_sec := 2; tv_nsec := 0 |});
    (0%nat, SteadyTimeNow (Some 7%nat) {| tv_sec := 5; tv_nsec := 100 |});
    (1%nat, ThreadSpecificFini);
    (0%nat, SteadyTimeNow (Some 7%nat) {| tv_sec := 4; tv_nsec := 0 |});
    (0%nat, SteadyTimeNow (Some 7%nat) {| tv_sec := 6; tv_nsec := 1 |}) ].

Definition world_after_first_check : world :=
  match __rcutils_check_steady_time_monotonicity_thread_local
          ThreadLocalPthread 0%nat 10 initial_world with
  | Some (_, w) => w
  | None => initial_world
  end.

Definition fini_between_reads : list (thread_id * call) :=
  [ (0%nat, SteadyTimeNow (Some 7%nat) {| tv_sec := 100; tv_nsec := 0 |});
    (0%nat, ThreadSpecificFini);
    (0%nat, SteadyTimeNow (Some 7%nat) {| tv_sec := 50; tv_nsec := 0 |}) ].

Definition world_key_creation_fails : world :=
  set_pending [0; ENOMEM] initial_world.

Definition world_after_failed_key_creation : world :=
  match rcutils_steady_time_now_thread_specific_init ThreadLocalPthread 0%nat
          rcutils_get_default_allocator world_key_creation_fails with
  | Some (_, w) => w
  | None => initial_world
  end.

(** ** Further code of the same files, and of [strdup.c] and [filesystem.c] *)

(** *** [rcutils/time.h]: the other conversion macros

    Like [RCUTILS_S_TO_NS] they are taken at [int64_t] operands
    ([rcutils_time_point_value_t], [rcutils_duration_value_t]); [/] is the
    division of C, which truncates toward zero. *)

Definition RCUTILS_MS_TO_NS (milliseconds : Z) : Z :=
  wrap64 (milliseconds * (1000 * 1000)).

Definition RCUTILS_US_TO_NS (microseconds : Z) : Z :=
  wrap64 (microseconds * 1000).

Definition RCUTILS_NS_TO_S (nanoseconds : Z) : Z :=
  Z.quot nanoseconds (1000 * 1000 * 1000).

Definition RCUTILS_NS_TO_MS (nanoseconds : Z) : Z :=
  Z.quot nanoseconds (1000 * 1000).

Definition RCUTILS_NS_TO_US (nanoseconds : Z) : Z :=
  Z.quot nanoseconds 1000.

(** *** [time_common.c]: the destructor registered with the key *)

Definition __last_steady_timestamp_storage_t_destructor (data : option addr) : M unit :=
  match data with
  | Some p =>
      temp <- load p ;;
      deallocate (self_allocator temp) p
  | None => ret tt
  end.

(** What [pthread_key_create] promises for a thread that exits: if the
    thread has a non-[NULL] value under the key, the value is set to [NULL]
    and the destructor is called with the previous value.  The pthread
    implementation looks the value up itself; where no key exists there is
    no value and nothing happens. *)
Definition pthread_exit (tid : thread_id) : M unit :=
  value <- gets (fun w => specific w !! tid) ;;
  match value with
  | Some p =>
      modify (set_specific (fun m => delete tid m)) ;;;
      __last_steady_timestamp_storage_t_destructor (Some p)
  | None => ret tt
  end.

(** The calls of [allocator.allocate] made for a thread's cell
    ([time_common.c], line 272) so far, newest first, each with the allocator
    it went to and what it returned.  [RCUTILS_SET_ERROR_MSG], which this
    embedding leaves out, is handed an allocator on every failing path and
    may allocate the error state there: the list accounts for all the
    allocations of a call only when the call returns [RCUTILS_RET_OK]. *)
Definition allocations (tr : list event) : list (rcutils_allocator_t * option addr) :=
  omap (fun e => match e with EvAllocate a p => Some (a, p) | _ => None end) tr.

(** The results of the [pthread_key_create] calls so far, newest first. *)
Definition key_creations (tr : list event) : list Z :=
  omap (fun e => match e with EvKeyCreate r => Some r | _ => None end) tr.

(** The allocator kept in the cell of thread [tid], if it has one. *)
Definition cell_allocator (w : world) (tid : thread_id) : option rcutils_allocator_t :=
  p ← specific w !! tid; self_allocator <$> heap w !! p.

(** The 64-bit count of 100 ns intervals a [FILETIME] stands for. *)
Definition filetime_ticks (ft : time_win32.FILETIME) : Z :=
  time_win32.dwHighDateTime ft * 2 ^ 32 + time_win32.dwLowDateTime ft.

(** A world in which thread [0] has been initialized with a custom
    allocator. *)
Definition custom_allocator : rcutils_allocator_t := {| allocator_state := 5 |}.

Definition world_after_custom_init : world :=
  match rcutils_steady_time_now_thread_specific_init ThreadLocalPthread 0%nat
          custom_allocator initial_world with
  | Some (_, w) => w
  | None => initial_world
  end.

(** *** [strdup.c]

    A [const char *] argument is [None] for [NULL], and otherwise the bytes
    of the object it points into, from the pointer to the end of the object;
    access beyond the object is undefined ([None] as the outer result).
    [size_t] is taken to be 64 bits wide. *)

Module strdup.

Definition SIZE_MAX : Z := 2 ^ 64 - 1.

(** [strlen(str)]: the index of the first zero byte. *)
Fixpoint strlen (str : list Z) : option Z :=
  match str with
  | [] => None
  | c :: str => if c =? 0 then Some 0 else Z.succ <$> strlen str
  end.

(** [memcpy(dst, src, n)] *)
Definition memcpy (dst src : list Z) (n : Z) : option (list Z) :=
  if (n <=? Z.of_nat (length dst)) && (n <=? Z.of_nat (length src))
  then Some (take (Z.to_nat n) src ++ drop (Z.to_nat n) dst)
  else None.

(** [s[i] = c] *)
Definition write (s : list Z) (i : Z) (c : Z) : option (list Z) :=
  if i <? Z.of_nat (length s) then Some (<[Z.to_nat i := c]> s) else None.

(** The C string held in a buffer: the bytes before the first zero byte. *)
Fixpoint c_string (str : list Z) : list Z :=
  match str with
  | [] => []
  | c :: str => if c =? 0 then [] else c :: c_string str
  end.

Section with_allocator.

(** [allocator.allocate(size, allocator.state)]: [NULL], or a block of
    [size] bytes of indeterminate content. *)
Variable allocate : rcutils_allocator_t -> Z -> option (list Z).

Definition rcutils_strndup
    (str : option (list Z)) (string_length : Z) (allocator : rcutils_allocator_t)
    : option (option (list Z)) :=
  match str with
  | None => Some None
  | Some str =>
      match allocate allocator ((string_length + 1) mod 2 ^ 64) with
      | None => Some None
      | Some new_string =>
          new_string ← memcpy new_string str ((string_length + 1) mod 2 ^ 64);
          new_string ← write new_string string_length 0;
          Some (Some new_string)
      end
  end.

Definition rcutils_strdup (str : option (list Z)) (allocator : rcutils_allocator_t)
    : option (option (list Z)) :=
  match str with
  | None => Some None
  | Some s => n ← strlen s; rcutils_strndup (Some s) n allocator
  end.

End with_allocator.

(** An allocator that never fails and hands out blocks filled with [0xAA],
    and one that always fails. *)
Definition allocate_filled (_ : rcutils_allocator_t) (size : Z) : option (list Z) :=
  Some (replicate (Z.to_nat size) 170).

Definition allocate_failing (_ : rcutils_allocator_t) (_ : Z) : option (list Z) := None.

(** That an allocator hands out blocks of the size asked for. *)
Definition allocates_sized (allocate : rcutils_allocator_t -> Z -> option (list Z)) : Prop :=
  forall a size blk,
    0 <= size -> allocate a size = Some blk -> Z.of_nat (length blk) = size.

End strdup.

(** *** [filesystem.c], the branch taken when [_WIN32] is not defined

    [stat] gives the [st_mode] a successful [stat(abs_path, &buf)] stores,
    and [None] when the call returns a negative value; the file system is
    taken not to change while one of the functions runs.  The three
    permission tests read [buf.st_mode] without looking at the result of
    their own [stat] call: [None] stands for a read of the indeterminate
    [buf]. *)

Module filesystem.

(** The values of [<sys/stat.h>] on Linux. *)
Definition S_IFMT : Z := 61440.
Definition S_IFDIR : Z := 16384.
Definition S_IFREG : Z := 32768.
Definition S_IRUSR : Z := 256.
Definition S_IWUSR : Z := 128.

Definition S_ISDIR (m : Z) : bool := Z.land m S_IFMT =? S_IFDIR.
Definition S_ISREG (m : Z) : bool := Z.land m S_IFMT =? S_IFREG.

Section with_stat.

Variable stat : String.string -> option Z.

Definition rcutils_is_directory (abs_path : String.string) : bool :=
  match stat abs_path with
  | None => false
  | Some st_mode => S_ISDIR st_mode
  end.

Definition rcutils_is_file (abs_path : String.string) : bool :=
  match stat abs_path with
  | None => false
  | Some st_mode => S_ISREG st_mode
  end.

Definition rcutils_exists (abs_path : String.string) : bool :=
  match stat abs_path with
  | None => false
  | Some _ => true
  end.

Definition rcutils_is_readable (abs_path : String.string) : option bool :=
  if negb (rcutils_exists abs_path) then Some false
  else
    st_mode ← stat abs_path;
    if Z.land st_mode S_IRUSR =? 0 then Some false else Some true.

Definition rcutils_is_writable (abs_path : String.string) : option bool :=
  if negb (rcutils_exists abs_path) then Some false
  else
    st_mode ← stat abs_path;
    if Z.land st_mode S_IWUSR =? 0 then Some false else Some true.

Definition rcutils_is_readable_and_writable (abs_path : String.string) : option bool :=
  if negb (rcutils_exists abs_path) then Some false
  else
    st_mode ← stat abs_path;
    if negb (negb (Z.land st_mode S_IWUSR =? 0) && negb (Z.land st_mode S_IRUSR =? 0))
    then Some false else Some true.

End with_stat.

End filesystem.

(** What one call of thread [t] leaves in the event log for the thread's
    cell: no release, and an allocation of a cell (through [a]) only if the
    thread has none, at most one, and a successful one if the call
    succeeds. *)
Definition allocates_at_most_once
    (t : thread_id) (a : rcutils_allocator_t) (w : world) (r : rcutils_ret_t) (w' : world)
    : Prop :=
  releases (trace w') = releases (trace w) /\
  match specific w !! t with
  | Some _ => allocations (trace w') = allocations (trace w)
  | None =>
      (allocations (trace w') = allocations (trace w) /\ r <> RCUTILS_RET_OK) \/
      (exists x, allocations (trace w') = (a, x) :: allocations (trace w) /\
                 (r = RCUTILS_RET_OK -> x = Some (brk w)))
  end.

(** A call of thread [t] keeps the thread's pointer and the allocator kept
    in its cell; a cell it creates carries the allocator [a]. *)
Definition keeps_cell (t : thread_id) (a : rcutils_allocator_t) (w w' : world) : Prop :=
  (forall p, specific w !! t = Some p -> specific w' !! t = Some p) /\
  (forall p s, specific w !! t = Some p -> heap w !! p = Some s ->
     exists s', heap w' !! p = Some s' /\ self_allocator s' = self_allocator s) /\
  (specific w !! t = None -> forall p, specific w' !! t = Some p ->
     exists s', heap w' !! p = Some s' /\ self_allocator s' = a).

(** The allocator a call may allocate through. *)
Definition allocator_of (c : call) : rcutils_allocator_t :=
  match c with
  | ThreadSpecificInit allocator => allocator
  | _ => rcutils_get_default_allocator
  end.

(** Calls made after thread [0] was initialized with [custom_allocator]. *)
Definition calls_after_custom_init : list (thread_id * call) :=
  [ (0%nat, SteadyTimeNow (Some 7%nat) {| tv_sec := 5; tv_nsec := 100 |});
    (1%nat, SteadyTimeNow (Some 8%nat) {| tv_sec := 2; tv_nsec := 0 |});
    (0%nat, ThreadSpecificInit rcutils_get_default_allocator);
    (1%nat, ThreadSpecificFini) ].

Definition run_after_custom_init : list observation * world :=
  default ([], initial_world)
    (run ThreadLocalPthread calls_after_custom_init world_after_custom_init).

(** The status [__set_last_steady_timestamp] maps a result of
    [pthread_setspecific] to. *)
Definition setspecific_status (pthread_ret : Z) : rcutils_ret_t :=
  if pthread_ret =? 0 then RCUTILS_RET_OK
  else if pthread_ret =? ENOMEM then RCUTILS_RET_BAD_ALLOC
  else if pthread_ret =? EINVAL then RCUTILS_RET_ERROR
  else RCUTILS_RET_OK.

(** A world in which thread [0] has a cell and the next
    [pthread_setspecific] fails for lack of memory. *)
Definition world_setspecific_fails : world :=
  set_pending [ENOMEM] world_after_first_check.

(** A world in which the key exists, thread [1] has no cell, and the
    [pthread_setspecific] of its coming initialization fails. *)
Definition world_init_setspecific_fails : world :=
  set_pending [0; 0; EINVAL] world_after_first_check.

(** How one call may change the process-wide key: not at all, or by the one
    [pthread_key_create] call that [pthread_once] lets through. *)
Definition key_step (w w' : world) : Prop :=
  (key_creations (trace w') = key_creations (trace w) /\
   __key_init_once w' = __key_init_once w) \/
  (__key_init_once w = false /\ __key_init_once w' = true /\
   exists e, key_creations (trace w') = e :: key_creations (trace w)).

(** Calls made by threads [1] and [2] after thread [0] has recorded [10]. *)
Definition calls_of_other_threads : list (thread_id * call) :=
  [ (1%nat, SteadyTimeNow (Some 8%nat) {| tv_sec := 2; tv_nsec := 0 |});
    (2%nat, ThreadSpecificInit custom_allocator);
    (1%nat, ThreadSpecificFini) ].

Definition run_of_other_threads : list observation * world :=
  default ([], initial_world)
    (run ThreadLocalPthread calls_of_other_threads world_after_first_check).

(** * Proofs *)

(** ** The monad *)

Lemma bind_inv {A B} (m : M A) (k : A -> M B) w b w' :
  bind m k w = Some (b, w') ->
  exists a w1, m w = Some (a, w1) /\ k a w1 = Some (b, w').
Proof.
  unfold bind. destruct (m w) as [[a w1]|]; [eauto | done].
Qed.

Lemma bind_run {A B} (m : M A) (k : A -> M B) w a w1 :
  m w = Some (a, w1) -> bind m k w = k a w1.
Proof. unfold bind. by intros ->. Qed.

(** Once the key exists, [pthread_getspecific] reads the thread's value. *)
Lemma getspecific_run t w :
  __key_init_once w = true -> __make_pthread_keys_ret w = RCUTILS_RET_OK ->
  pthread_getspecific t w = Some (specific w !! t, w).
Proof. unfold pthread_getspecific. by intros -> ->. Qed.

(** Symbolic execution of the straight-line parts of the code. *)
Ltac unfold_code H :=
  cbv beta iota zeta delta
    [bind ret modify gets env_result undefined pthread_once pthread_key_create
     pthread_getspecific pthread_setspecific allocate deallocate load store store_now
     __make_pthread_keys __set_last_steady_timestamp
     __ensure_last_steady_timestamp_storage __destroy_last_steady_timestamp_storage
     fst snd] in H.

Ltac unfold_code_goal :=
  cbv beta iota zeta delta
    [bind ret modify gets env_result undefined pthread_once pthread_key_create
     pthread_getspecific pthread_setspecific allocate deallocate load store store_now
     __make_pthread_keys __set_last_steady_timestamp
     __ensure_last_steady_timestamp_storage __destroy_last_steady_timestamp_storage
     fst snd].

Ltac paths := simplify_eq/=; repeat (case_match; simplify_eq/=); try congruence.

(** ** Footprints *)

Lemma touches_refl t w : touches t w w.
Proof. split; auto with lia. Qed.

Lemma touches_trans t w1 w2 w3 : touches t w1 w2 -> touches t w2 w3 -> touches t w1 w3.
Proof.
  intros [tl1 sp1 hp1 b1 n1 o1 k1] [tl2 sp2 hp2 b2 n2 o2 k2]. split.
  - intros t' Ht. rewrite tl2 by done. auto.
  - intros t' Ht. rewrite sp2 by done. auto.
  - intros p Hp Hn. rewrite hp2; [auto| lia |].
    intros Hs. destruct (n1 _ Hs); [done | lia].
  - lia.
  - intros p Hp. destruct (n2 _ Hp) as [H|H]; [|right; lia].
    destruct (n1 _ H); [by left | right; lia].
  - intros H. destruct (o1 H) as [H1 H2]. destruct (o2 H1). split; congruence.
  - auto.
Qed.

Lemma silent_refl w : silent w w.
Proof. by split. Qed.

Lemma silent_trans w1 w2 w3 : silent w1 w2 -> silent w2 w3 -> silent w1 w3.
Proof. intros [] []. split; congruence. Qed.

Ltac solve_touches :=
  split; simpl; intros;
  try congruence; try lia; try done;
  try (unfold keys_ret_sane; by auto);
  try (simplify_map_eq; try done; try lia; eauto with lia; fail);
  try (rewrite ?lookup_insert_ne, ?lookup_delete_ne
         by first [lia | congruence | naive_solver]; done).

Lemma ensure_touches t a w r w' :
  __ensure_last_steady_timestamp_storage t a w = Some (r, w') ->
  touches t w w' /\ silent w w'.
Proof.
  intros H. unfold_code H. paths.
  all: split; [solve_touches | by split].
Qed.

Lemma destroy_touches t w r w' :
  __destroy_last_steady_timestamp_storage t w = Some (r, w') ->
  touches t w w' /\ silent w w'.
Proof.
  intros H. unfold_code H. paths.
  all: split; [solve_touches | by split].
Qed.

Lemma get_last_touches b t w rv w' :
  __rcutils_time_common_get_last_steady_timestamp_thread_local b t w = Some (rv, w') ->
  touches t w w' /\ silent w w'.
Proof.
  destruct b; simpl.
  - intros [= <- <-]. split; [apply touches_refl | apply silent_refl].
  - intros [= <- <-]. split; [apply touches_refl | apply silent_refl].
  - intros H. apply bind_inv in H as (r & w1 & He & H).
    apply ensure_touches in He.
    destruct r; unfold_code H; paths; done.
Qed.

Lemma set_last_touches b t v w r w' :
  __rcutils_time_common_set_last_steady_timestamp_thread_local b t v w = Some (r, w') ->
  touches t w w' /\ silent w w'.
Proof.
  destruct b; simpl.
  - intros [= <- <-]. split; [apply touches_refl | apply silent_refl].
  - intros [= <- <-]. split; [solve_touches | by split].
  - intros H. apply bind_inv in H as (r0 & w1 & He & H).
    apply ensure_touches in He as [Ht Hs].
    destruct r0; unfold_code H; paths; try done.
    all: split; [eapply touches_trans; [exact Ht|] | eapply silent_trans; [exact Hs|]].
    all: try solve_touches. all: try by split.
Qed.

Lemma check_touches b t c w r w' :
  __rcutils_check_steady_time_monotonicity_thread_local b t c w = Some (r, w') ->
  touches t w w' /\ silent w w'.
Proof.
  unfold __rcutils_check_steady_time_monotonicity_thread_local. intros H.
  apply bind_inv in H as ([r0 v0] & w1 & Hg & H). simpl in H.
  apply get_last_touches in Hg as [Ht Hs].
  destruct r0; try (by injection H as <- <-).
  destruct (v0 >? c); [by injection H as <- <-|].
  apply bind_inv in H as (r1 & w2 & Hset & H).
  apply set_last_touches in Hset as [Ht' Hs'].
  assert (w' = w2) as -> by (destruct r1; by injection H).
  split; [by eapply touches_trans | by eapply silent_trans].
Qed.

(** ** What a call means for the caller's own cell *)

Lemma touches_below t w w' :
  touches t w w' ->
  (forall t' p, specific w !! t' = Some p -> (p < brk w)%nat) ->
  forall t' p, specific w' !! t' = Some p -> (p < brk w')%nat.
Proof.
  intros [tl1 sp1 hp1 b1 n1 o1 k1] Hb t' p Hp.
  destruct (decide (t' = t)) as [->|Hne].
  - destruct (n1 _ Hp) as [H|H]; [|lia]. specialize (Hb _ _ H). lia.
  - rewrite sp1 in Hp by done. specialize (Hb _ _ Hp). lia.
Qed.

Lemma touches_own t w w' :
  touches t w w' -> thread_ok w t ->
  forall p t', specific w' !! t = Some p -> specific w' !! t' = Some p -> t' = t.
Proof.
  intros [tl1 sp1 hp1 b1 n1 o1 k1] [Hs Hb Hl Ho Hk] p t' Hp Hp'.
  destruct (decide (t' = t)) as [|Hne]; [done|].
  rewrite sp1 in Hp' by done.
  destruct (n1 _ Hp) as [H|H]; [by eapply Ho|].
  specialize (Hb _ _ Hp'). lia.
Qed.

(** A call made by another thread leaves thread [tid]'s cell alone. *)
Lemma touches_other t tid w w' :
  touches t w w' -> t <> tid -> thread_ok w tid ->
  thread_ok w' tid /\ forall b, last_recorded b w' tid = last_recorded b w tid.
Proof.
  intros Ht Hne Hok.
  pose proof Ht as [tl1 sp1 hp1 b1 n1 o1 k1]. pose proof Hok as [Hs Hb Hl Ho Hk].
  assert (Hcell : forall p, specific w !! tid = Some p -> heap w' !! p = heap w !! p).
  { intros p Hp. apply hp1; [by eapply Hb|]. intros Hp'. apply Hne. by eapply Ho. }
  split; [split|].
  - auto.
  - by eapply touches_below.
  - intros p Hp. rewrite sp1 in Hp by done. rewrite Hcell by done. auto.
  - intros p t' Hp Hp'. rewrite sp1 in Hp by done.
    destruct (decide (t' = t)) as [->|Hne'].
    + destruct (n1 _ Hp') as [H|H]; [by eapply Ho|]. specialize (Hb _ _ Hp). lia.
    + rewrite sp1 in Hp' by done. by eapply Ho.
  - intros p Hp. rewrite sp1 in Hp by done. destruct (Hk _ Hp) as [H1 H2].
    destruct (o1 H1). split; congruence.
  - intros []; simpl; [done | by rewrite tl1 |].
    rewrite sp1 by done. destruct (specific w !! tid) as [p|] eqn:Hp; [|done].
    by rewrite Hcell.
Qed.

Lemma ensure_total t a w :
  exists r w', __ensure_last_steady_timestamp_storage t a w = Some (r, w').
Proof.
  destruct (__ensure_last_steady_timestamp_storage t a w) as [[r w']|] eqn:H; [eauto|].
  unfold_code H. paths.
Qed.

(** The cell of the calling thread after [__ensure_last_steady_timestamp_storage]. *)
Lemma ensure_cell t a w r w' :
  __ensure_last_steady_timestamp_storage t a w = Some (r, w') ->
  __last_steady_timestamp w' = __last_steady_timestamp w /\
  (keys_ret_sane (__make_pthread_keys_ret w) -> keys_ret_sane r) /\
  (r = RCUTILS_RET_OK ->
   __key_init_once w' = true /\ __make_pthread_keys_ret w' = RCUTILS_RET_OK) /\
  match specific w !! t with
  | Some p => specific w' !! t = Some p /\ heap w' = heap w
  | None =>
      (r <> RCUTILS_RET_OK -> specific w' !! t = None) /\
      (specific w' !! t = None \/
       specific w' !! t = Some (brk w) /\ r = RCUTILS_RET_OK /\
       heap w' !! brk w = Some {| timestamp := INT64_MIN; self_allocator := a |})
  end.
Proof.
  intros H. unfold_code H. paths.
  all: repeat split; simpl; try done; try congruence.
  all: try (unfold keys_ret_sane; by auto).
  all: try (left; by simplify_map_eq).
  all: try (right; by simplify_map_eq).
  all: try (intros; by simplify_map_eq).
Qed.

Lemma ensure_ok t a w r w' :
  thread_ok w t ->
  __ensure_last_steady_timestamp_storage t a w = Some (r, w') ->
  thread_ok w' t /\ forall b, last_recorded b w' t = last_recorded b w t.
Proof.
  intros Hok H.
  destruct (ensure_touches _ _ _ _ _ H) as [Ht _].
  destruct (ensure_cell _ _ _ _ _ H) as (Htls & _ & Hkey & Hcell).
  assert (Hbelow := touches_below _ _ _ Ht (specific_below _ _ Hok)).
  assert (Hown := touches_own _ _ _ Ht Hok).
  assert (Hsane := t_keys _ _ _ Ht (keys_ret_ok _ _ Hok)).
  destruct (specific w !! t) as [p|] eqn:Hp.
  - destruct Hcell as [Hp' Hheap]. split; [split|]; try done.
    + intros q Hq. rewrite Hheap. apply (cell_live _ _ Hok). congruence.
    + intros q Hq. destruct (cell_key _ _ Hok _ Hp) as [H1 H2].
      destruct (t_once _ _ _ Ht H1). split; congruence.
    + intros []; simpl; [done | by rewrite Htls |]. by rewrite Hp, Hp', Hheap.
  - destruct Hcell as [_ [Hnone | (Hsome & -> & Hcell)]].
    + split; [split|]; try done.
      * intros q Hq. congruence.
      * intros q Hq. congruence.
      * intros []; simpl; [done | by rewrite Htls |]. by rewrite Hp, Hnone.
    + split; [split|]; try done.
      * intros q Hq. assert (q = brk w) as -> by congruence. by rewrite Hcell.
      * intros q Hq. by apply Hkey.
      * intros []; simpl; [done | by rewrite Htls |]. by rewrite Hp, Hsome, Hcell.
Qed.

(** Rewriting a cell the thread already owns keeps the thread well-formed. *)
Lemma thread_ok_rewrite t w p s l :
  thread_ok w t -> specific w !! t = Some p ->
  thread_ok (set_pending l (set_heap <[p := s]> w)) t /\
  thread_ok (set_specific (fun m => <[t := p]> m) (set_pending l (set_heap <[p := s]> w))) t.
Proof.
  intros [Hs Hb Hl Ho Hk] Hp. split; split; simpl.
  - done.
  - done.
  - intros q Hq. assert (q = p) as -> by congruence. by rewrite lookup_insert_eq.
  - done.
  - done.
  - done.
  - intros t' q. destruct (decide (t' = t)) as [->|Hne].
    + rewrite lookup_insert_eq. intros [= <-]. by eapply Hb.
    + rewrite lookup_insert_ne by done. apply Hb.
  - intros q. rewrite lookup_insert_eq. intros [= <-]. by rewrite lookup_insert_eq.
  - intros q t'. rewrite lookup_insert_eq. intros [= <-].
    destruct (decide (t' = t)) as [->|Hne]; [done|].
    rewrite lookup_insert_ne by done. by apply Ho.
  - intros q. rewrite lookup_insert_eq. intros [= <-]. by eapply Hk.
Qed.

Lemma get_last_same b t w :
  thread_ok w t ->
  exists r v w',
    __rcutils_time_common_get_last_steady_timestamp_thread_local b t w = Some ((r, v), w') /\
    thread_ok w' t /\
    last_recorded b w' t = last_recorded b w t /\
    (r = RCUTILS_RET_OK -> v = last_recorded b w t) /\
    (r = RCUTILS_RET_OK -> b = ThreadLocalPthread -> is_Some (specific w' !! t)) /\
    r <> RCUTILS_NON_MONOTONIC_STEADY_TIME.
Proof.
  intros Hok. destruct b; simpl.
  - eexists _, _, _. by split_and!.
  - eexists _, _, _. by split_and!.
  - destruct (ensure_total t rcutils_get_default_allocator w) as (r & w1 & He).
    destruct (ensure_ok _ _ _ _ _ Hok He) as [Hok1 Hlast].
    destruct (ensure_cell _ _ _ _ _ He) as (_ & Hsane & Hkey & _).
    specialize (Hsane (keys_ret_ok _ _ Hok)).
    specialize (Hlast ThreadLocalPthread). simpl in Hlast.
    rewrite (bind_run _ _ _ _ _ He).
    destruct r.
    all: try by (destruct Hsane as [|[|]]).
    2-3: by (eexists _, _, _; split_and!; eauto; done).
    destruct (Hkey eq_refl) as [Ho1 Hk1].
    unfold_code_goal. rewrite Ho1, Hk1. destruct (specific w1 !! t) as [p|] eqn:Hp.
    + destruct (cell_live _ _ Hok1 _ Hp) as [s Hs]. rewrite Hs.
      eexists _, _, _. split_and!; try done.
      * by rewrite Hp.
      * intros _. by rewrite Hs in Hlast.
    + eexists _, _, _. split_and!; try done. by rewrite Hp.
Qed.


Lemma set_last_same b t c w :
  thread_ok w t ->
  exists r w',
    __rcutils_time_common_set_last_steady_timestamp_thread_local b t c w = Some (r, w') /\
    thread_ok w' t /\
    (r = RCUTILS_RET_OK -> b <> SanityChecksDisabled -> last_recorded b w' t = c) /\
    (last_recorded b w' t = last_recorded b w t \/ last_recorded b w' t = c) /\
    r <> RCUTILS_NON_MONOTONIC_STEADY_TIME /\
    (r = RCUTILS_RET_OK -> b = ThreadLocalPthread -> is_Some (specific w' !! t)).
Proof.
  intros Hok. destruct b; simpl.
  - eexists _, _. by split_and!; auto.
  - eexists _, _. unfold_code_goal. split_and!; try done.
    + by destruct Hok.
    + intros _ _. simpl. by rewrite lookup_insert_eq.
    + right. simpl. by rewrite lookup_insert_eq.
  - destruct (ensure_total t rcutils_get_default_allocator w) as (r & w1 & He).
    destruct (ensure_ok _ _ _ _ _ Hok He) as [Hok1 Hlast].
    destruct (ensure_cell _ _ _ _ _ He) as (_ & Hsane & Hkey & _).
    specialize (Hsane (keys_ret_ok _ _ Hok)).
    specialize (Hlast ThreadLocalPthread). simpl in Hlast.
    rewrite (bind_run _ _ _ _ _ He).
    destruct r.
    all: try by (destruct Hsane as [|[|]]).
    2-3: by (eexists _, _; split_and!; eauto; done).
    destruct (Hkey eq_refl) as [Hone1 Hkeys1].
    unfold_code_goal. rewrite Hone1, Hkeys1. destruct (specific w1 !! t) as [p|] eqn:Hp.
    + destruct (cell_live _ _ Hok1 _ Hp) as [s Hs]. rewrite Hs.
      set (s' := {| timestamp := c; self_allocator := self_allocator s |}).
      destruct (thread_ok_rewrite t w1 p s' (tail (pending w1)) Hok1 Hp) as [Hk1 Hk2].
      cbn [pending set_heap].
      destruct (hd 0 (pending w1) =? 0) eqn:E0;
        [|destruct (hd 0 (pending w1) =? ENOMEM) eqn:E1;
          [|destruct (hd 0 (pending w1) =? EINVAL) eqn:E2]];
        cbv beta iota; rewrite ?E0, ?E1, ?E2; cbn [Z.eqb]; cbv beta iota;
        eexists _, _; (split; [reflexivity|]).
      all: split_and!; try done; simpl.
      all: try (intros _ _).
      all: try right.
      all: rewrite ?lookup_insert_eq, ?Hp, ?lookup_insert_eq; eauto.
    + eexists _, _. split_and!; try done. left. by rewrite Hp.
Qed.

(** One call of the monotonicity check, seen from the calling thread. *)
Lemma check_same b t c w :
  thread_ok w t ->
  exists r w',
    __rcutils_check_steady_time_monotonicity_thread_local b t c w = Some (r, w') /\
    thread_ok w' t /\
    (r = RCUTILS_NON_MONOTONIC_STEADY_TIME ->
     last_recorded b w t > c /\ last_recorded b w' t = last_recorded b w t) /\
    (r = RCUTILS_RET_OK ->
     last_recorded b w t <= c /\ (b <> SanityChecksDisabled -> last_recorded b w' t = c)) /\
    (last_recorded b w' t = last_recorded b w t \/
     last_recorded b w t <= c /\ last_recorded b w' t = c) /\
    (r = RCUTILS_RET_OK -> b = ThreadLocalPthread -> is_Some (specific w' !! t)).
Proof.
  intros Hok. unfold __rcutils_check_steady_time_monotonicity_thread_local.
  destruct (get_last_same b t w Hok) as (r0 & v & w1 & Hg & Hok1 & Hl1 & Hv & _ & Hn).
  rewrite (bind_run _ _ _ _ _ Hg). simpl.
  destruct r0.
  all: try done.
  2-5: by (eexists _, _; split_and!; eauto; done).
  specialize (Hv eq_refl). subst v.
  destruct (Z.gtb_spec (last_recorded b w t) c) as [Hgt|Hle].
  - eexists _, _. split_and!; eauto; try done. intros _. split; [lia | done].
  - destruct (set_last_same b t c w1 Hok1) as (r1 & w2 & Hs & Hok2 & Hc & Hl2 & Hn2 & Hsome).
    rewrite (bind_run _ _ _ _ _ Hs).
    exists r1, w2. split_and!.
    + by destruct r1.
    + done.
    + done.
    + intros ->. split; [lia|]. by apply Hc.
    + destruct Hl2 as [Hl2|Hl2]; [left; congruence | right; split; [lia | done]].
    + done.
Qed.

(** ** The clock reads *)

Lemma store_now_run l v w :
  store_now l v w = Some (tt, log (EvStoreNow l v) (set_mem <[l := v]> w)).
Proof. reflexivity. Qed.

Lemma thread_ok_store_now l v w t :
  thread_ok w t -> thread_ok (log (EvStoreNow l v) (set_mem <[l := v]> w)) t.
Proof. intros []. by split. Qed.

Lemma touches_store_now t l v w :
  touches t w (log (EvStoreNow l v) (set_mem <[l := v]> w)).
Proof. split; simpl; auto with lia. Qed.

Lemma last_recorded_store_now b l v w t :
  last_recorded b (log (EvStoreNow l v) (set_mem <[l := v]> w)) t = last_recorded b w t.
Proof. by destruct b. Qed.

Lemma steady_post_fail b t now v w r :
  thread_ok w t -> r <> RCUTILS_RET_OK -> r <> RCUTILS_NON_MONOTONIC_STEADY_TIME ->
  steady_post b t now v w r w.
Proof. intros. split_and!; try done. Qed.

(** The common end of both steady-time reads: check, then store. *)
Lemma steady_tail b t l v w :
  thread_ok w t -> b <> SanityChecksDisabled ->
  exists r w',
    (r <- __rcutils_check_steady_time_monotonicity_thread_local b t v ;;
     match r with
     | RCUTILS_RET_OK => store_now l v ;;; ret RCUTILS_RET_OK
     | _ => ret r
     end) w = Some (r, w') /\
    steady_post b t (Some l) v w r w'.
Proof.
  intros Hok Hb.
  destruct (check_same b t v w Hok) as (r & w1 & Hc & Hok1 & Hnm & Hacc & Hl & Hsome).
  destruct (check_touches _ _ _ _ _ _ Hc) as [_ Hsil].
  rewrite (bind_run _ _ _ _ _ Hc).
  assert (Hle : last_recorded b w t <= last_recorded b w1 t)
    by (destruct Hl as [->|[? ->]]; lia).
  destruct (decide (r = RCUTILS_RET_OK)) as [->|Hr].
  - rewrite (bind_run _ _ _ _ _ (store_now_run _ _ _)).
    eexists _, _. split; [reflexivity|].
    destruct (Hacc eq_refl) as [Hle' Hv]. split_and!; try done.
    + by apply thread_ok_store_now.
    + intros _. exists l. split_and!; try done.
      * destruct Hsil as [Hm Hs]. split; simpl; by rewrite ?Hm, ?Hs.
      * intros _. rewrite last_recorded_store_now. auto.
  - exists r, w1. split; [by destruct r|]. split_and!; try done.
    intros ->. by destruct (Hnm eq_refl).
Qed.

Lemma unix_steady_same b t now s w :
  thread_ok w t ->
  exists r w',
    time_unix.rcutils_steady_time_now b t now s w = Some (r, w') /\
    steady_post b t now (total_ns s) w r w'.
Proof.
  intros Hok. unfold time_unix.rcutils_steady_time_now, RCUTILS_CHECK_ARGUMENT_FOR_NULL.
  destruct now as [l|]; [|by eexists _, _; eauto using steady_post_fail].
  destruct (time_unix.__WOULD_BE_NEGATIVE _ _);
    [by eexists _, _; eauto using steady_post_fail|].
  fold (total_ns s).
  destruct (decide (b = SanityChecksDisabled)) as [->|Hb].
  { eexists _, _. cbn [RCUTILS_DISABLE_TIME_SANITY_CHECKS].
    rewrite (bind_run _ _ _ _ _ (store_now_run _ _ _)).
    split; [reflexivity|]. split_and!; try done.
    - by apply thread_ok_store_now.
    - intros _. exists l. by split_and!. }
  replace (RCUTILS_DISABLE_TIME_SANITY_CHECKS b) with false by (by destruct b).
  destruct ((tv_sec s >? Z.quot INT64_MAX 1000000000)
            || (tv_nsec s >? 0) && (RCUTILS_S_TO_NS (tv_sec s) >? INT64_MAX - tv_nsec s));
    [by eexists _, _; eauto using steady_post_fail|].
  by apply steady_tail.
Qed.

(** ** Exact runs under a cooperative environment *)

Lemma ensure_existing t a w p :
  specific w !! t = Some p ->
  __key_init_once w = true -> __make_pthread_keys_ret w = RCUTILS_RET_OK ->
  next_ok w ->
  __ensure_last_steady_timestamp_storage t a w =
  Some (RCUTILS_RET_OK, set_pending (tail (pending w)) w).
Proof.
  unfold next_ok. intros Hp Ho Hk Hn. unfold_code_goal.
  rewrite Hn. cbn. rewrite Ho. cbn. rewrite Hk. cbn. by rewrite Ho, Hk, Hp.
Qed.

(** A candidate below the recorded value is turned down, and nothing but
    the consumed environment result changes. *)
Lemma check_reject b t c w :
  thread_ok w t -> b <> SanityChecksDisabled ->
  INT64_MIN <= c -> last_recorded b w t > c ->
  (b = ThreadLocalPthread -> next_ok w) ->
  __rcutils_check_steady_time_monotonicity_thread_local b t c w =
  Some (RCUTILS_NON_MONOTONIC_STEADY_TIME,
        match b with
        | ThreadLocalPthread => set_pending (tail (pending w)) w
        | _ => w
        end).
Proof.
  intros Hok Hb Hc Hgt Hn.
  unfold __rcutils_check_steady_time_monotonicity_thread_local.
  destruct b; [done| |].
  - simpl in *. unfold_code_goal.
    destruct (Z.gtb_spec (default INT64_MIN (__last_steady_timestamp w !! t)) c); [done|lia].
  - specialize (Hn eq_refl). simpl in Hgt.
    destruct (specific w !! t) as [p|] eqn:Hp; [|lia].
    destruct (cell_live _ _ Hok _ Hp) as [s Hs].
    destruct (cell_key _ _ Hok _ Hp) as [Ho Hk].
    rewrite Hs in Hgt. simpl in Hgt.
    unfold __rcutils_time_common_get_last_steady_timestamp_thread_local.
    erewrite bind_run; [|erewrite bind_run; [|by eapply ensure_existing]; unfold_code_goal;
      cbn; rewrite Ho, Hk, Hp; cbn; rewrite Hs; reflexivity].
    simpl. destruct (Z.gtb_spec (timestamp s) c); [done|lia].
Qed.

Lemma Forall_zero_hd (l : list Z) : Forall (fun r => r = 0) l -> hd 0 l = 0.
Proof. by intros [|]. Qed.

Lemma Forall_zero_tail (l : list Z) :
  Forall (fun r => r = 0) l -> Forall (fun r => r = 0) (tail l).
Proof. by intros [|]. Qed.

Ltac no_faults_facts H :=
  let H0 := fresh "Hz" in let H1 := fresh "Hz" in
  let H2 := fresh "Hz" in let H3 := fresh "Hz" in
  pose proof (Forall_zero_hd _ H) as H0;
  pose proof (Forall_zero_hd _ (Forall_zero_tail _ H)) as H1;
  pose proof (Forall_zero_hd _ (Forall_zero_tail _ (Forall_zero_tail _ H))) as H2;
  pose proof (Forall_zero_hd _
    (Forall_zero_tail _ (Forall_zero_tail _ (Forall_zero_tail _ H)))) as H3.

(** With the key available and a cooperative environment,
    [__ensure_last_steady_timestamp_storage] succeeds; a thread without a
    cell gets a new one holding [INT64_MIN] and the given allocator. *)
Lemma ensure_healthy t a w :
  __make_pthread_keys_ret w = RCUTILS_RET_OK -> no_faults w ->
  exists w',
    __ensure_last_steady_timestamp_storage t a w = Some (RCUTILS_RET_OK, w') /\
    __make_pthread_keys_ret w' = RCUTILS_RET_OK /\ __key_init_once w' = true /\
    no_faults w' /\
    match specific w !! t with
    | Some p => specific w' = specific w /\ heap w' = heap w /\
                releases (trace w') = releases (trace w)
    | None => specific w' = <[t := brk w]> (specific w) /\
              heap w' = <[brk w := {| timestamp := INT64_MIN; self_allocator := a |}]> (heap w) /\
              exists tr, trace w' = EvAllocate a (Some (brk w)) :: tr /\
                         releases tr = releases (trace w)
    end.
Proof.
  unfold no_faults. intros Hk Hf. no_faults_facts Hf.
  destruct (ensure_total t a w) as (r & w' & He). pose proof He as H.
  unfold_code H.
  destruct (__key_init_once w) eqn:Ho; destruct (specific w !! t) as [p|] eqn:Hp;
    repeat (progress (rewrite ?Hz, ?Hz0, ?Hz1, ?Hz2, ?Hk, ?Ho, ?Hp in H; cbn in H));
    injection H as <- <-; eexists; (split; [exact He|]);
    cbn [__make_pthread_keys_ret __key_init_once pending specific heap trace
         set_pending set_specific set_heap set_brk set_key_init_once log].
  all: split_and!; try done; eauto 6 using Forall_zero_tail.
Qed.

(** The system-time read does one of two things: store and succeed, or
    fail and change nothing. *)
Lemma unix_system_run b now s w :
  exists r,
    (r = RCUTILS_RET_OK /\ exists l, now = Some l /\
       time_unix.rcutils_system_time_now b now s w =
       Some (r, log (EvStoreNow l (total_ns s)) (set_mem <[l := total_ns s]> w))) \/
    (r <> RCUTILS_RET_OK /\
       time_unix.rcutils_system_time_now b now s w = Some (r, w)).
Proof.
  unfold time_unix.rcutils_system_time_now, RCUTILS_CHECK_ARGUMENT_FOR_NULL. fold (total_ns s).
  destruct now as [l|]; [|by exists RCUTILS_RET_INVALID_ARGUMENT; right].
  destruct (time_unix.__WOULD_BE_NEGATIVE _ _); [by exists RCUTILS_RET_ERROR; right|].
  destruct (RCUTILS_DISABLE_TIME_SANITY_CHECKS b); [exists RCUTILS_RET_OK; left; eauto|].
  destruct (_ || _);
    [by exists RCUTILS_RET_ERROR; right | exists RCUTILS_RET_OK; left; eauto].
Qed.

Lemma unix_steady_touches b t now s w r w' :
  time_unix.rcutils_steady_time_now b t now s w = Some (r, w') -> touches t w w'.
Proof.
  unfold time_unix.rcutils_steady_time_now, RCUTILS_CHECK_ARGUMENT_FOR_NULL. fold (total_ns s).
  destruct now as [l|]; [|intros [= <- <-]; apply touches_refl].
  destruct (time_unix.__WOULD_BE_NEGATIVE _ _); [intros [= <- <-]; apply touches_refl|].
  destruct (RCUTILS_DISABLE_TIME_SANITY_CHECKS b).
  { intros [= <- <-]. apply touches_store_now. }
  destruct (_ || _); [intros [= <- <-]; apply touches_refl|].
  intros H. apply bind_inv in H as (r0 & w1 & Hc & H).
  apply check_touches in Hc as [Ht _].
  destruct r0; try (injection H as <- <-; done).
  injection H as <- <-. eapply touches_trans; [done | apply touches_store_now].
Qed.

Lemma perform_touches b t c w r w' :
  perform b t c w = Some (r, w') -> touches t w w'.
Proof.
  destruct c as [now s|now s|a|]; simpl.
  - apply unix_steady_touches.
  - destruct (unix_system_run b now s w) as (r0 & [(_ & l & _ & ->)|(_ & ->)]);
      intros [= <- <-]; [apply touches_store_now | apply touches_refl].
  - destruct b; simpl; try (intros [= <- <-]; apply touches_refl).
    intros H. by apply ensure_touches in H as [].
  - destruct b; simpl; try (intros [= <- <-]; apply touches_refl).
    intros H. by apply destroy_touches in H as [].
Qed.

(** Any call but [fini], seen from the calling thread. *)
Lemma perform_same b t c w :
  thread_ok w t -> c <> ThreadSpecificFini ->
  exists r w',
    perform b t c w = Some (r, w') /\
    thread_ok w' t /\
    last_recorded b w t <= last_recorded b w' t /\
    forall now s, c = SteadyTimeNow now s -> r = RCUTILS_RET_OK ->
      b <> SanityChecksDisabled ->
      (now ≫= fun l => mem w' !! l) = Some (total_ns s) /\
      last_recorded b w t <= total_ns s /\
      last_recorded b w' t = total_ns s.
Proof.
  intros Hok Hc. destruct c as [now s|now s|a|]; [| | |done]; simpl.
  - destruct (unix_steady_same b t now s w Hok) as (r & w' & Hr & Hok' & Hle & Hacc & _).
    exists r, w'. split_and!; try done.
    intros now' s' [= <- <-] -> Hb.
    destruct (Hacc eq_refl) as (l & -> & [Hm _] & Hv). split; [|by apply Hv].
    simpl. by rewrite Hm, lookup_insert_eq.
  - destruct (unix_system_run b now s w) as (r0 & [(_ & l & _ & ->)|(_ & ->)]);
      eexists _, _; (split; [reflexivity|]); split_and!; try done.
    all: try by apply thread_ok_store_now.
    all: try (rewrite last_recorded_store_now; lia).
  - unfold rcutils_steady_time_now_thread_specific_init.
    destruct b; simpl; try (by eexists _, _; split_and!).
    destruct (ensure_total t a w) as (r & w' & He).
    destruct (ensure_ok _ _ _ _ _ Hok He) as [Hok' Hl].
    exists r, w'. split_and!; try done. specialize (Hl ThreadLocalPthread). simpl in *. lia.
Qed.

Lemma steady_values_cons tid o os :
  steady_values tid (o :: os) =
  match steady_value tid o with
  | Some v => v :: steady_values tid os
  | None => steady_values tid os
  end.
Proof. reflexivity. Qed.

Lemma steady_value_other tid t c r v :
  t <> tid \/ r <> RCUTILS_RET_OK \/ (forall now s, c <> SteadyTimeNow now s) ->
  steady_value tid {| o_thread := t; o_call := c; o_ret := r; o_now := v |} = None.
Proof.
  unfold steady_value. simpl. intros [H|[H|H]].
  - destruct c, r; try done. by destruct (decide (t = tid)).
  - by destruct c, r.
  - destruct c; try done. by destruct (H now sample).
Qed.

Lemma steady_value_own tid now s v :
  steady_value tid {| o_thread := tid; o_call := SteadyTimeNow now s;
                      o_ret := RCUTILS_RET_OK; o_now := v |} = v.
Proof. unfold steady_value. simpl. by destruct (decide (tid = tid)). Qed.

(** Steady-time values seen by a thread never go down, whatever the other
    threads do in between. *)
Lemma run_sorted b tid cs :
  b <> SanityChecksDisabled ->
  forall w obs w',
    thread_ok w tid ->
    Forall (fun tc => tc <> (tid, ThreadSpecificFini)) cs ->
    run b cs w = Some (obs, w') ->
    Forall (fun v => last_recorded b w tid <= v) (steady_values tid obs) /\
    StronglySorted Z.le (steady_values tid obs).
Proof.
  intros Hb. induction cs as [|[t c] cs IH]; intros w obs w' Hok Hnf Hrun.
  { injection Hrun as <- <-. split; constructor. }
  apply Forall_cons in Hnf as [Hne Hnf].
  simpl in Hrun.
  apply bind_inv in Hrun as (o & w1 & Ho & Hrun).
  apply bind_inv in Hrun as (os & w2 & Hrest & Hrun).
  injection Hrun as <- <-.
  unfold observe in Ho. simpl in Ho.
  apply bind_inv in Ho as (r & w1' & Hp & Ho).
  injection Ho as <- <-.
  rewrite steady_values_cons.
  destruct (decide (t = tid)) as [->|Hother].
  - assert (Hc : c <> ThreadSpecificFini) by congruence.
    destruct (perform_same b tid c w Hok Hc) as (r' & w'' & Hp' & Hok1 & Hle & Hv).
    rewrite Hp in Hp'. injection Hp' as <- <-.
    destruct (IH _ _ _ Hok1 Hnf Hrest) as [Hall Hsort].
    assert (Hall' : Forall (fun v => last_recorded b w tid <= v) (steady_values tid os)).
    { eapply Forall_impl; [exact Hall|]. simpl. intros. lia. }
    destruct (decide (r = RCUTILS_RET_OK)) as [->|Hr];
      [|by rewrite steady_value_other by auto].
    destruct c as [now s|now s|a|];
      [|by rewrite steady_value_other by auto..].
    destruct (Hv _ _ eq_refl eq_refl Hb) as (Hnow & Hle' & Hlast).
    rewrite steady_value_own. simpl destination. rewrite Hnow. split.
    + by constructor.
    + constructor; [done|]. by rewrite <- Hlast.
  - destruct (touches_other _ _ _ _ (perform_touches _ _ _ _ _ _ Hp) Hother Hok)
      as [Hok1 Hlast].
    destruct (IH _ _ _ Hok1 Hnf Hrest) as [Hall Hsort].
    rewrite Hlast in Hall. by rewrite steady_value_other by auto.
Qed.

(** Without [fini] and with every calling thread well-formed, a call
    sequence runs to completion. *)
Lemma run_total b cs :
  forall w,
    (forall t c, (t, c) ∈ cs -> thread_ok w t /\ c <> ThreadSpecificFini) ->
    exists obs w', run b cs w = Some (obs, w').
Proof.
  induction cs as [|[t c] cs IH]; intros w Hcs; [by eexists _, _|].
  destruct (Hcs t c) as [Hok Hc]; [by left|].
  destruct (perform_same b t c w Hok Hc) as (r & w1 & Hp & Hok1 & _).
  destruct (IH w1) as (os & w2 & Hrun).
  { intros t' c' Hin. destruct (Hcs t' c') as [Hok' Hc']; [by right|]. split; [|done].
    destruct (decide (t = t')) as [<-|Hne]; [done|].
    by destruct (touches_other _ _ _ _ (perform_touches _ _ _ _ _ _ Hp) Hne Hok'). }
  eassert (Ho : observe b (t, c) w = Some (_, w1)).
  { unfold observe. simpl. rewrite (bind_run _ _ _ _ _ Hp). reflexivity. }
  simpl. rewrite (bind_run _ _ _ _ _ Ho), (bind_run _ _ _ _ _ Hrun). by eexists _, _.
Qed.

Lemma get_last_healthy t w :
  thread_ok w t -> __make_pthread_keys_ret w = RCUTILS_RET_OK -> no_faults w ->
  exists v w',
    __rcutils_time_common_get_last_steady_timestamp_thread_local ThreadLocalPthread t w =
      Some ((RCUTILS_RET_OK, v), w') /\
    __make_pthread_keys_ret w' = RCUTILS_RET_OK /\ no_faults w'.
Proof.
  intros Hok Hk Hf.
  destruct (ensure_healthy t rcutils_get_default_allocator w Hk Hf)
    as (w1 & He & Hk1 & Ho1 & Hf1 & Hcell).
  destruct (ensure_ok _ _ _ _ _ Hok He) as [Hok1 _].
  assert (exists p, specific w1 !! t = Some p) as [p Hp].
  { destruct (specific w !! t) as [p|] eqn:Hp.
    - destruct Hcell as (-> & _). eauto.
    - destruct Hcell as (-> & _). rewrite lookup_insert_eq. eauto. }
  destruct (cell_live _ _ Hok1 _ Hp) as [s Hs].
  simpl. rewrite (bind_run _ _ _ _ _ He). unfold_code_goal. rewrite Ho1, Hk1, Hp, Hs.
  by eexists _, _.
Qed.

Lemma set_last_healthy t c w :
  thread_ok w t -> __make_pthread_keys_ret w = RCUTILS_RET_OK -> no_faults w ->
  exists w',
    __rcutils_time_common_set_last_steady_timestamp_thread_local ThreadLocalPthread t c w =
      Some (RCUTILS_RET_OK, w') /\
    __make_pthread_keys_ret w' = RCUTILS_RET_OK /\ no_faults w'.
Proof.
  intros Hok Hk Hf.
  destruct (ensure_healthy t rcutils_get_default_allocator w Hk Hf)
    as (w1 & He & Hk1 & Ho1 & Hf1 & Hcell).
  destruct (ensure_ok _ _ _ _ _ Hok He) as [Hok1 _].
  assert (exists p, specific w1 !! t = Some p) as [p Hp].
  { destruct (specific w !! t) as [p|] eqn:Hp.
    - destruct Hcell as (-> & _). eauto.
    - destruct Hcell as (-> & _). rewrite lookup_insert_eq. eauto. }
  destruct (cell_live _ _ Hok1 _ Hp) as [s Hs].
  simpl. rewrite (bind_run _ _ _ _ _ He). unfold_code_goal. rewrite Ho1, Hk1, Hp, Hs.
  cbn [pending set_heap]. rewrite (Forall_zero_hd _ Hf1). cbn [Z.eqb].
  eexists. split; [reflexivity|]. split; [done|]. by apply Forall_zero_tail.
Qed.

(** A candidate that is not below the recorded value is accepted. *)
Lemma check_accept b t c w :
  thread_ok w t -> last_recorded b w t <= c ->
  (b = ThreadLocalPthread -> __make_pthread_keys_ret w = RCUTILS_RET_OK /\ no_faults w) ->
  exists w',
    __rcutils_check_steady_time_monotonicity_thread_local b t c w =
      Some (RCUTILS_RET_OK, w') /\
    (b = ThreadLocalPthread -> __make_pthread_keys_ret w' = RCUTILS_RET_OK /\ no_faults w').
Proof.
  intros Hok Hle Hh.
  unfold __rcutils_check_steady_time_monotonicity_thread_local.
  destruct (get_last_same b t w Hok) as (r0 & v & w1 & Hg & Hok1 & Hl1 & Hv & _).
  assert (exists w2, __rcutils_time_common_set_last_steady_timestamp_thread_local b t c w1
                       = Some (RCUTILS_RET_OK, w2) /\ r0 = RCUTILS_RET_OK /\
            (b = ThreadLocalPthread ->
             __make_pthread_keys_ret w2 = RCUTILS_RET_OK /\ no_faults w2))
    as (w2 & Hs & -> & Hh2).
  { destruct b.
    - injection Hg as <- <- <-. by eexists.
    - injection Hg as <- <- <-. by eexists.
    - destruct (Hh eq_refl) as [Hk Hf].
      destruct (get_last_healthy t w Hok Hk Hf) as (v' & w1' & Hg' & Hk1 & Hf1).
      rewrite Hg in Hg'. injection Hg' as -> -> ->.
      destruct (set_last_healthy t c w1' Hok1 Hk1 Hf1) as (w2 & Hs & Hk2 & Hf2).
      by exists w2. }
  rewrite (bind_run _ _ _ _ _ Hg). simpl. rewrite (Hv eq_refl).
  destruct (Z.gtb_spec (last_recorded b w t) c); [lia|].
  rewrite (bind_run _ _ _ _ _ Hs). by exists w2.
Qed.

(** * The properties *)

(** ** Nanosecond arithmetic *)

Lemma wrap64_range z : in_int64 (wrap64 z).
Proof.
  unfold in_int64, wrap64, INT64_MIN, INT64_MAX.
  pose proof (Z.mod_pos_bound (z + 2 ^ 63) (2 ^ 64) ltac:(lia)). lia.
Qed.

Lemma wrap64_id z : in_int64 z -> wrap64 z = z.
Proof.
  unfold in_int64, wrap64, INT64_MIN, INT64_MAX. intros H.
  rewrite Z.mod_small; lia.
Qed.

Lemma would_be_negative_spec s :
  time_unix.__WOULD_BE_NEGATIVE (tv_sec s) (tv_nsec s) = true <-> negative_sample s.
Proof.
  unfold time_unix.__WOULD_BE_NEGATIVE, negative_sample.
  rewrite orb_true_iff, andb_true_iff, !Z.ltb_lt, Z.eqb_eq. tauto.
Qed.

(** On a sample that is not negative the test made by the code is the
    overflow condition on mathematical integers. *)
Lemma overflow_happened_spec s :
  0 <= tv_sec s ->
  (tv_sec s >? Z.quot INT64_MAX 1000000000)
  || ((tv_nsec s >? 0) && (RCUTILS_S_TO_NS (tv_sec s) >? INT64_MAX - tv_nsec s)) = true
  <-> overflows s.
Proof.
  intros Hs. unfold overflows, RCUTILS_S_TO_NS.
  change (Z.quot INT64_MAX 1000000000) with 9223372036.
  change (INT64_MAX / 1000000000) with 9223372036.
  change (1000 * 1000 * 1000) with 1000000000.
  rewrite orb_true_iff, andb_true_iff, !Z.gtb_gt.
  destruct (decide (tv_sec s > 9223372036)) as [Hbig|Hsmall]; [tauto|].
  rewrite wrap64_id by (unfold in_int64, INT64_MIN, INT64_MAX; lia).
  tauto.
Qed.

Lemma overflows_not_negative s :
  in_int64 (tv_nsec s) -> overflows s -> 0 <= tv_sec s /\ ~ negative_sample s.
Proof.
  unfold overflows, negative_sample, in_int64.
  change (INT64_MAX / 1000000000) with 9223372036. unfold INT64_MAX, INT64_MIN.
  intros Hn [H|[H1 H2]]; lia.
Qed.

Lemma thread_ok_initial t : thread_ok initial_world t.
Proof. split; simpl; try done. by left. Qed.

(** A sample below the recorded value makes the unix steady-time read fail
    with the non-monotonic code. *)
Lemma unix_steady_reject b t l s w :
  thread_ok w t -> b <> SanityChecksDisabled ->
  ~ negative_sample s -> ~ overflows s ->
  total_ns s < last_recorded b w t ->
  (b = ThreadLocalPthread -> next_ok w) ->
  exists w',
    time_unix.rcutils_steady_time_now b t (Some l) s w =
    Some (RCUTILS_NON_MONOTONIC_STEADY_TIME, w') /\ silent w w'.
Proof.
  intros Hok Hb Hneg Hov Hlt Hn.
  unfold time_unix.rcutils_steady_time_now, RCUTILS_CHECK_ARGUMENT_FOR_NULL. fold (total_ns s).
  destruct (time_unix.__WOULD_BE_NEGATIVE _ _) eqn:E;
    [by apply would_be_negative_spec in E|].
  replace (RCUTILS_DISABLE_TIME_SANITY_CHECKS b) with false by (by destruct b).
  assert (0 <= tv_sec s) as Hs by (unfold negative_sample in Hneg; lia).
  destruct (_ || _) eqn:E'; [by apply overflow_happened_spec in E'|].
  pose proof (wrap64_range (RCUTILS_S_TO_NS (tv_sec s) + tv_nsec s)) as [Hlo _].
  fold (total_ns s) in Hlo.
  rewrite (bind_run _ _ _ _ _ (check_reject b t _ w Hok Hb Hlo ltac:(lia) Hn)).
  eexists. split; [reflexivity|]. by destruct b.
Qed.

(** C1.  With sanity checks enabled, the values one thread gets from its
    successful [rcutils_steady_time_now] calls never decrease, as long as
    that thread does not call [rcutils_steady_time_now_thread_specific_fini]
    in between (other threads may do anything); a sequence without [fini]
    runs to completion; and a candidate strictly below the thread's last
    recorded value gets [RCUTILS_NON_MONOTONIC_STEADY_TIME], both at the
    check and at the read. *)
Theorem steady_time_never_decreases (b : tls_backend) (tid : thread_id) :
  b <> SanityChecksDisabled ->
  (forall cs w,
     (forall t c, (t, c) ∈ cs -> thread_ok w t /\ c <> ThreadSpecificFini) ->
     exists obs w', run b cs w = Some (obs, w')) /\
  (forall cs w obs w',
     thread_ok w tid ->
     Forall (fun tc => tc <> (tid, ThreadSpecificFini)) cs ->
     run b cs w = Some (obs, w') ->
     StronglySorted Z.le (steady_values tid obs)) /\
  (forall w candidate,
     thread_ok w tid -> INT64_MIN <= candidate ->
     candidate < last_recorded b w tid ->
     (b = ThreadLocalPthread -> next_ok w) ->
     exists w',
       __rcutils_check_steady_time_monotonicity_thread_local b tid candidate w =
       Some (RCUTILS_NON_MONOTONIC_STEADY_TIME, w')) /\
  (forall w now sample,
     thread_ok w tid -> ~ negative_sample sample -> ~ overflows sample ->
     total_ns sample < last_recorded b w tid ->
     (b = ThreadLocalPthread -> next_ok w) ->
     exists w',
       time_unix.rcutils_steady_time_now b tid (Some now) sample w =
       Some (RCUTILS_NON_MONOTONIC_STEADY_TIME, w') /\ silent w w').
Proof.
  intros Hb. split_and!.
  - intros cs w Hcs. by apply run_total.
  - intros cs w obs w' Hok Hnf Hrun. by eapply run_sorted.
  - intros w c Hok Hlo Hlt Hn. eexists. apply check_reject; auto with lia.
  - intros w now s Hok Hneg Hov Hlt Hn. by apply unix_steady_reject.
Qed.

Lemma steady_time_never_decreases_witness :
  exists obs w',
    run ThreadLocalPthread two_threads_calls initial_world = Some (obs, w') /\
    steady_values 0%nat obs = [5000000100; 5000000100; 6000000001] /\
    StronglySorted Z.le (steady_values 0%nat obs).
Proof.
  destruct (run ThreadLocalPthread two_threads_calls initial_world)
    as [[obs w']|] eqn:Hrun; [|by vm_compute in Hrun].
  exists obs, w'. split; [done|]. split.
  - vm_compute in Hrun. by injection Hrun as <- <-.
  - apply (proj1 (proj2 (steady_time_never_decreases ThreadLocalPthread 0%nat
                           ltac:(done))) two_threads_calls initial_world obs w').
    + apply thread_ok_initial.
    + unfold two_threads_calls. repeat constructor; done.
    + done.
Defined.

(** C2.  The monotonicity check returns the non-monotonic code exactly when
    the thread's last recorded timestamp is strictly greater than the
    candidate, leaving the recorded value as it was; whenever it succeeds the
    candidate is the new recorded value; and a candidate that is not smaller
    (equal included) is accepted.  In the pthread case "exactly" and
    "accepted" need the environment calls of the check to succeed. *)
Theorem check_rejects_iff_strictly_older
    (b : tls_backend) (tid : thread_id) (candidate : Z) (w : world) :
  b <> SanityChecksDisabled -> thread_ok w tid ->
  exists r w',
    __rcutils_check_steady_time_monotonicity_thread_local b tid candidate w
      = Some (r, w') /\
    (r = RCUTILS_NON_MONOTONIC_STEADY_TIME ->
     last_recorded b w tid > candidate /\
     last_recorded b w' tid = last_recorded b w tid) /\
    (INT64_MIN <= candidate -> (b = ThreadLocalPthread -> next_ok w) ->
     (r = RCUTILS_NON_MONOTONIC_STEADY_TIME <-> last_recorded b w tid > candidate)) /\
    (r = RCUTILS_RET_OK ->
     last_recorded b w tid <= candidate /\ last_recorded b w' tid = candidate) /\
    ((b = ThreadLocalPthread ->
      __make_pthread_keys_ret w = RCUTILS_RET_OK /\ no_faults w) ->
     last_recorded b w tid <= candidate -> r = RCUTILS_RET_OK).
Proof.
  intros Hb Hok.
  destruct (check_same b tid candidate w Hok) as (r & w' & Hc & Hok' & Hnm & Hacc & Hl).
  exists r, w'. split_and!; try done.
  - intros Hlo Hn. split; [intros H; by destruct (Hnm H)|]. intros Hgt.
    rewrite (check_reject b tid candidate w Hok Hb Hlo Hgt Hn) in Hc. by injection Hc as <- _.
  - intros ->. destruct (Hacc eq_refl). auto.
  - intros Hh Hle. destruct (check_accept b tid candidate w Hok Hle Hh) as (w2 & Hc2 & _).
    rewrite Hc in Hc2. by injection Hc2 as -> _.
Qed.

Lemma thread_ok_after_first_check : thread_ok world_after_first_check 0%nat.
Proof.
  destruct (check_same ThreadLocalPthread 0%nat 10 initial_world (thread_ok_initial _))
    as (r & w' & Hc & Hok & _).
  unfold world_after_first_check. by rewrite Hc.
Qed.

Lemma check_rejects_iff_strictly_older_witness :
  last_recorded ThreadLocalPthread world_after_first_check 0%nat = 10 /\
  exists r w',
    __rcutils_check_steady_time_monotonicity_thread_local
      ThreadLocalPthread 0%nat 10 world_after_first_check = Some (r, w') /\
    r = RCUTILS_RET_OK.
Proof.
  split; [by vm_compute|].
  destruct (check_rejects_iff_strictly_older ThreadLocalPthread 0%nat 10
              world_after_first_check ltac:(done) thread_ok_after_first_check)
    as (r & w' & Hc & _ & _ & _ & Hacc).
  exists r, w'. split; [done|]. apply Hacc.
  - intros _. split; [by vm_compute | by constructor].
  - by vm_compute.
Defined.

Lemma win32_steady_same b t now f c w :
  thread_ok w t -> win32_defined f c ->
  exists r w',
    time_win32.rcutils_steady_time_now b t now f c w = Some (r, w') /\
    steady_post b t now (win32_total_ns f c) w r w'.
Proof.
  intros Hok [Hf Hc]. unfold time_win32.rcutils_steady_time_now, RCUTILS_CHECK_ARGUMENT_FOR_NULL.
  destruct now as [l|]; [|by eexists _, _; eauto using steady_post_fail].
  replace ((f =? 0) || (f =? -1) && (c =? INT64_MIN)) with false.
  2:{ symmetry. apply orb_false_iff. split; [by apply Z.eqb_neq|].
      apply andb_false_iff. destruct (Z.eqb_spec f (-1)); [right|by left].
      apply Z.eqb_neq. tauto. }
  fold (win32_total_ns f c).
  destruct (decide (b = SanityChecksDisabled)) as [->|Hb].
  { eexists _, _. cbn [RCUTILS_DISABLE_TIME_SANITY_CHECKS].
    rewrite (bind_run _ _ _ _ _ (store_now_run _ _ _)).
    split; [reflexivity|]. split_and!; try done.
    - by apply thread_ok_store_now.
    - intros _. exists l. by split_and!. }
  replace (RCUTILS_DISABLE_TIME_SANITY_CHECKS b) with false by (by destruct b).
  destruct (_ >? _); [by eexists _, _; eauto using steady_post_fail|].
  destruct (_ >? _); [by eexists _, _; eauto using steady_post_fail|].
  destruct (_ && _); [by eexists _, _; eauto using steady_post_fail|].
  by apply steady_tail.
Qed.

Lemma win32_system_run now ft w :
  exists r v,
    (r = RCUTILS_RET_OK /\ exists l, now = Some l /\
       time_win32.rcutils_system_time_now now ft w =
       Some (r, log (EvStoreNow l v) (set_mem <[l := v]> w))) \/
    (r <> RCUTILS_RET_OK /\
       time_win32.rcutils_system_time_now now ft w = Some (r, w)).
Proof.
  unfold time_win32.rcutils_system_time_now, RCUTILS_CHECK_ARGUMENT_FOR_NULL.
  destruct now as [l|]; [|by exists RCUTILS_RET_INVALID_ARGUMENT, 0; right].
  destruct (_ >? _); [by exists RCUTILS_CALCULATION_OVERFLOW, 0; right|].
  eexists RCUTILS_RET_OK, _. left. eauto.
Qed.

(** C4.  Every failing call of the four clock reads leaves the caller's
    memory unwritten; a successful call writes the destination exactly once.
    Each read returns (the win32 steady-time read for the counter and
    frequency its divisions are defined on). *)
Theorem failing_read_writes_nothing
    (b : tls_backend) (tid : thread_id) (now : option loc) (w : world) :
  thread_ok w tid ->
  let post := fun (res : option (rcutils_ret_t * world)) =>
    exists r w', res = Some (r, w') /\
      (r <> RCUTILS_RET_OK -> silent w w') /\
      (r = RCUTILS_RET_OK -> exists l v, now = Some l /\ stored l v w w') in
  (forall sample, post (time_unix.rcutils_system_time_now b now sample w)) /\
  (forall sample, post (time_unix.rcutils_steady_time_now b tid now sample w)) /\
  (forall ft, post (time_win32.rcutils_system_time_now now ft w)) /\
  (forall cpu_frequency performance_count,
     win32_defined cpu_frequency performance_count ->
     post (time_win32.rcutils_steady_time_now b tid now cpu_frequency performance_count w)).
Proof.
  intros Hok post. subst post. split_and!.
  - intros s. destruct (unix_system_run b now s w) as (r & [(-> & l & -> & ->)|(Hr & ->)]);
      eexists _, _; (split; [reflexivity|]); (split; [done|]).
    + intros _. by exists l, (total_ns s).
    + done.
  - intros s. destruct (unix_steady_same b tid now s w Hok)
      as (r & w' & -> & _ & _ & Hacc & Hsil & _).
    exists r, w'. split_and!; try done.
    intros Hr. destruct (Hacc Hr) as (l & -> & Hst & _). by exists l, (total_ns s).
  - intros ft. destruct (win32_system_run now ft w)
      as (r & v & [(-> & l & -> & ->)|(Hr & ->)]);
      eexists _, _; (split; [reflexivity|]); (split; [done|]).
    + intros _. by exists l, v.
    + done.
  - intros f c Hdef. destruct (win32_steady_same b tid now f c w Hok Hdef)
      as (r & w' & -> & _ & _ & Hacc & Hsil & _).
    exists r, w'. split_and!; try done.
    intros Hr. destruct (Hacc Hr) as (l & -> & Hst & _). by eexists l, _.
Qed.

Lemma failing_read_writes_nothing_witness :
  exists r w',
    time_unix.rcutils_steady_time_now ThreadLocalPthread 0%nat (Some 7%nat)
      {| tv_sec := 9223372037; tv_nsec := 0 |} initial_world = Some (r, w') /\
    r = RCUTILS_CALCULATION_OVERFLOW /\ silent initial_world w'.
Proof.
  destruct (proj1 (proj2 (failing_read_writes_nothing ThreadLocalPthread 0%nat
              (Some 7%nat) initial_world (thread_ok_initial _)))
              {| tv_sec := 9223372037; tv_nsec := 0 |})
    as (r & w' & Hrun & Hsil & _).
  exists r, w'. split; [done|].
  vm_compute in Hrun. injection Hrun as <- <-. split; [done|]. by apply Hsil.
Defined.

(** C5.  A system-time read (unix or win32) returns, leaves the whole state
    of the monotonicity guard as it was, so every thread's last recorded
    timestamp is unchanged, and its status and the value it stores are the
    same from any two states. *)
Theorem system_time_ignores_monotonicity_state
    (b : tls_backend) (now : option loc) (sample : timespec)
    (ft : time_win32.FILETIME) (w : world) :
  (exists r w',
     time_unix.rcutils_system_time_now b now sample w = Some (r, w') /\
     guard_state w' = guard_state w /\
     forall b' t, last_recorded b' w' t = last_recorded b' w t) /\
  (exists r w',
     time_win32.rcutils_system_time_now now ft w = Some (r, w') /\
     guard_state w' = guard_state w /\
     forall b' t, last_recorded b' w' t = last_recorded b' w t) /\
  (forall w2,
     fst <$> time_unix.rcutils_system_time_now b now sample w
       = fst <$> time_unix.rcutils_system_time_now b now sample w2 /\
     fst <$> time_win32.rcutils_system_time_now now ft w
       = fst <$> time_win32.rcutils_system_time_now now ft w2) /\
  (forall w2 r1 w1' r2 w2',
     (time_unix.rcutils_system_time_now b now sample w = Some (r1, w1') /\
      time_unix.rcutils_system_time_now b now sample w2 = Some (r2, w2') \/
      time_win32.rcutils_system_time_now now ft w = Some (r1, w1') /\
      time_win32.rcutils_system_time_now now ft w2 = Some (r2, w2')) ->
     r1 = RCUTILS_RET_OK ->
     exists l v, now = Some l /\ r2 = RCUTILS_RET_OK /\
                 mem w1' !! l = Some v /\ mem w2' !! l = Some v).
Proof.
  split_and!.
  - destruct (unix_system_run b now sample w) as (r & [(-> & l & -> & ->)|(Hr & ->)]);
      eexists _, _; (split; [reflexivity|]); by split.
  - destruct (win32_system_run now ft w) as (r & v & [(-> & l & -> & ->)|(Hr & ->)]);
      eexists _, _; (split; [reflexivity|]); by split.
  - intros w2. split.
    + unfold time_unix.rcutils_system_time_now, RCUTILS_CHECK_ARGUMENT_FOR_NULL.
      destruct now; [|done]. destruct (time_unix.__WOULD_BE_NEGATIVE _ _); [done|].
      destruct (RCUTILS_DISABLE_TIME_SANITY_CHECKS b); [done|].
      by destruct (_ || _).
    + unfold time_win32.rcutils_system_time_now, RCUTILS_CHECK_ARGUMENT_FOR_NULL.
      destruct now; [|done]. by destruct (_ >? _).
  - intros w2 r1 w1' r2 w2' [[H1 H2]|[H1 H2]] ->.
    + unfold time_unix.rcutils_system_time_now, RCUTILS_CHECK_ARGUMENT_FOR_NULL in *.
      destruct now as [l|]; [|done].
      destruct (time_unix.__WOULD_BE_NEGATIVE _ _); [done|].
      destruct (RCUTILS_DISABLE_TIME_SANITY_CHECKS b); [|destruct (_ || _); [done|]].
      all: injection H1 as <-; injection H2 as <- <-; eexists l, _; split_and!; try done.
      all: simpl; by rewrite lookup_insert_eq.
    + unfold time_win32.rcutils_system_time_now, RCUTILS_CHECK_ARGUMENT_FOR_NULL in *.
      destruct now as [l|]; [|done].
      destruct (_ >? _); [done|].
      injection H1 as <-; injection H2 as <- <-; eexists l, _; split_and!; try done.
      all: simpl; by rewrite lookup_insert_eq.
Qed.

Lemma system_time_ignores_monotonicity_state_witness :
  exists l v,
    Some 7%nat = Some l /\ RCUTILS_RET_OK = RCUTILS_RET_OK /\
    mem (log (EvStoreNow 7%nat 1000000005)
           (set_mem <[7%nat := 1000000005]> initial_world)) !! l = Some v /\
    mem (log (EvStoreNow 7%nat 1000000005)
           (set_mem <[7%nat := 1000000005]> world_after_first_check)) !! l = Some v.
Proof.
  apply (proj2 (proj2 (proj2 (system_time_ignores_monotonicity_state
           NativeThreadLocal (Some 7%nat) {| tv_sec := 1; tv_nsec := 5 |}
           {| time_win32.dwLowDateTime := 0; time_win32.dwHighDateTime := 0 |}
           initial_world)))
         world_after_first_check RCUTILS_RET_OK _ RCUTILS_RET_OK _).
  - left. split; reflexivity.
  - reflexivity.
Defined.

Lemma fresh_thread_last b w t : fresh_thread w t -> last_recorded b w t = INT64_MIN.
Proof. intros [H1 H2]. destruct b; simpl; by rewrite ?H1, ?H2. Qed.

(** C9.  On a thread that has no cell yet, the first steady-time read (unix
    or win32) returns and never with [RCUTILS_NON_MONOTONIC_STEADY_TIME],
    whatever the sample, the build case and the behaviour of the
    environment; the same holds for the check on any [int64_t] candidate. *)
Theorem first_read_is_never_non_monotonic
    (b : tls_backend) (tid : thread_id) (w : world) :
  thread_ok w tid -> fresh_thread w tid ->
  (forall now sample, exists r w',
     time_unix.rcutils_steady_time_now b tid now sample w = Some (r, w') /\
     r <> RCUTILS_NON_MONOTONIC_STEADY_TIME) /\
  (forall now cpu_frequency performance_count,
     win32_defined cpu_frequency performance_count ->
     exists r w',
       time_win32.rcutils_steady_time_now b tid now cpu_frequency performance_count w
         = Some (r, w') /\
       r <> RCUTILS_NON_MONOTONIC_STEADY_TIME) /\
  (forall candidate, in_int64 candidate -> exists r w',
     __rcutils_check_steady_time_monotonicity_thread_local b tid candidate w
       = Some (r, w') /\
     r <> RCUTILS_NON_MONOTONIC_STEADY_TIME).
Proof.
  intros Hok Hfresh. pose proof (fresh_thread_last b w tid Hfresh) as Hlast.
  split_and!.
  - intros now s. destruct (unix_steady_same b tid now s w Hok)
      as (r & w' & -> & _ & _ & _ & _ & Hnm & _).
    exists r, w'. split; [done|]. intros Hr. destruct (Hnm Hr) as [Hgt _].
    pose proof (wrap64_range (RCUTILS_S_TO_NS (tv_sec s) + tv_nsec s)) as [Hlo _].
    unfold total_ns in Hgt. lia.
  - intros now f c Hdef. destruct (win32_steady_same b tid now f c w Hok Hdef)
      as (r & w' & -> & _ & _ & _ & _ & Hnm & _).
    exists r, w'. split; [done|]. intros Hr. destruct (Hnm Hr) as [Hgt _].
    unfold win32_total_ns in Hgt.
    match type of Hgt with _ > wrap64 ?z => pose proof (wrap64_range z) as [Hlo _] end.
    lia.
  - intros c [Hlo _]. destruct (check_same b tid c w Hok) as (r & w' & -> & _ & Hnm & _).
    exists r, w'. split; [done|]. intros Hr. destruct (Hnm Hr) as [Hgt _]. lia.
Qed.

Lemma fresh_thread_initial t : fresh_thread initial_world t.
Proof. by split. Qed.

Lemma first_read_is_never_non_monotonic_witness :
  exists r w',
    time_unix.rcutils_steady_time_now ThreadLocalPthread 0%nat (Some 7%nat)
      {| tv_sec := 0; tv_nsec := 0 |} initial_world = Some (r, w') /\
    r <> RCUTILS_NON_MONOTONIC_STEADY_TIME.
Proof.
  apply (proj1 (first_read_is_never_non_monotonic ThreadLocalPthread 0%nat initial_world
                  (thread_ok_initial _) (fresh_thread_initial _))).
Defined.

(** C10.  Built with [RCUTILS_DISABLE_TIME_SANITY_CHECKS], the unix reads
    return, never with an overflow or a non-monotonic code: the status is
    [RCUTILS_RET_INVALID_ARGUMENT] exactly for a null destination,
    [RCUTILS_RET_ERROR] exactly for a negative sample, and
    [RCUTILS_RET_OK] otherwise, storing the wrapped 64-bit sum, which is
    not the true nanosecond count when that count exceeds [INT64_MAX]. *)
Theorem disabled_checks_never_report_overflow
    (tid : thread_id) (now : option loc) (sample : timespec) (w : world) :
  let post := fun (res : option (rcutils_ret_t * world)) =>
    exists r w', res = Some (r, w') /\
      r <> RCUTILS_CALCULATION_OVERFLOW /\
      r <> RCUTILS_NON_MONOTONIC_STEADY_TIME /\
      r <> RCUTILS_RET_BAD_ALLOC /\
      (r = RCUTILS_RET_INVALID_ARGUMENT <-> now = None) /\
      (r = RCUTILS_RET_ERROR <-> now <> None /\ negative_sample sample) /\
      (r = RCUTILS_RET_OK <-> now <> None /\ ~ negative_sample sample) /\
      (r = RCUTILS_RET_OK ->
       exists l, now = Some l /\
         stored l (wrap64 (wrap64 (tv_sec sample * 1000000000) + tv_nsec sample)) w w') in
  post (time_unix.rcutils_system_time_now SanityChecksDisabled now sample w) /\
  post (time_unix.rcutils_steady_time_now SanityChecksDisabled tid now sample w) /\
  (tv_sec sample * 1000000000 + tv_nsec sample > INT64_MAX ->
   wrap64 (wrap64 (tv_sec sample * 1000000000) + tv_nsec sample)
   <> tv_sec sample * 1000000000 + tv_nsec sample).
Proof.
  intros post. subst post. split_and!.
  1-2: unfold time_unix.rcutils_system_time_now, time_unix.rcutils_steady_time_now,
         RCUTILS_CHECK_ARGUMENT_FOR_NULL;
    cbn [RCUTILS_DISABLE_TIME_SANITY_CHECKS];
    destruct now as [l|];
    [destruct (time_unix.__WOULD_BE_NEGATIVE _ _) eqn:E;
     [apply would_be_negative_spec in E
     |assert (~ negative_sample sample)
        by (rewrite <- would_be_negative_spec; congruence)]|];
    eexists _, _; (split; [reflexivity|]); split_and!; try done;
    try (split; [done|]; intros [? ?]; done);
    try (split; [done|]; by intros [? _]).
  1-2: intros _; exists l; split; [done|]; by split.
  intros Hov.
  pose proof (wrap64_range (wrap64 (tv_sec sample * 1000000000) + tv_nsec sample)) as [_ Hhi].
  lia.
Qed.

Lemma disabled_checks_never_report_overflow_witness :
  wrap64 (wrap64 (9223372037 * 1000000000) + 0) <> 9223372037 * 1000000000 + 0.
Proof.
  apply (proj2 (proj2 (disabled_checks_never_report_overflow 0%nat (Some 7%nat)
                         {| tv_sec := 9223372037; tv_nsec := 0 |} initial_world))).
  by vm_compute.
Defined.

(** C3 (amended).  With sanity checks enabled and a non-null destination, a
    sample whose seconds exceed [INT64_MAX / 1_000_000_000], or whose
    positive remainder does not fit on top of the seconds in nanoseconds,
    makes the steady-time read fail with [RCUTILS_CALCULATION_OVERFLOW] and
    the system-time read fail too; neither writes anything nor changes the
    state. *)
Theorem overflowing_sample_is_refused
    (b : tls_backend) (tid : thread_id) (now : loc) (sample : timespec) (w : world) :
  b <> SanityChecksDisabled ->
  in_int64 (tv_nsec sample) -> overflows sample ->
  time_unix.rcutils_steady_time_now b tid (Some now) sample w
    = Some (RCUTILS_CALCULATION_OVERFLOW, w) /\
  exists r,
    time_unix.rcutils_system_time_now b (Some now) sample w = Some (r, w) /\
    r <> RCUTILS_RET_OK.
Proof.
  intros Hb Hn Hov.
  destruct (overflows_not_negative _ Hn Hov) as [Hpos Hneg].
  apply overflow_happened_spec in Hov; [|done].
  unfold time_unix.rcutils_steady_time_now, time_unix.rcutils_system_time_now,
    RCUTILS_CHECK_ARGUMENT_FOR_NULL.
  destruct (time_unix.__WOULD_BE_NEGATIVE _ _) eqn:E;
    [by apply would_be_negative_spec in E|].
  replace (RCUTILS_DISABLE_TIME_SANITY_CHECKS b) with false by (by destruct b).
  rewrite Hov. split; [done|]. by exists RCUTILS_RET_ERROR.
Qed.

Lemma overflowing_sample_is_refused_witness :
  time_unix.rcutils_steady_time_now NativeThreadLocal 0%nat (Some 7%nat)
    {| tv_sec := 9223372037; tv_nsec := 0 |} initial_world
    = Some (RCUTILS_CALCULATION_OVERFLOW, initial_world) /\
  exists r,
    time_unix.rcutils_system_time_now NativeThreadLocal (Some 7%nat)
      {| tv_sec := 9223372037; tv_nsec := 0 |} initial_world = Some (r, initial_world) /\
    r <> RCUTILS_RET_OK.
Proof.
  apply (overflowing_sample_is_refused NativeThreadLocal 0%nat 7%nat
           {| tv_sec := 9223372037; tv_nsec := 0 |} initial_world).
  - done.
  - by vm_compute.
  - left. by vm_compute.
Defined.

(** C3 as stated fails in a build with [RCUTILS_DISABLE_TIME_SANITY_CHECKS]:
    for seconds [INT64_MAX / 1_000_000_000 + 1] both reads succeed and store
    a wrapped, negative count.  With the checks enabled the unix system-time
    read refuses the same sample with the generic [RCUTILS_RET_ERROR], where
    the unix steady-time read and the win32 system-time read use
    [RCUTILS_CALCULATION_OVERFLOW]. *)
Lemma overflowing_sample_wraps_when_checks_disabled :
  overflows sample_past_the_limit /\
  (exists w',
     time_unix.rcutils_steady_time_now SanityChecksDisabled 0%nat (Some 7%nat)
       sample_past_the_limit initial_world = Some (RCUTILS_RET_OK, w') /\
     mem w' !! 7%nat = Some (-9223372036709551616)) /\
  (exists w',
     time_unix.rcutils_system_time_now SanityChecksDisabled (Some 7%nat)
       sample_past_the_limit initial_world = Some (RCUTILS_RET_OK, w') /\
     mem w' !! 7%nat = Some (-9223372036709551616)) /\
  time_unix.rcutils_system_time_now NativeThreadLocal (Some 7%nat)
    sample_past_the_limit initial_world
  = Some (RCUTILS_RET_ERROR, initial_world).
Proof.
  split_and!.
  - left. by vm_compute.
  - eexists. split; [by vm_compute | by vm_compute].
  - eexists. split; [by vm_compute | by vm_compute].
  - by vm_compute.
Qed.

(** ** Lifecycle hooks *)

Lemma destroy_existing t w p s :
  thread_ok w t ->
  specific w !! t = Some p -> heap w !! p = Some s -> next_ok w ->
  __destroy_last_steady_timestamp_storage t w =
  Some (RCUTILS_RET_OK, released t p (self_allocator s) w).
Proof.
  unfold next_ok. intros Hok Hp Hs Hn.
  destruct (cell_key _ _ Hok _ Hp) as [Ho Hk]. unfold_code_goal.
  rewrite Ho, Hk, Hp. cbn. rewrite Hs. cbn. rewrite Hs. cbn. by rewrite Hn.
Qed.

(** Once the key exists, [fini] on a thread without a cell does nothing. *)
Lemma destroy_none t w :
  __key_init_once w = true -> __make_pthread_keys_ret w = RCUTILS_RET_OK ->
  specific w !! t = None ->
  __destroy_last_steady_timestamp_storage t w = Some (RCUTILS_RET_OK, w).
Proof. intros Ho Hk Hp. unfold_code_goal. by rewrite Ho, Hk, Hp. Qed.

(** Without the key, [fini] reads a key that was never created. *)
Lemma destroy_without_key t w :
  __key_init_once w = false \/ __make_pthread_keys_ret w <> RCUTILS_RET_OK ->
  __destroy_last_steady_timestamp_storage t w = None.
Proof.
  intros H. unfold_code_goal.
  destruct (__key_init_once w); [|done].
  destruct (__make_pthread_keys_ret w); try done. by destruct H.
Qed.


(** C7.  In the pthread case [fini] is not a no-op before the key
    exists (before the first [init] or steady-time read of the process, or
    after a failed key creation): [__destroy_last_steady_timestamp_storage]
    calls [pthread_getspecific] on the key without going through
    [pthread_once], that is on a key that was never created, which is
    undefined.  In the other two build cases the same call returns
    [RCUTILS_RET_OK] and changes nothing. *)
Theorem fini_before_the_key_exists_is_undefined (tid : thread_id) (w : world) :
  __key_init_once w = false \/ __make_pthread_keys_ret w <> RCUTILS_RET_OK ->
  rcutils_steady_time_now_thread_specific_fini ThreadLocalPthread tid w = None /\
  rcutils_steady_time_now_thread_specific_fini NativeThreadLocal tid w
    = Some (RCUTILS_RET_OK, w) /\
  rcutils_steady_time_now_thread_specific_fini SanityChecksDisabled tid w
    = Some (RCUTILS_RET_OK, w).
Proof.
  intros H. split; [|done].
  unfold rcutils_steady_time_now_thread_specific_fini. simpl.
  by apply destroy_without_key.
Qed.

Lemma fini_before_the_key_exists_is_undefined_witness :
  rcutils_steady_time_now_thread_specific_fini ThreadLocalPthread 0%nat initial_world = None /\
  rcutils_steady_time_now_thread_specific_fini NativeThreadLocal 0%nat initial_world
    = Some (RCUTILS_RET_OK, initial_world) /\
  rcutils_steady_time_now_thread_specific_fini SanityChecksDisabled 0%nat initial_world
    = Some (RCUTILS_RET_OK, initial_world).
Proof.
  apply (fini_before_the_key_exists_is_undefined 0%nat initial_world). by left.
Defined.

(** X24.  Once the key exists the lifecycle hooks are idempotent.  [init]
    on a thread whose cell exists returns [RCUTILS_RET_OK] and changes
    nothing (in the pthread case it consumes the result of its
    [pthread_once] call, which has to be a success); after a successful
    [init], a second [init], even with another allocator, is such a no-op.
    Two [fini] calls in a row both return [RCUTILS_RET_OK], the second
    changes nothing, and together they release at most one cell: the
    thread's own, with the allocator stored in it.  [fini] on a thread
    without a cell returns [RCUTILS_RET_OK] and changes nothing.  In the
    pthread case the statements about [fini] need the key to exist, which it
    does whenever the thread has a cell. *)
Theorem lifecycle_hooks_are_idempotent (b : tls_backend) (tid : thread_id) (w : world) :
  thread_ok w tid ->
  (forall allocator,
     (b = ThreadLocalPthread -> is_Some (specific w !! tid) /\ next_ok w) ->
     rcutils_steady_time_now_thread_specific_init b tid allocator w
     = Some (RCUTILS_RET_OK,
             match b with
             | ThreadLocalPthread => set_pending (tail (pending w)) w
             | _ => w
             end)) /\
  (forall allocator allocator',
     (b = ThreadLocalPthread ->
      __make_pthread_keys_ret w = RCUTILS_RET_OK /\ no_faults w) ->
     exists w1,
       rcutils_steady_time_now_thread_specific_init b tid allocator w
         = Some (RCUTILS_RET_OK, w1) /\
       rcutils_steady_time_now_thread_specific_init b tid allocator' w1
         = Some (RCUTILS_RET_OK,
                 match b with
                 | ThreadLocalPthread => set_pending (tail (pending w1)) w1
                 | _ => w1
                 end)) /\
  ((b = ThreadLocalPthread ->
    next_ok w /\ __key_init_once w = true /\ __make_pthread_keys_ret w = RCUTILS_RET_OK) ->
   exists w1,
     rcutils_steady_time_now_thread_specific_fini b tid w = Some (RCUTILS_RET_OK, w1) /\
     rcutils_steady_time_now_thread_specific_fini b tid w1 = Some (RCUTILS_RET_OK, w1) /\
     match b, specific w !! tid with
     | ThreadLocalPthread, Some p =>
         exists s, heap w !! p = Some s /\
                   releases (trace w1) = (self_allocator s, p) :: releases (trace w) /\
                   heap w1 = delete p (heap w) /\ specific w1 = delete tid (specific w)
     | _, _ => w1 = w
     end) /\
  (specific w !! tid = None ->
   (b = ThreadLocalPthread ->
    __key_init_once w = true /\ __make_pthread_keys_ret w = RCUTILS_RET_OK) ->
   rcutils_steady_time_now_thread_specific_fini b tid w = Some (RCUTILS_RET_OK, w)).
Proof.
  intros Hok. unfold rcutils_steady_time_now_thread_specific_init,
    rcutils_steady_time_now_thread_specific_fini. split_and!.
  - intros a Hh. destruct b; try done. simpl.
    destruct (Hh eq_refl) as [[p Hp] Hn]. destruct (cell_key _ _ Hok _ Hp) as [Ho Hk].
    by eapply ensure_existing.
  - intros a a' Hh. destruct b; simpl; try by eexists.
    destruct (Hh eq_refl) as [Hk Hf].
    destruct (ensure_healthy tid a w Hk Hf) as (w1 & He & Hk1 & Ho1 & Hf1 & Hcell).
    exists w1. split; [done|].
    assert (exists p, specific w1 !! tid = Some p) as [p Hp].
    { destruct (specific w !! tid) as [p|] eqn:Hp.
      - destruct Hcell as (-> & _). eauto.
      - destruct Hcell as (-> & _). rewrite lookup_insert_eq. eauto. }
    eapply ensure_existing; try done. by apply Forall_zero_hd.
  - intros Hh. destruct b; simpl; try by eexists.
    destruct (Hh eq_refl) as (Hn & Ho & Hk).
    destruct (specific w !! tid) as [p|] eqn:Hp.
    + destruct (cell_live _ _ Hok _ Hp) as [s Hs].
      exists (released tid p (self_allocator s) w). split_and!.
      * apply destroy_existing; auto.
      * apply destroy_none; try done. simpl. by rewrite lookup_delete_eq.
      * by exists s.
    + exists w. split_and!; try done; by apply destroy_none.
  - intros Hp Hh. destruct b; simpl; try done.
    destruct (Hh eq_refl) as [Ho Hk]. by apply destroy_none.
Qed.

(** A sample that is not below the recorded value is accepted by the unix
    steady-time read. *)
Lemma unix_steady_accept b t l s w :
  thread_ok w t -> ~ negative_sample s -> ~ overflows s ->
  last_recorded b w t <= total_ns s ->
  (b = ThreadLocalPthread -> __make_pthread_keys_ret w = RCUTILS_RET_OK /\ no_faults w) ->
  exists w',
    time_unix.rcutils_steady_time_now b t (Some l) s w = Some (RCUTILS_RET_OK, w') /\
    steady_post b t (Some l) (total_ns s) w RCUTILS_RET_OK w'.
Proof.
  intros Hok Hneg Hov Hle Hh.
  destruct (unix_steady_same b t (Some l) s w Hok) as (r & w' & Hrun & Hpost).
  enough (r = RCUTILS_RET_OK) as -> by eauto.
  revert Hrun. unfold time_unix.rcutils_steady_time_now, RCUTILS_CHECK_ARGUMENT_FOR_NULL.
  fold (total_ns s).
  destruct (time_unix.__WOULD_BE_NEGATIVE _ _) eqn:E;
    [by apply would_be_negative_spec in E|].
  destruct (RCUTILS_DISABLE_TIME_SANITY_CHECKS b); [by intros [= <- _]|].
  assert (0 <= tv_sec s) as Hs by (unfold negative_sample in Hneg; lia).
  destruct (_ || _) eqn:E'; [by apply overflow_happened_spec in E'|].
  destruct (check_accept b t (total_ns s) w Hok Hle Hh) as (w2 & Hc & _).
  rewrite (bind_run _ _ _ _ _ Hc). by intros [= <- _].
Qed.




(** ** Initialization failures in the pthread case *)

Lemma thread_ok_set_pending l w t : thread_ok w t -> thread_ok (set_pending l w) t.
Proof. intros []. by split. Qed.

(** Once key creation has failed, [__ensure_last_steady_timestamp_storage]
    only hands out the stored code again. *)
Lemma ensure_latched t a w :
  __key_init_once w = true -> __make_pthread_keys_ret w <> RCUTILS_RET_OK ->
  exists r,
    __ensure_last_steady_timestamp_storage t a w
      = Some (r, set_pending (tail (pending w)) w) /\
    r <> RCUTILS_RET_OK /\
    (next_ok w -> r = __make_pthread_keys_ret w).
Proof.
  unfold next_ok. intros Ho Hk. unfold_code_goal.
  destruct (hd 0 (pending w) =? 0) eqn:E0.
  - cbn. rewrite Ho. cbn. destruct (__make_pthread_keys_ret w) eqn:Hr; try done;
      eexists; (split; [reflexivity|]); by split.
  - cbn. rewrite E0. apply Z.eqb_neq in E0. destruct (hd 0 (pending w) =? EINVAL);
      eexists; (split; [reflexivity|]); by split.
Qed.

Lemma cons_app_neq {A} (x : A) (pre l : list A) : l <> x :: pre ++ l.
Proof.
  intros H. apply (f_equal length) in H. simpl in H. rewrite length_app in H. lia.
Qed.

(** What the events of a call say about a failed initialization. *)
Lemma ensure_failure_kind t a w r w' :
  __ensure_last_steady_timestamp_storage t a w = Some (r, w') ->
  (forall pre, trace w' = EvAllocate a None :: pre ++ trace w ->
     r = RCUTILS_RET_BAD_ALLOC /\ __make_pthread_keys_ret w' = RCUTILS_RET_OK /\
     __key_init_once w' = true /\ specific w' = specific w /\ heap w' = heap w) /\
  (forall e, e <> 0 -> trace w' = EvKeyCreate e :: trace w ->
     r <> RCUTILS_RET_OK /\ r = __make_pthread_keys_ret w' /\ __key_init_once w' = true /\
     (e = ENOMEM -> r = RCUTILS_RET_BAD_ALLOC) /\
     (e = EAGAIN -> r = RCUTILS_RET_ERROR) /\
     specific w' = specific w /\ heap w' = heap w).
Proof.
  intros H. unfold_code H. paths.
  all: split; [intros pre Htr | intros e He Htr]; simpl in Htr.
  all: try (exfalso; exact (cons_app_neq _ _ _ Htr)).
  all: try (exfalso; exact (cons_app_neq _ [] _ Htr)).
  all: try discriminate.
  all: try (injection Htr as <-).
  all: repeat match goal with
       | H : (_ =? _) = true |- _ => apply Z.eqb_eq in H
       | H : (_ =? _) = false |- _ => apply Z.eqb_neq in H
       end.
  all: unfold EAGAIN, ENOMEM, EINVAL in *.
  all: try lia.
  all: split_and!; try done; try (intros; exfalso; lia).
Qed.

(** Once key creation has failed, a steady-time read cannot succeed and
    leaves no event. *)
Lemma unix_steady_latched t now s w :
  __key_init_once w = true -> __make_pthread_keys_ret w <> RCUTILS_RET_OK ->
  exists r w',
    time_unix.rcutils_steady_time_now ThreadLocalPthread t now s w = Some (r, w') /\
    r <> RCUTILS_RET_OK /\ trace w' = trace w /\ specific w' = specific w /\
    heap w' = heap w.
Proof.
  intros Ho Hk. unfold time_unix.rcutils_steady_time_now, RCUTILS_CHECK_ARGUMENT_FOR_NULL.
  destruct now as [l|]; [|by eexists _, _].
  destruct (time_unix.__WOULD_BE_NEGATIVE _ _); [by eexists _, _|].
  cbn [RCUTILS_DISABLE_TIME_SANITY_CHECKS].
  destruct (_ || _); [by eexists _, _|].
  destruct (ensure_latched t rcutils_get_default_allocator w Ho Hk) as (r & He & Hr & _).
  assert (Hg : __rcutils_time_common_get_last_steady_timestamp_thread_local
                 ThreadLocalPthread t w = Some ((r, 0), set_pending (tail (pending w)) w)).
  { simpl. rewrite (bind_run _ _ _ _ _ He). by destruct r. }
  assert (Hc : forall c, __rcutils_check_steady_time_monotonicity_thread_local
                 ThreadLocalPthread t c w = Some (r, set_pending (tail (pending w)) w)).
  { intros c. unfold __rcutils_check_steady_time_monotonicity_thread_local.
    rewrite (bind_run _ _ _ _ _ Hg). by destruct r. }
  rewrite (bind_run _ _ _ _ _ (Hc _)).
  destruct r; try done; by eexists _, _.
Qed.

(** C6 (amended).  In the pthread case, on a thread without a cell:
    [init] returns, and whenever it fails the thread still has no cell.
    If the failure is a failed allocation, the key stays usable and a later
    [init] or steady-time read under a cooperative environment allocates the
    cell and succeeds.  If the failure is a failed key creation (resource
    exhaustion gives [RCUTILS_RET_ERROR], lack of memory
    [RCUTILS_RET_BAD_ALLOC]), the code is kept in
    [__make_pthread_keys_ret]: every later [init] or steady-time read fails,
    whatever the environment would do, without creating a key or allocating
    again. *)
Theorem init_failure_leaves_thread_unset
    (tid : thread_id) (allocator : rcutils_allocator_t) (w : world) :
  thread_ok w tid -> specific w !! tid = None ->
  exists r w',
    rcutils_steady_time_now_thread_specific_init ThreadLocalPthread tid allocator w
      = Some (r, w') /\
    (r <> RCUTILS_RET_OK -> specific w' !! tid = None) /\
    (forall pre, trace w' = EvAllocate allocator None :: pre ++ trace w ->
       r = RCUTILS_RET_BAD_ALLOC /\ __make_pthread_keys_ret w' = RCUTILS_RET_OK) /\
    (forall e, e <> 0 -> trace w' = EvKeyCreate e :: trace w ->
       r <> RCUTILS_RET_OK /\ r = __make_pthread_keys_ret w' /\ __key_init_once w' = true /\
       (e = ENOMEM -> r = RCUTILS_RET_BAD_ALLOC) /\
       (e = EAGAIN -> r = RCUTILS_RET_ERROR)) /\
    (r <> RCUTILS_RET_OK -> __make_pthread_keys_ret w' = RCUTILS_RET_OK ->
     forall env, Forall (fun x => x = 0) env ->
       (forall allocator', exists w2 q,
          rcutils_steady_time_now_thread_specific_init ThreadLocalPthread tid allocator'
            (set_pending env w') = Some (RCUTILS_RET_OK, w2) /\
          specific w2 !! tid = Some q /\
          heap w2 !! q = Some {| timestamp := INT64_MIN; self_allocator := allocator' |}) /\
       (forall now sample, ~ negative_sample sample -> ~ overflows sample ->
          exists w2 q,
            time_unix.rcutils_steady_time_now ThreadLocalPthread tid (Some now) sample
              (set_pending env w') = Some (RCUTILS_RET_OK, w2) /\
            specific w2 !! tid = Some q)) /\
    (__key_init_once w' = true -> __make_pthread_keys_ret w' <> RCUTILS_RET_OK ->
     forall env,
       (forall allocator', exists r2,
          rcutils_steady_time_now_thread_specific_init ThreadLocalPthread tid allocator'
            (set_pending env w') = Some (r2, set_pending (tail env) w') /\
          r2 <> RCUTILS_RET_OK) /\
       (forall now sample, exists r2 w2,
          time_unix.rcutils_steady_time_now ThreadLocalPthread tid now sample
            (set_pending env w') = Some (r2, w2) /\
          r2 <> RCUTILS_RET_OK /\ trace w2 = trace w' /\
          specific w2 = specific w' /\ heap w2 = heap w')).
Proof.
  intros Hok Hp. unfold rcutils_steady_time_now_thread_specific_init. simpl.
  destruct (ensure_total tid allocator w) as (r & w' & He).
  destruct (ensure_cell _ _ _ _ _ He) as (_ & _ & _ & Hcell). rewrite Hp in Hcell.
  destruct Hcell as [Hunset _].
  destruct (ensure_failure_kind _ _ _ _ _ He) as [Halloc Hkey].
  destruct (ensure_ok _ _ _ _ _ Hok He) as [Hok' _].
  exists r, w'. split_and!; try done.
  - intros pre Htr. by destruct (Halloc pre Htr) as (? & ? & _).
  - intros e He0 Htr. by destruct (Hkey e He0 Htr) as (? & ? & ? & ? & ? & _).
  - intros Hr Hk env Henv. specialize (Hunset Hr).
    assert (Hok2 : thread_ok (set_pending env w') tid) by by apply thread_ok_set_pending.
    split.
    + intros a'. destruct (ensure_healthy tid a' (set_pending env w') Hk Henv)
        as (w2 & He2 & _ & _ & _ & Hcell).
      simpl in Hcell. rewrite Hunset in Hcell. destruct Hcell as (Hsp & Hh & _).
      exists w2, (brk w'). split_and!; try done.
      * by rewrite Hsp, lookup_insert_eq.
      * by rewrite Hh, lookup_insert_eq.
    + intros l s Hneg Hov.
      pose proof (wrap64_range (RCUTILS_S_TO_NS (tv_sec s) + tv_nsec s)) as [Hlo _].
      fold (total_ns s) in Hlo.
      destruct (unix_steady_accept ThreadLocalPthread tid l s (set_pending env w') Hok2
                  Hneg Hov) as (w2 & Hrun & Hok3).
      { simpl. rewrite Hunset. lia. }
      { done. }
      destruct Hok3 as (_ & _ & _ & _ & _ & [q Hq]); [done..|].
      by exists w2, q.
  - intros Ho Hk env. split.
    + intros a'. destruct (ensure_latched tid a' (set_pending env w') Ho Hk) as (r2 & ? & ? & _).
      by exists r2.
    + intros now s.
      destruct (unix_steady_latched tid now s (set_pending env w') Ho Hk)
        as (r2 & w2 & ? & ? & ? & ? & ?).
      by exists r2, w2.
Qed.

(** C6 as stated fails for key creation: after [pthread_key_create] has
    failed once, a later [init] or steady-time read does not try again, even
    though the environment would now let every call succeed. *)
Lemma key_creation_failure_is_never_retried :
  rcutils_steady_time_now_thread_specific_init ThreadLocalPthread 0%nat
    rcutils_get_default_allocator world_key_creation_fails
    = Some (RCUTILS_RET_BAD_ALLOC, world_after_failed_key_creation) /\
  pending world_after_failed_key_creation = [] /\
  trace world_after_failed_key_creation = [EvKeyCreate ENOMEM] /\
  specific world_after_failed_key_creation !! 0%nat = None /\
  rcutils_steady_time_now_thread_specific_init ThreadLocalPthread 0%nat
    rcutils_get_default_allocator world_after_failed_key_creation
    = Some (RCUTILS_RET_BAD_ALLOC, world_after_failed_key_creation) /\
  time_unix.rcutils_steady_time_now ThreadLocalPthread 0%nat (Some 7%nat)
    {| tv_sec := 1; tv_nsec := 0 |} world_after_failed_key_creation
    = Some (RCUTILS_RET_BAD_ALLOC, world_after_failed_key_creation).
Proof. split_and!; by vm_compute. Qed.

Lemma init_failure_leaves_thread_unset_witness :
  exists r w',
    rcutils_steady_time_now_thread_specific_init ThreadLocalPthread 0%nat
      rcutils_get_default_allocator (set_pending [0; 0; ENOMEM] initial_world)
      = Some (r, w') /\
    r = RCUTILS_RET_BAD_ALLOC /\ specific w' !! 0%nat = None.
Proof.
  destruct (init_failure_leaves_thread_unset 0%nat rcutils_get_default_allocator
              (set_pending [0; 0; ENOMEM] initial_world)
              (thread_ok_set_pending _ _ _ (thread_ok_initial _)) eq_refl)
    as (r & w' & Hrun & Hunset & _).
  exists r, w'. split; [done|].
  assert (r = RCUTILS_RET_BAD_ALLOC) as -> by (vm_compute in Hrun; congruence).
  split; [done|]. by apply Hunset.
Defined.

Lemma lifecycle_hooks_are_idempotent_witness :
  exists w1,
    rcutils_steady_time_now_thread_specific_fini ThreadLocalPthread 0%nat
      world_after_first_check = Some (RCUTILS_RET_OK, w1) /\
    rcutils_steady_time_now_thread_specific_fini ThreadLocalPthread 0%nat w1
      = Some (RCUTILS_RET_OK, w1) /\
    releases (trace w1) = [(rcutils_get_default_allocator, 1%nat)].
Proof.
  destruct (proj1 (proj2 (proj2 (lifecycle_hooks_are_idempotent ThreadLocalPthread 0%nat
              world_after_first_check thread_ok_after_first_check))))
    as (w1 & H1 & H2 & H3).
  - intros _. by vm_compute.
  - exists w1. split; [done|]. split; [done|].
    vm_compute in H1. injection H1 as <-. by vm_compute.
Defined.

(** * Further properties *)

(** ** The arithmetic of the clock reads *)

(** A normalized sample ([0 <= tv_nsec < 10^9]) is classified by its true
    nanosecond count, and an accepted one is converted without wrap-around. *)
Lemma normalized_sample s :
  0 <= tv_nsec s < 1000000000 ->
  (negative_sample s <-> tv_sec s * 1000000000 + tv_nsec s < 0) /\
  (0 <= tv_sec s -> overflows s <-> INT64_MAX < tv_sec s * 1000000000 + tv_nsec s) /\
  (0 <= tv_sec s * 1000000000 + tv_nsec s <= INT64_MAX ->
   total_ns s = tv_sec s * 1000000000 + tv_nsec s).
Proof.
  intros Hn. unfold negative_sample, overflows, total_ns, RCUTILS_S_TO_NS.
  change (INT64_MAX / 1000000000) with 9223372036.
  change (1000 * 1000 * 1000) with 1000000000.
  unfold INT64_MAX. split_and!.
  - lia.
  - lia.
  - intros HT. rewrite (wrap64_id (tv_sec s * _)), wrap64_id;
      unfold in_int64, INT64_MIN, INT64_MAX; lia.
Qed.

Lemma unix_checks_normalized s :
  0 <= tv_nsec s < 1000000000 ->
  let overflow_happened :=
    (tv_sec s >? Z.quot INT64_MAX 1000000000)
    || ((tv_nsec s >? 0) && (RCUTILS_S_TO_NS (tv_sec s) >? INT64_MAX - tv_nsec s)) in
  let T := tv_sec s * 1000000000 + tv_nsec s in
  (T < 0 -> time_unix.__WOULD_BE_NEGATIVE (tv_sec s) (tv_nsec s) = true) /\
  (0 <= T -> time_unix.__WOULD_BE_NEGATIVE (tv_sec s) (tv_nsec s) = false) /\
  (INT64_MAX < T -> overflow_happened = true) /\
  (0 <= T <= INT64_MAX -> overflow_happened = false /\ total_ns s = T).
Proof.
  intros Hn. cbv zeta. destruct (normalized_sample s Hn) as (Hneg & Hov & Hexact).
  split_and!.
  - intros HT. apply would_be_negative_spec. tauto.
  - intros HT. apply not_true_is_false. rewrite would_be_negative_spec, Hneg. lia.
  - intros HT. apply overflow_happened_spec; [|apply Hov]; unfold INT64_MAX in *; lia.
  - intros HT. split; [|auto]. apply not_true_is_false.
    assert (0 <= tv_sec s) by lia. rewrite overflow_happened_spec, Hov by done. lia.
Qed.

(** X1.  With sanity checks enabled and a normalized sample
    ([0 <= tv_nsec < 10^9]), the unix [rcutils_system_time_now] stores
    exactly [tv_sec * 10^9 + tv_nsec], without wrap-around, whenever that
    count lies in [0, INT64_MAX]; for every other count it returns
    [RCUTILS_RET_ERROR] and changes nothing. *)
Theorem unix_system_time_is_exact (b : tls_backend) (l : loc) (s : timespec) (w : world) :
  b <> SanityChecksDisabled ->
  0 <= tv_nsec s < 1000000000 ->
  time_unix.rcutils_system_time_now b (Some l) s w =
  let T := tv_sec s * 1000000000 + tv_nsec s in
  if decide (0 <= T <= INT64_MAX)
  then Some (RCUTILS_RET_OK, log (EvStoreNow l T) (set_mem <[l := T]> w))
  else Some (RCUTILS_RET_ERROR, w).
Proof.
  intros Hb Hn. cbv zeta.
  destruct (unix_checks_normalized s Hn) as (Hneg & Hpos & Hov & Hfit).
  unfold time_unix.rcutils_system_time_now, RCUTILS_CHECK_ARGUMENT_FOR_NULL.
  fold (total_ns s).
  replace (RCUTILS_DISABLE_TIME_SANITY_CHECKS b) with false by (by destruct b).
  destruct (decide (0 <= _ <= INT64_MAX)) as [HT|HT].
  - rewrite Hpos by lia. destruct (Hfit HT) as [-> ->]. done.
  - destruct (decide (tv_sec s * 1000000000 + tv_nsec s < 0)) as [Hlt|Hge].
    + by rewrite Hneg.
    + rewrite Hpos, Hov by lia. done.
Qed.

Lemma unix_system_time_is_exact_witness :
  time_unix.rcutils_system_time_now NativeThreadLocal (Some 7%nat)
    {| tv_sec := 5; tv_nsec := 100 |} initial_world =
  Some (RCUTILS_RET_OK,
        log (EvStoreNow 7%nat 5000000100) (set_mem <[7%nat := 5000000100]> initial_world)).
Proof.
  apply (unix_system_time_is_exact NativeThreadLocal 7%nat
           {| tv_sec := 5; tv_nsec := 100 |} initial_world); [done | simpl; lia].
Defined.

(** X2.  With sanity checks enabled and a normalized sample, the unix
    [rcutils_steady_time_now] returns [RCUTILS_RET_ERROR] for a negative
    count, [RCUTILS_CALCULATION_OVERFLOW] for a count above [INT64_MAX]
    (changing nothing in both cases), and otherwise hands exactly
    [tv_sec * 10^9 + tv_nsec] to the monotonicity check and, if that
    accepts, stores exactly this count. *)
Theorem unix_steady_time_is_exact
    (b : tls_backend) (tid : thread_id) (l : loc) (s : timespec) (w : world) :
  b <> SanityChecksDisabled ->
  0 <= tv_nsec s < 1000000000 ->
  time_unix.rcutils_steady_time_now b tid (Some l) s w =
  let T := tv_sec s * 1000000000 + tv_nsec s in
  if decide (T < 0) then Some (RCUTILS_RET_ERROR, w)
  else if decide (INT64_MAX < T) then Some (RCUTILS_CALCULATION_OVERFLOW, w)
  else (r <- __rcutils_check_steady_time_monotonicity_thread_local b tid T ;;
        match r with
        | RCUTILS_RET_OK => store_now l T ;;; ret RCUTILS_RET_OK
        | _ => ret r
        end) w.
Proof.
  intros Hb Hn. cbv zeta.
  destruct (unix_checks_normalized s Hn) as (Hneg & Hpos & Hov & Hfit).
  unfold time_unix.rcutils_steady_time_now, RCUTILS_CHECK_ARGUMENT_FOR_NULL.
  fold (total_ns s).
  replace (RCUTILS_DISABLE_TIME_SANITY_CHECKS b) with false by (by destruct b).
  destruct (decide (_ < 0)) as [Hlt|Hge]; [by rewrite Hneg|].
  rewrite Hpos by lia.
  destruct (decide (INT64_MAX < _)) as [Hgt|Hle]; [by rewrite Hov|].
  destruct (Hfit ltac:(lia)) as [-> ->]. done.
Qed.

Lemma unix_steady_time_is_exact_witness :
  time_unix.rcutils_steady_time_now NativeThreadLocal 0%nat (Some 7%nat)
    sample_past_the_limit initial_world =
  Some (RCUTILS_CALCULATION_OVERFLOW, initial_world).
Proof.
  apply (unix_steady_time_is_exact NativeThreadLocal 0%nat 7%nat
           sample_past_the_limit initial_world); [done | simpl; lia].
Defined.

Lemma lor_shiftl_32 (h lo : Z) :
  0 <= lo < 2 ^ 32 -> Z.lor (Z.shiftl h 32) lo = h * 2 ^ 32 + lo.
Proof.
  intros Hlo. rewrite Z.shiftl_mul_pow2 by lia.
  assert (Hland : Z.land (h * 2 ^ 32) lo = 0).
  { apply Z.bits_inj'. intros n Hn. rewrite Z.land_spec, Z.bits_0.
    destruct (Z.lt_ge_cases n 32) as [Hlt|Hge].
    - by rewrite Z.mul_pow2_bits_low.
    - rewrite <- (Z.mod_small lo (2 ^ 32)) by done.
      rewrite Z.mod_pow2_bits_high by lia. apply andb_false_r. }
  by rewrite <- Z.lxor_lor, <- Z.add_nocarry_lxor.
Qed.

(** X3.  For a [FILETIME] before the year 30828 (high word below [2^31]),
    the win32 [rcutils_system_time_now] works on the count [q] of 100 ns
    intervals since the Unix epoch: above [INT64_MAX / 100] it returns
    [RCUTILS_CALCULATION_OVERFLOW] and changes nothing; from
    [-(INT64_MAX / 100)] on it stores exactly [100 * q], negative for a date
    before 1970, which it does not refuse; below that, the multiplication
    wraps around and it stores [100 * q + 2^64] with [RCUTILS_RET_OK]. *)
Theorem win32_system_time_is_exact (l : loc) (ft : time_win32.FILETIME) (w : world) :
  0 <= time_win32.dwLowDateTime ft < 2 ^ 32 ->
  0 <= time_win32.dwHighDateTime ft < 2 ^ 31 ->
  time_win32.rcutils_system_time_now (Some l) ft w =
  let q := filetime_ticks ft - 116444736000000000 in
  if decide (92233720368547758 < q) then Some (RCUTILS_CALCULATION_OVERFLOW, w)
  else
    let v := if decide (-92233720368547758 <= q) then q * 100 else q * 100 + 2 ^ 64 in
    Some (RCUTILS_RET_OK, log (EvStoreNow l v) (set_mem <[l := v]> w)).
Proof.
  intros Hlo Hhi. cbv zeta.
  unfold time_win32.rcutils_system_time_now, RCUTILS_CHECK_ARGUMENT_FOR_NULL,
    time_win32.QuadPart_of, filetime_ticks.
  rewrite lor_shiftl_32 by done.
  set (ticks := time_win32.dwHighDateTime ft * 2 ^ 32 + time_win32.dwLowDateTime ft).
  assert (0 <= ticks < 2 ^ 63) as Hticks by (unfold ticks; lia).
  rewrite (wrap64_id ticks) by (unfold in_int64, INT64_MIN, INT64_MAX; lia).
  rewrite (wrap64_id (ticks - _)) by (unfold in_int64, INT64_MIN, INT64_MAX; lia).
  change (Z.quot INT64_MAX 100) with 92233720368547758.
  destruct (Z.gtb_spec (ticks - 116444736000000000) 92233720368547758) as [Hgt|Hle].
  { by rewrite decide_True by lia. }
  rewrite decide_False by lia.
  destruct (decide (-92233720368547758 <= _)) as [Hin|Hout].
  - rewrite wrap64_id by (unfold in_int64, INT64_MIN, INT64_MAX; lia). done.
  - replace (wrap64 ((ticks - 116444736000000000) * 100))
      with ((ticks - 116444736000000000) * 100 + 2 ^ 64); [done|].
    unfold wrap64. symmetry.
    rewrite <- (Z.mod_unique_pos _ (2 ^ 64) (-1)
                  ((ticks - 116444736000000000) * 100 + 2 ^ 63 + 2 ^ 64)); lia.
Qed.

Lemma win32_system_time_is_exact_witness :
  time_win32.rcutils_system_time_now (Some 7%nat)
    {| time_win32.dwLowDateTime := 0; time_win32.dwHighDateTime := 0 |} initial_world =
  Some (RCUTILS_RET_OK,
        log (EvStoreNow 7%nat 6802270473709551616)
          (set_mem <[7%nat := 6802270473709551616]> initial_world)).
Proof.
  apply (win32_system_time_is_exact 7%nat
           {| time_win32.dwLowDateTime := 0; time_win32.dwHighDateTime := 0 |}
           initial_world); simpl; lia.
Defined.

(** The nanosecond count of the win32 steady-time read, for a counter that
    is not negative and a frequency of at most [INT64_MAX / 10^9 + 1] ticks
    per second. *)
Lemma win32_total_ns_exact (f c : Z) :
  0 < f <= 9223372037 -> 0 <= c <= INT64_MAX ->
  let T := c * 1000000000 / f in
  let remainder_count := Z.rem c f in
  let whole_seconds := Z.quot c f in
  let remainder_ns := Z.quot (RCUTILS_S_TO_NS remainder_count) f in
  0 <= T /\
  (remainder_count >? Z.quot INT64_MAX 1000000000) = false /\
  (INT64_MAX < T ->
   (whole_seconds >? Z.quot INT64_MAX 1000000000) = true \/
   (remainder_ns >? 0) && (RCUTILS_S_TO_NS whole_seconds >? INT64_MAX - remainder_ns) = true) /\
  (T <= INT64_MAX ->
   (whole_seconds >? Z.quot INT64_MAX 1000000000) = false /\
   (remainder_ns >? 0) && (RCUTILS_S_TO_NS whole_seconds >? INT64_MAX - remainder_ns) = false /\
   win32_total_ns f c = T).
Proof.
  intros Hf Hc. cbv zeta. unfold win32_total_ns, RCUTILS_S_TO_NS.
  change (Z.quot INT64_MAX 1000000000) with 9223372036.
  change (1000 * 1000 * 1000) with 1000000000.
  rewrite Z.quot_div_nonneg, Z.rem_mod_nonneg by lia.
  pose proof (Z.div_mod c f ltac:(lia)) as Hdm.
  pose proof (Z.mod_pos_bound c f ltac:(lia)) as Hr.
  assert (0 <= c / f) as Hq by (apply Z.div_pos; lia).
  set (q := c / f) in *. set (r := c mod f) in *.
  rewrite (wrap64_id (r * _)) by (unfold in_int64, INT64_MIN, INT64_MAX; lia).
  rewrite (Z.quot_div_nonneg (r * _)) by lia.
  assert (0 <= r * 1000000000 / f) as Hrn by (apply Z.div_pos; lia).
  assert (c * 1000000000 / f = q * 1000000000 + r * 1000000000 / f) as ->.
  { rewrite Hdm. replace ((f * q + r) * 1000000000) with (q * 1000000000 * f + r * 1000000000)
      by lia. rewrite Z.div_add_l by lia. done. }
  set (rn := r * 1000000000 / f) in *.
  unfold INT64_MAX in *. split_and!.
  - lia.
  - lia.
  - intros HT. destruct (Z.gtb_spec q 9223372036) as [|Hq']; [by left|right].
    rewrite (wrap64_id (q * _)) by (unfold in_int64, INT64_MIN, INT64_MAX; lia).
    apply andb_true_iff. rewrite !Z.gtb_gt. lia.
  - intros HT. assert (q <= 9223372036) by lia.
    rewrite (wrap64_id (q * _)) by (unfold in_int64, INT64_MIN, INT64_MAX; lia).
    split_and!.
    + lia.
    + apply andb_false_iff. rewrite !Z.gtb_ltb, !Z.ltb_ge. lia.
    + apply wrap64_id. unfold in_int64, INT64_MIN, INT64_MAX. lia.
Qed.

(** X4.  With sanity checks enabled, a counter that is not negative and a
    frequency of at most [INT64_MAX / 10^9 + 1] ticks per second, the win32
    [rcutils_steady_time_now] works on exactly
    [performance_count * 10^9 / cpu_frequency] (rounded down), which the
    split into whole seconds and remainder computes without intermediate
    overflow: above [INT64_MAX] it returns [RCUTILS_CALCULATION_OVERFLOW]
    and changes nothing, otherwise it hands this count to the monotonicity
    check and, if that accepts, stores it. *)
Theorem win32_steady_time_is_exact
    (b : tls_backend) (tid : thread_id) (l : loc) (f c : Z) (w : world) :
  b <> SanityChecksDisabled ->
  0 < f <= 9223372037 -> 0 <= c <= INT64_MAX ->
  time_win32.rcutils_steady_time_now b tid (Some l) f c w =
  let T := c * 1000000000 / f in
  if decide (INT64_MAX < T) then Some (RCUTILS_CALCULATION_OVERFLOW, w)
  else (r <- __rcutils_check_steady_time_monotonicity_thread_local b tid T ;;
        match r with
        | RCUTILS_RET_OK => store_now l T ;;; ret RCUTILS_RET_OK
        | _ => ret r
        end) w.
Proof.
  intros Hb Hf Hc. cbv zeta.
  destruct (win32_total_ns_exact f c Hf Hc) as (_ & Hrem & Hbig & Hfit).
  unfold time_win32.rcutils_steady_time_now, RCUTILS_CHECK_ARGUMENT_FOR_NULL.
  fold (win32_total_ns f c).
  replace ((f =? 0) || (f =? -1) && (c =? INT64_MIN)) with false.
  2:{ symmetry. apply orb_false_iff. split; [apply Z.eqb_neq; lia|].
      apply andb_false_iff. left. apply Z.eqb_neq. lia. }
  replace (RCUTILS_DISABLE_TIME_SANITY_CHECKS b) with false by (by destruct b).
  rewrite Hrem.
  destruct (decide (INT64_MAX < _)) as [Hgt|Hle].
  - destruct (Hbig Hgt) as [E|E]; rewrite E.
    + reflexivity.
    + destruct (Z.quot c f >? _); reflexivity.
  - destruct (Hfit ltac:(lia)) as (-> & -> & ->). done.
Qed.

Lemma win32_steady_time_is_exact_witness :
  time_win32.rcutils_steady_time_now NativeThreadLocal 0%nat (Some 7%nat)
    10000000 25000001 initial_world =
  Some (RCUTILS_RET_OK,
        log (EvStoreNow 7%nat 2500000100)
          (set_mem <[7%nat := 2500000100]>
             (set_tls <[0%nat := 2500000100]> initial_world))).
Proof.
  apply (win32_steady_time_is_exact NativeThreadLocal 0%nat 7%nat 10000000 25000001
           initial_world); [done | lia | unfold INT64_MAX; lia].
Defined.

Lemma win32_returns_defined b t l f c w r w' :
  time_win32.rcutils_steady_time_now b t (Some l) f c w = Some (r, w') ->
  win32_defined f c.
Proof.
  unfold time_win32.rcutils_steady_time_now, RCUTILS_CHECK_ARGUMENT_FOR_NULL, win32_defined.
  destruct ((f =? 0) || (f =? -1) && (c =? INT64_MIN)) eqn:E; [done|]. intros _.
  apply orb_false_iff in E as [E1 E2]. apply Z.eqb_neq in E1.
  apply andb_false_iff in E2. split; [done|]. intros [-> ->]. by destruct E2.
Qed.

(** X5.  With sanity checks enabled, two successful win32
    [rcutils_steady_time_now] calls made one after the other by a thread
    store values that do not decrease, whatever counter and frequency the
    system reported. *)
Theorem win32_steady_reads_are_ordered
    (b : tls_backend) (tid : thread_id) (l1 l2 : loc) (f1 c1 f2 c2 : Z) (w w1 w2 : world) :
  b <> SanityChecksDisabled -> thread_ok w tid ->
  time_win32.rcutils_steady_time_now b tid (Some l1) f1 c1 w = Some (RCUTILS_RET_OK, w1) ->
  time_win32.rcutils_steady_time_now b tid (Some l2) f2 c2 w1 = Some (RCUTILS_RET_OK, w2) ->
  exists v1 v2,
    mem w1 !! l1 = Some v1 /\ mem w2 !! l2 = Some v2 /\ v1 <= v2 /\
    v1 = win32_total_ns f1 c1 /\ v2 = win32_total_ns f2 c2.
Proof.
  intros Hb Hok H1 H2.
  destruct (win32_steady_same b tid (Some l1) f1 c1 w Hok (win32_returns_defined _ _ _ _ _ _ _ _ H1))
    as (r & w' & Hrun & Hok1 & _ & Hacc1 & _).
  rewrite H1 in Hrun. injection Hrun as <- <-.
  destruct (Hacc1 eq_refl) as (l & [= <-] & [Hm1 _] & Hv1).
  destruct (Hv1 Hb) as [_ Hlast1].
  destruct (win32_steady_same b tid (Some l2) f2 c2 w1 Hok1 (win32_returns_defined _ _ _ _ _ _ _ _ H2))
    as (r & w' & Hrun & _ & _ & Hacc2 & _).
  rewrite H2 in Hrun. injection Hrun as <- <-.
  destruct (Hacc2 eq_refl) as (l & [= <-] & [Hm2 _] & Hv2).
  destruct (Hv2 Hb) as [Hle _].
  eexists _, _. split_and!; [| | |reflexivity|reflexivity].
  - by rewrite Hm1, lookup_insert_eq.
  - by rewrite Hm2, lookup_insert_eq.
  - lia.
Qed.

Lemma win32_steady_reads_are_ordered_witness :
  exists v1 v2,
    mem (log (EvStoreNow 7%nat 2500000100)
           (set_mem <[7%nat := 2500000100]>
              (set_tls <[0%nat := 2500000100]> initial_world))) !! 7%nat = Some v1 /\
    mem (log (EvStoreNow 8%nat 2500000100)
           (set_mem <[8%nat := 2500000100]>
              (set_tls <[0%nat := 2500000100]>
                 (log (EvStoreNow 7%nat 2500000100)
                    (set_mem <[7%nat := 2500000100]>
                       (set_tls <[0%nat := 2500000100]> initial_world)))))) !! 8%nat
      = Some v2 /\
    v1 <= v2 /\
    v1 = win32_total_ns 10000000 25000001 /\ v2 = win32_total_ns 10000000 25000001.
Proof.
  apply (win32_steady_reads_are_ordered NativeThreadLocal 0%nat 7%nat 8%nat
           10000000 25000001 10000000 25000001 initial_world).
  - done.
  - apply thread_ok_initial.
  - reflexivity.
  - reflexivity.
Defined.

(** ** The conversion macros of [rcutils/time.h] *)

Lemma quot_mul_cancel (x k : Z) : 0 < k -> Z.quot (x * k) k = x.
Proof. intros Hk. apply Z.quot_mul. lia. Qed.

(** X6.  Converting a count of seconds, milliseconds or microseconds to
    nanoseconds and back gives the count again, as long as the nanosecond
    value fits [int64_t] (up to [INT64_MAX / 10^9] seconds,
    [INT64_MAX / 10^6] milliseconds, [INT64_MAX / 10^3] microseconds, of
    either sign). *)
Theorem time_conversions_round_trip (s ms us : Z) :
  -9223372036 <= s <= 9223372036 ->
  -9223372036854 <= ms <= 9223372036854 ->
  -9223372036854775 <= us <= 9223372036854775 ->
  RCUTILS_NS_TO_S (RCUTILS_S_TO_NS s) = s /\
  RCUTILS_NS_TO_MS (RCUTILS_MS_TO_NS ms) = ms /\
  RCUTILS_NS_TO_US (RCUTILS_US_TO_NS us) = us.
Proof.
  intros Hs Hms Hus.
  unfold RCUTILS_NS_TO_S, RCUTILS_NS_TO_MS, RCUTILS_NS_TO_US,
    RCUTILS_S_TO_NS, RCUTILS_MS_TO_NS, RCUTILS_US_TO_NS.
  change (1000 * 1000 * 1000) with 1000000000. change (1000 * 1000) with 1000000.
  rewrite !wrap64_id by (unfold in_int64, INT64_MIN, INT64_MAX; lia).
  rewrite !quot_mul_cancel by lia. done.
Qed.

Lemma time_conversions_round_trip_witness :
  RCUTILS_NS_TO_S (RCUTILS_S_TO_NS (-3)) = -3 /\
  RCUTILS_NS_TO_MS (RCUTILS_MS_TO_NS 1500) = 1500 /\
  RCUTILS_NS_TO_US (RCUTILS_US_TO_NS 9223372036854775) = 9223372036854775.
Proof. apply (time_conversions_round_trip (-3) 1500 9223372036854775); lia. Defined.

Lemma quot_truncates (n k : Z) :
  0 < k ->
  Z.abs (Z.quot n k * k) <= Z.abs n /\ Z.abs (n - Z.quot n k * k) < k /\
  (0 <= n -> 0 <= Z.quot n k * k <= n) /\ (n <= 0 -> n <= Z.quot n k * k <= 0).
Proof.
  intros Hk. pose proof (Z.quot_rem' n k) as Hqr.
  destruct (Z.le_ge_cases 0 n) as [Hn|Hn].
  - pose proof (Z.rem_bound_pos_pos n k Hk Hn).
    pose proof (Z.quot_pos n k Hn Hk). lia.
  - pose proof (Z.rem_bound_pos_neg n k Hk Hn).
    assert (Z.quot n k <= 0).
    { rewrite <- (Z.opp_involutive n), Z.quot_opp_l by lia.
      pose proof (Z.quot_pos (- n) k ltac:(lia) Hk). lia. }
    lia.
Qed.

(** X7.  Converting a nanosecond value to seconds, milliseconds or
    microseconds rounds toward zero, also for a negative value: converting
    back never wraps around and gives a value of the same sign that is no
    further from zero, less than one unit away from the original. *)
Theorem time_conversions_truncate_toward_zero (n : Z) :
  in_int64 n ->
  let back_s := RCUTILS_S_TO_NS (RCUTILS_NS_TO_S n) in
  let back_ms := RCUTILS_MS_TO_NS (RCUTILS_NS_TO_MS n) in
  let back_us := RCUTILS_US_TO_NS (RCUTILS_NS_TO_US n) in
  (back_s = RCUTILS_NS_TO_S n * 1000000000 /\
   Z.abs back_s <= Z.abs n /\ Z.abs (n - back_s) < 1000000000 /\ 0 <= n * back_s) /\
  (back_ms = RCUTILS_NS_TO_MS n * 1000000 /\
   Z.abs back_ms <= Z.abs n /\ Z.abs (n - back_ms) < 1000000 /\ 0 <= n * back_ms) /\
  (back_us = RCUTILS_NS_TO_US n * 1000 /\
   Z.abs back_us <= Z.abs n /\ Z.abs (n - back_us) < 1000 /\ 0 <= n * back_us).
Proof.
  unfold in_int64, INT64_MIN, INT64_MAX. intros Hn. cbv zeta.
  unfold RCUTILS_NS_TO_S, RCUTILS_NS_TO_MS, RCUTILS_NS_TO_US,
    RCUTILS_S_TO_NS, RCUTILS_MS_TO_NS, RCUTILS_US_TO_NS.
  change (1000 * 1000 * 1000) with 1000000000. change (1000 * 1000) with 1000000.
  pose proof (quot_truncates n 1000000000 ltac:(lia)) as (H1 & H2 & H3 & H4).
  pose proof (quot_truncates n 1000000 ltac:(lia)) as (H5 & H6 & H7 & H8).
  pose proof (quot_truncates n 1000 ltac:(lia)) as (H9 & H10 & H11 & H12).
  rewrite !wrap64_id by (unfold in_int64, INT64_MIN, INT64_MAX; lia).
  split_and!; try done; nia.
Qed.

Lemma time_conversions_truncate_toward_zero_witness :
  RCUTILS_S_TO_NS (RCUTILS_NS_TO_S (-1500000000)) = -1000000000.
Proof.
  pose proof (time_conversions_truncate_toward_zero (-1500000000)
                ltac:(unfold in_int64, INT64_MIN, INT64_MAX; lia)) as [[H _] _].
  exact H.
Defined.

(** ** Allocation and release *)

Lemma ensure_events t a w r w' :
  __ensure_last_steady_timestamp_storage t a w = Some (r, w') ->
  allocates_at_most_once t a w r w'.
Proof.
  unfold allocates_at_most_once. intros H. unfold_code H. paths.
  all: split; [done|]; simpl; eauto.
  all: try (by left).
  all: right; eexists; split; [reflexivity|done].
Qed.

Lemma ensure_keeps t a w r w' :
  __ensure_last_steady_timestamp_storage t a w = Some (r, w') ->
  keeps_cell t a w w'.
Proof.
  intros H. destruct (ensure_cell _ _ _ _ _ H) as (_ & _ & _ & Hcell).
  destruct (specific w !! t) as [p|] eqn:Hp.
  - destruct Hcell as [Hp' Hheap]. split_and!.
    + intros q Hq. congruence.
    + intros q s Hq Hs. assert (q = p) as -> by congruence. rewrite Hheap. eauto.
    + intros Hn. congruence.
  - destruct Hcell as [_ [Hnone|(Hsome & _ & Hnew)]]; split_and!.
    all: try (intros q Hq; congruence).
    all: try (intros q s Hq; congruence).
    intros _ q Hq. assert (q = brk w) as -> by congruence. eauto.
Qed.

Lemma keeps_cell_refl t a w : keeps_cell t a w w.
Proof.
  split_and!; [done | eauto |]. intros Hn p Hp. congruence.
Qed.

Lemma keeps_cell_trans t a w1 w2 w3 :
  keeps_cell t a w1 w2 -> keeps_cell t a w2 w3 -> keeps_cell t a w1 w3.
Proof.
  intros (Hs1 & Hh1 & Hf1) (Hs2 & Hh2 & Hf2). split_and!.
  - auto.
  - intros p s Hp Hs. destruct (Hh1 _ _ Hp Hs) as (s' & Hs' & <-).
    destruct (Hh2 _ _ (Hs1 _ Hp) Hs') as (s'' & Hs'' & <-). eauto.
  - intros Hn p Hp. destruct (specific w2 !! t) as [q|] eqn:Hq.
    + destruct (Hf1 Hn _ eq_refl) as (s' & Hs' & <-).
      assert (p = q) as -> by (specialize (Hs2 _ eq_refl); congruence).
      destruct (Hh2 _ _ eq_refl Hs') as (s'' & Hs'' & <-). eauto.
    + by apply Hf2.
Qed.

Lemma allocates_seq t a w w1 r w2 :
  allocates_at_most_once t a w RCUTILS_RET_OK w1 ->
  (forall p, specific w !! t = Some p -> specific w1 !! t = Some p) ->
  is_Some (specific w1 !! t) ->
  allocates_at_most_once t a w1 r w2 ->
  allocates_at_most_once t a w r w2.
Proof.
  unfold allocates_at_most_once. intros [Hr1 Ha1] Hkeep [q Hq] [Hr2 Ha2].
  rewrite Hq in Ha2. split; [congruence|].
  destruct (specific w !! t) as [p|] eqn:Hp; [congruence|].
  destruct Ha1 as [[_ ?]|(x & Hx & Hok)]; [congruence|].
  right. exists x. split; [congruence|]. intros _. by apply Hok.
Qed.

(** The pthread case of the private get: it is
    [__ensure_last_steady_timestamp_storage] followed by a read. *)
Lemma get_last_events t w r v w' :
  __rcutils_time_common_get_last_steady_timestamp_thread_local ThreadLocalPthread t w
    = Some ((r, v), w') ->
  allocates_at_most_once t rcutils_get_default_allocator w r w' /\
  keeps_cell t rcutils_get_default_allocator w w' /\
  (r = RCUTILS_RET_OK -> is_Some (specific w' !! t)).
Proof.
  simpl. intros H. apply bind_inv in H as (r0 & w1 & He & H).
  pose proof (ensure_events _ _ _ _ _ He) as Hev.
  pose proof (ensure_keeps _ _ _ _ _ He) as Hk.
  assert (w' = w1 /\ (r = RCUTILS_RET_OK -> r0 = RCUTILS_RET_OK /\ is_Some (specific w1 !! t)) /\
          (r0 <> RCUTILS_RET_OK -> r = r0)) as (-> & Hok & Hfail).
  { destruct r0; unfold_code H; paths; split_and!; try done; by eauto. }
  split_and!; [|done|by intros ?; apply Hok].
  destruct (decide (r0 = RCUTILS_RET_OK)) as [->|Hne]; [|by rewrite (Hfail Hne)].
  unfold allocates_at_most_once in *. destruct Hev as [Hr Ha]. split; [done|].
  destruct (specific w !! t); [done|].
  destruct Ha as [[_ ?]|(x & Hx & Hsome)]; [congruence|].
  right. exists x. split; [done|]. intros _. by apply Hsome.
Qed.

Lemma set_last_events t c w r w' :
  __rcutils_time_common_set_last_steady_timestamp_thread_local ThreadLocalPthread t c w
    = Some (r, w') ->
  allocates_at_most_once t rcutils_get_default_allocator w r w' /\
  keeps_cell t rcutils_get_default_allocator w w' /\
  (r = RCUTILS_RET_OK -> is_Some (specific w' !! t)).
Proof.
  simpl. intros H. apply bind_inv in H as (r0 & w1 & He & H).
  pose proof (ensure_events _ _ _ _ _ He) as Hev.
  pose proof (ensure_keeps _ _ _ _ _ He) as Hk.
  assert (trace w' = trace w1 /\
          keeps_cell t rcutils_get_default_allocator w1 w' /\
          (r = RCUTILS_RET_OK -> r0 = RCUTILS_RET_OK /\ is_Some (specific w' !! t)) /\
          (r0 <> RCUTILS_RET_OK -> r = r0)) as (Htr & Hk' & Hok & Hfail).
  { destruct r0; unfold_code H; paths.
    all: split_and!; try done; try apply keeps_cell_refl.
    all: try (intros _; split; [done|]; simpl; by simplify_map_eq).
    all: split_and!; simpl.
    all: try (intros q Hq; by simplify_map_eq).
    all: try (intros q s0 Hq Hs; simplify_map_eq; by eauto).
    all: try (intros Hn q Hq; by simplify_map_eq). }
  split_and!; [|by eapply keeps_cell_trans|by intros ?; apply Hok].
  unfold allocates_at_most_once in *. rewrite Htr. destruct Hev as [Hr Ha]. split; [done|].
  destruct (decide (r0 = RCUTILS_RET_OK)) as [->|Hne]; [|by rewrite (Hfail Hne)].
  destruct (specific w !! t); [done|].
  destruct Ha as [[_ ?]|(x & Hx & Hsome)]; [congruence|].
  right. exists x. split; [done|]. intros _. by apply Hsome.
Qed.

Lemma check_events t c w r w' :
  __rcutils_check_steady_time_monotonicity_thread_local ThreadLocalPthread t c w
    = Some (r, w') ->
  allocates_at_most_once t rcutils_get_default_allocator w r w' /\
  keeps_cell t rcutils_get_default_allocator w w' /\
  (r = RCUTILS_RET_OK -> is_Some (specific w' !! t)).
Proof.
  unfold __rcutils_check_steady_time_monotonicity_thread_local. intros H.
  apply bind_inv in H as ([r0 v0] & w1 & Hg & H). simpl in H.
  apply get_last_events in Hg as (Ha & Hk & Hsome).
  destruct (decide (r0 = RCUTILS_RET_OK)) as [->|Hne].
  2:{ assert (r = r0 /\ w' = w1) as [-> ->]
        by (destruct r0; [congruence|..]; by injection H).
      done. }
  destruct (v0 >? c).
  { injection H as <- <-. split_and!; try done.
    unfold allocates_at_most_once in *. destruct Ha as [Hr Ha]. split; [done|].
    destruct (specific w !! t); [done|]. destruct Ha as [[_ ?]|(x & Hx & _)]; [congruence|].
    right. by exists x. }
  apply bind_inv in H as (r1 & w2 & Hs & H).
  assert (r = r1 /\ w' = w2) as [-> ->] by (destruct r1; by injection H).
  apply set_last_events in Hs as (Ha' & Hk' & Hsome').
  split_and!; [|by eapply keeps_cell_trans|done].
  eapply allocates_seq; [exact Ha| |by apply Hsome|exact Ha'].
  by destruct Hk.
Qed.

Lemma allocates_nothing t a w r w' :
  trace w' = trace w -> r <> RCUTILS_RET_OK -> allocates_at_most_once t a w r w'.
Proof.
  intros Htr Hr. unfold allocates_at_most_once. rewrite Htr. split; [done|].
  destruct (specific w !! t); [done | by left].
Qed.

Lemma allocates_store_now t a w r w1 l v :
  allocates_at_most_once t a w r w1 ->
  allocates_at_most_once t a w r (log (EvStoreNow l v) (set_mem <[l := v]> w1)).
Proof. done. Qed.

Lemma keeps_cell_store_now t a w w1 l v :
  keeps_cell t a w w1 -> keeps_cell t a w (log (EvStoreNow l v) (set_mem <[l := v]> w1)).
Proof. done. Qed.

Lemma unix_steady_events t now s w r w' :
  time_unix.rcutils_steady_time_now ThreadLocalPthread t now s w = Some (r, w') ->
  allocates_at_most_once t rcutils_get_default_allocator w r w' /\
  keeps_cell t rcutils_get_default_allocator w w' /\
  (r = RCUTILS_RET_OK -> is_Some (specific w' !! t)).
Proof.
  unfold time_unix.rcutils_steady_time_now, RCUTILS_CHECK_ARGUMENT_FOR_NULL.
  destruct now as [l|].
  2:{ intros [= <- <-]. split_and!; [by apply allocates_nothing|apply keeps_cell_refl|done]. }
  destruct (time_unix.__WOULD_BE_NEGATIVE _ _).
  { intros [= <- <-]. split_and!; [by apply allocates_nothing|apply keeps_cell_refl|done]. }
  cbn [RCUTILS_DISABLE_TIME_SANITY_CHECKS].
  destruct (_ || _).
  { intros [= <- <-]. split_and!; [by apply allocates_nothing|apply keeps_cell_refl|done]. }
  intros H. apply bind_inv in H as (r0 & w1 & Hc & H).
  apply check_events in Hc as (Ha & Hk & Hsome).
  destruct r0; injection H as <- <-; split_and!; done.
Qed.

(** One steady-time read or [init] of the pthread case, seen in the event
    log. *)
Lemma perform_events t c w r w' :
  (forall now s, c <> SystemTimeNow now s) -> c <> ThreadSpecificFini ->
  perform ThreadLocalPthread t c w = Some (r, w') ->
  allocates_at_most_once t (allocator_of c) w r w' /\ keeps_cell t (allocator_of c) w w'.
Proof.
  intros Hsys Hfini. destruct c as [now s|now s|a|]; simpl.
  - intros H. by apply unix_steady_events in H as (? & ? & _).
  - by destruct (Hsys now s).
  - intros H. split; [by apply ensure_events | by eapply ensure_keeps].
  - done.
Qed.

Lemma system_time_events b now s w r w' :
  time_unix.rcutils_system_time_now b now s w = Some (r, w') ->
  allocations (trace w') = allocations (trace w) /\
  releases (trace w') = releases (trace w) /\
  key_creations (trace w') = key_creations (trace w) /\
  specific w' = specific w /\ heap w' = heap w /\ pending w' = pending w.
Proof.
  destruct (unix_system_run b now s w) as (r0 & [(_ & l & _ & ->)|(_ & ->)]);
    by intros [= <- <-].
Qed.

Lemma cell_allocator_Some w t a :
  cell_allocator w t = Some a <->
  exists p s, specific w !! t = Some p /\ heap w !! p = Some s /\ self_allocator s = a.
Proof.
  unfold cell_allocator. split.
  - destruct (specific w !! t) as [p|]; [|done]. simpl.
    destruct (heap w !! p) as [s|] eqn:Hs; [|done]. simpl. intros [= <-]. eauto.
  - intros (p & s & -> & Hs & <-). simpl. by rewrite Hs.
Qed.

Lemma keeps_cell_allocator t a' w w' a :
  keeps_cell t a' w w' -> cell_allocator w t = Some a ->
  cell_allocator w' t = Some a /\ specific w' !! t = specific w !! t.
Proof.
  intros (Hs & Hh & _) (p & s & Hp & Hs' & <-)%cell_allocator_Some.
  destruct (Hh _ _ Hp Hs') as (s' & Hs'' & Heq).
  split; [|by rewrite Hp; apply Hs].
  apply cell_allocator_Some. exists p, s'. split_and!; auto.
Qed.

(** X8.  In the pthread case, a steady-time read, a system-time read or
    [init] made by a thread that has its cell and returning
    [RCUTILS_RET_OK] allocates nothing and releases nothing, whatever the
    environment does.  (A failing call sets an error message, which may
    allocate; that is outside this embedding.)  Whatever its outcome, the
    call returns and the thread keeps its cell and the allocator kept in
    it. *)
Theorem existing_cell_means_no_allocation (tid : thread_id) (c : call) (w : world) :
  thread_ok w tid ->
  is_Some (cell_allocator w tid) ->
  c <> ThreadSpecificFini ->
  exists r w',
    perform ThreadLocalPthread tid c w = Some (r, w') /\
    (r = RCUTILS_RET_OK ->
     allocations (trace w') = allocations (trace w) /\
     releases (trace w') = releases (trace w)) /\
    thread_ok w' tid /\
    specific w' !! tid = specific w !! tid /\
    cell_allocator w' tid = cell_allocator w tid.
Proof.
  intros Hok [a Ha] Hc.
  destruct (perform_same ThreadLocalPthread tid c w Hok Hc) as (r & w' & Hp & Hok' & _).
  exists r, w'. split; [done|].
  pose proof Ha as (p & s & Hsp & _)%cell_allocator_Some.
  destruct c as [now s0|now s0|a0|]; [| | |done].
  - destruct (perform_events tid (SteadyTimeNow now s0) w r w' ltac:(done) Hc Hp)
      as [[Hr Hal] Hk].
    rewrite Hsp in Hal. destruct (keeps_cell_allocator _ _ _ _ _ Hk Ha) as [Ha' Hs'].
    split_and!; try done. by rewrite Ha, Ha'.
  - simpl in Hp. destruct (system_time_events _ _ _ _ _ _ Hp) as (? & ? & _ & Hs & Hh & _).
    split_and!; try done; [by rewrite Hs|]. unfold cell_allocator. by rewrite Hs, Hh.
  - destruct (perform_events tid (ThreadSpecificInit a0) w r w' ltac:(done) Hc Hp)
      as [[Hr Hal] Hk].
    rewrite Hsp in Hal. destruct (keeps_cell_allocator _ _ _ _ _ Hk Ha) as [Ha' Hs'].
    split_and!; try done. by rewrite Ha, Ha'.
Qed.

Lemma existing_cell_means_no_allocation_witness :
  exists r w',
    perform ThreadLocalPthread 0%nat
      (SteadyTimeNow (Some 7%nat) {| tv_sec := 1; tv_nsec := 0 |})
      world_after_first_check = Some (r, w') /\
    (r = RCUTILS_RET_OK ->
     allocations (trace w') = allocations (trace world_after_first_check) /\
     releases (trace w') = releases (trace world_after_first_check)) /\
    thread_ok w' 0%nat /\
    specific w' !! 0%nat = specific world_after_first_check !! 0%nat /\
    cell_allocator w' 0%nat = cell_allocator world_after_first_check 0%nat.
Proof.
  apply (existing_cell_means_no_allocation 0%nat
           (SteadyTimeNow (Some 7%nat) {| tv_sec := 1; tv_nsec := 0 |})
           world_after_first_check).
  - apply thread_ok_after_first_check.
  - vm_compute. eauto.
  - done.
Defined.

Lemma other_backends_perform b t c w :
  b <> ThreadLocalPthread ->
  exists r w',
    perform b t c w = Some (r, w') /\
    key_creations (trace w') = key_creations (trace w) /\
    __key_init_once w' = __key_init_once w /\
    specific w' = specific w /\ heap w' = heap w /\ brk w' = brk w /\
    pending w' = pending w.
Proof.
  intros Hb.
  destruct (perform b t c w) as [[r w']|] eqn:Hp.
  - exists r, w'. split; [done|].
    destruct b; [| |done];
      destruct c as [[l|] s|[l|] s|a|];
      cbv [perform time_unix.rcutils_steady_time_now time_unix.rcutils_system_time_now
           RCUTILS_CHECK_ARGUMENT_FOR_NULL RCUTILS_DISABLE_TIME_SANITY_CHECKS
           rcutils_steady_time_now_thread_specific_init
           rcutils_steady_time_now_thread_specific_fini
           __rcutils_time_common_ensure_last_steady_timestamp
           __rcutils_time_common_destroy_last_steady_timestamp
           __rcutils_check_steady_time_monotonicity_thread_local
           __rcutils_time_common_get_last_steady_timestamp_thread_local
           __rcutils_time_common_set_last_steady_timestamp_thread_local] in Hp;
      unfold_code Hp; paths; done.
  - exfalso.
    destruct b; [| |done];
      destruct c as [[l|] s|[l|] s|a|];
      cbv [perform time_unix.rcutils_steady_time_now time_unix.rcutils_system_time_now
           RCUTILS_CHECK_ARGUMENT_FOR_NULL RCUTILS_DISABLE_TIME_SANITY_CHECKS
           rcutils_steady_time_now_thread_specific_init
           rcutils_steady_time_now_thread_specific_fini
           __rcutils_time_common_ensure_last_steady_timestamp
           __rcutils_time_common_destroy_last_steady_timestamp
           __rcutils_check_steady_time_monotonicity_thread_local
           __rcutils_time_common_get_last_steady_timestamp_thread_local
           __rcutils_time_common_set_last_steady_timestamp_thread_local] in Hp;
      unfold_code Hp; paths.
Qed.

(** X9.  Where the build does not use pthread keys (sanity checks
    disabled, or [_Thread_local] available), the pthread machinery is never
    touched: every sequence of calls, by any threads and in any order
    ([fini] before any [init] or read included), runs to completion, never
    creates the key, never runs [pthread_once], and leaves the key values,
    the cells on the heap and the environment's coming results as they
    were. *)
Theorem other_backends_never_use_the_key
    (b : tls_backend) (cs : list (thread_id * call)) (w : world) :
  b <> ThreadLocalPthread ->
  exists obs w',
    run b cs w = Some (obs, w') /\
    length obs = length cs /\
    key_creations (trace w') = key_creations (trace w) /\
    __key_init_once w' = __key_init_once w /\
    specific w' = specific w /\ heap w' = heap w /\ brk w' = brk w /\
    pending w' = pending w.
Proof.
  intros Hb. revert w. induction cs as [|[t c] cs IH]; intros w.
  { eexists _, _. by split_and!. }
  destruct (other_backends_perform b t c w Hb)
    as (r & w1 & Hp & Hk & Ho & Hs & Hh & Hbrk & Hpe).
  destruct (IH w1) as (os & w2 & Hrun & Hlen & Hk' & Ho' & Hs' & Hh' & Hbrk' & Hpe').
  eassert (Hobs : observe b (t, c) w = Some (_, w1)).
  { unfold observe. simpl. rewrite (bind_run _ _ _ _ _ Hp). reflexivity. }
  simpl. rewrite (bind_run _ _ _ _ _ Hobs), (bind_run _ _ _ _ _ Hrun).
  eexists _, _. split; [reflexivity|]. simpl. split_and!; congruence.
Qed.

Lemma other_backends_never_use_the_key_witness :
  exists obs w',
    run NativeThreadLocal ((0%nat, ThreadSpecificFini) :: fini_between_reads) initial_world
      = Some (obs, w') /\
    length obs = length ((0%nat, ThreadSpecificFini) :: fini_between_reads) /\
    key_creations (trace w') = key_creations (trace initial_world) /\
    __key_init_once w' = __key_init_once initial_world /\
    specific w' = specific initial_world /\ heap w' = heap initial_world /\
    brk w' = brk initial_world /\ pending w' = pending initial_world.
Proof.
  apply (other_backends_never_use_the_key NativeThreadLocal
           ((0%nat, ThreadSpecificFini) :: fini_between_reads) initial_world).
  done.
Defined.

(** X10.  In the pthread case, on a thread without a cell and with a
    cooperative environment, [init] and a steady-time read of a valid sample
    each succeed with exactly one allocation and no release: [init]
    allocates through the allocator it was given and keeps it in the cell,
    the read allocates through the default allocator and keeps that. *)
Theorem first_call_allocates_exactly_once
    (tid : thread_id) (a : rcutils_allocator_t) (l : loc) (s : timespec) (w : world) :
  thread_ok w tid -> specific w !! tid = None ->
  __make_pthread_keys_ret w = RCUTILS_RET_OK -> no_faults w ->
  ~ negative_sample s -> ~ overflows s ->
  (exists w',
     rcutils_steady_time_now_thread_specific_init ThreadLocalPthread tid a w
       = Some (RCUTILS_RET_OK, w') /\
     allocations (trace w') = (a, Some (brk w)) :: allocations (trace w) /\
     releases (trace w') = releases (trace w) /\
     cell_allocator w' tid = Some a) /\
  (exists w',
     time_unix.rcutils_steady_time_now ThreadLocalPthread tid (Some l) s w
       = Some (RCUTILS_RET_OK, w') /\
     allocations (trace w') = (rcutils_get_default_allocator, Some (brk w))
                                :: allocations (trace w) /\
     releases (trace w') = releases (trace w) /\
     cell_allocator w' tid = Some rcutils_get_default_allocator).
Proof.
  intros Hok Hnone Hk Hf Hneg Hov. split.
  - destruct (ensure_healthy tid a w Hk Hf) as (w' & He & _ & _ & _ & Hcell).
    rewrite Hnone in Hcell. destruct Hcell as (Hs & Hh & _).
    destruct (ensure_events _ _ _ _ _ He) as [Hr Ha]. rewrite Hnone in Ha.
    exists w'. split; [exact He|]. split_and!; [|done|].
    + destruct Ha as [[_ ?]|(x & -> & Hx)]; [done|]. by rewrite Hx.
    + apply cell_allocator_Some. eexists _, _. rewrite Hs, Hh, !lookup_insert_eq. eauto.
  - assert (last_recorded ThreadLocalPthread w tid <= total_ns s) as Hle.
    { simpl. rewrite Hnone. apply wrap64_range. }
    destruct (unix_steady_accept ThreadLocalPthread tid l s w Hok Hneg Hov Hle
                ltac:(done)) as (w' & Hrun & _).
    destruct (unix_steady_events _ _ _ _ _ _ Hrun) as ([Hr Ha] & (_ & _ & Hnew) & Hsome).
    rewrite Hnone in Ha. destruct (Hsome eq_refl) as [p Hp].
    destruct (Hnew Hnone _ Hp) as (s' & Hs' & Hal).
    exists w'. split; [exact Hrun|]. split_and!; [|done|].
    + destruct Ha as [[_ ?]|(x & -> & Hx)]; [done|]. by rewrite Hx.
    + apply cell_allocator_Some. eauto.
Qed.

Lemma first_call_allocates_exactly_once_witness :
  (exists w',
     rcutils_steady_time_now_thread_specific_init ThreadLocalPthread 0%nat custom_allocator
       initial_world = Some (RCUTILS_RET_OK, w') /\
     allocations (trace w') = [(custom_allocator, Some 1%nat)] /\
     releases (trace w') = [] /\
     cell_allocator w' 0%nat = Some custom_allocator) /\
  (exists w',
     time_unix.rcutils_steady_time_now ThreadLocalPthread 0%nat (Some 7%nat)
       {| tv_sec := 5; tv_nsec := 100 |} initial_world = Some (RCUTILS_RET_OK, w') /\
     allocations (trace w') = [(rcutils_get_default_allocator, Some 1%nat)] /\
     releases (trace w') = [] /\
     cell_allocator w' 0%nat = Some rcutils_get_default_allocator).
Proof.
  apply (first_call_allocates_exactly_once 0%nat custom_allocator 7%nat
           {| tv_sec := 5; tv_nsec := 100 |} initial_world).
  - apply thread_ok_initial.
  - reflexivity.
  - reflexivity.
  - by constructor.
  - unfold negative_sample. simpl. lia.
  - unfold overflows. simpl. change (INT64_MAX / 1000000000) with 9223372036.
    unfold INT64_MAX. lia.
Defined.

Lemma own_call_keeps_allocator t c w r w' a :
  c <> ThreadSpecificFini ->
  perform ThreadLocalPthread t c w = Some (r, w') ->
  cell_allocator w t = Some a ->
  cell_allocator w' t = Some a /\ specific w' !! t = specific w !! t.
Proof.
  intros Hc Hp Ha. destruct c as [now s0|now s0|a0|]; [| | |done].
  - destruct (perform_events t (SteadyTimeNow now s0) w r w' ltac:(done) Hc Hp) as [_ Hk].
    by eapply keeps_cell_allocator.
  - simpl in Hp. destruct (system_time_events _ _ _ _ _ _ Hp) as (_ & _ & _ & Hs & Hh & _).
    unfold cell_allocator in *. by rewrite Hs, Hh.
  - destruct (perform_events t (ThreadSpecificInit a0) w r w' ltac:(done) Hc Hp) as [_ Hk].
    by eapply keeps_cell_allocator.
Qed.

Lemma touches_other_cell t tid w w' :
  touches t w w' -> t <> tid -> thread_ok w tid ->
  cell_allocator w' tid = cell_allocator w tid /\ specific w' !! tid = specific w !! tid.
Proof.
  intros Ht Hne Hok. unfold cell_allocator.
  rewrite (t_specific _ _ _ Ht) by done. split; [|done].
  destruct (specific w !! tid) as [p|] eqn:Hp; [|done]. simpl.
  rewrite (t_heap _ _ _ Ht); [done|by eapply (specific_below _ _ Hok)|].
  intros Hp'. apply Hne. by eapply (cell_own _ _ Hok).
Qed.

Lemma run_keeps_allocator tid a cs :
  forall w obs w',
    thread_ok w tid -> cell_allocator w tid = Some a ->
    Forall (fun tc => tc <> (tid, ThreadSpecificFini)) cs ->
    run ThreadLocalPthread cs w = Some (obs, w') ->
    thread_ok w' tid /\ cell_allocator w' tid = Some a /\
    specific w' !! tid = specific w !! tid.
Proof.
  induction cs as [|[t c] cs IH]; intros w obs w' Hok Ha Hnf Hrun.
  { by injection Hrun as <- <-. }
  apply Forall_cons in Hnf as [Hne Hnf].
  simpl in Hrun.
  apply bind_inv in Hrun as (o & w1 & Ho & Hrun).
  apply bind_inv in Hrun as (os & w2 & Hrest & Hrun).
  injection Hrun as <- <-.
  unfold observe in Ho. simpl in Ho.
  apply bind_inv in Ho as (r & w1' & Hp & Ho).
  injection Ho as <- <-.
  assert (thread_ok w1' tid /\ cell_allocator w1' tid = Some a /\
          specific w1' !! tid = specific w !! tid) as (Hok1 & Ha1 & Hs1).
  { destruct (decide (t = tid)) as [->|Hother].
    - assert (Hc : c <> ThreadSpecificFini) by congruence.
      destruct (perform_same ThreadLocalPthread tid c w Hok Hc) as (r' & w'' & Hp' & Hok1 & _).
      rewrite Hp in Hp'. injection Hp' as <- <-.
      destruct (own_call_keeps_allocator _ _ _ _ _ _ Hc Hp Ha). done.
    - pose proof (perform_touches _ _ _ _ _ _ Hp) as Ht.
      destruct (touches_other _ _ _ _ Ht Hother Hok) as [Hok1 _].
      destruct (touches_other_cell _ _ _ _ Ht Hother Hok) as [Ha1 Hs1].
      split_and!; congruence. }
  destruct (IH _ _ _ Hok1 Ha1 Hnf Hrest) as (Hok2 & Ha2 & Hs2).
  split_and!; congruence.
Qed.

(** X11.  In the pthread case the allocator a thread's cell was created
    with stays bound to it: whatever the thread calls afterwards except
    [fini] ([init] with another allocator included), whatever other threads
    call ([fini] included) and whatever the environment does, the cell keeps
    its address and its allocator, and the thread's next [fini], if its
    [pthread_setspecific] succeeds, hands the cell back to that allocator
    and leaves the thread without a cell. *)
Theorem cell_is_released_with_its_allocator
    (tid : thread_id) (a : rcutils_allocator_t) (cs : list (thread_id * call))
    (w : world) (obs : list observation) (w' : world) :
  thread_ok w tid -> cell_allocator w tid = Some a ->
  Forall (fun tc => tc <> (tid, ThreadSpecificFini)) cs ->
  run ThreadLocalPthread cs w = Some (obs, w') ->
  next_ok w' ->
  cell_allocator w' tid = Some a /\
  exists p w'',
    specific w !! tid = Some p /\ specific w' !! tid = Some p /\
    rcutils_steady_time_now_thread_specific_fini ThreadLocalPthread tid w'
      = Some (RCUTILS_RET_OK, w'') /\
    releases (trace w'') = (a, p) :: releases (trace w') /\
    allocations (trace w'') = allocations (trace w') /\
    specific w'' !! tid = None /\ heap w'' !! p = None.
Proof.
  intros Hok Ha Hnf Hrun Hnext.
  destruct (run_keeps_allocator tid a cs w obs w' Hok Ha Hnf Hrun) as (Hok' & Ha' & Hs').
  split; [done|].
  pose proof Ha' as (p & s & Hp & Hs & <-)%cell_allocator_Some.
  exists p, (released tid p (self_allocator s) w'). split_and!.
  - congruence.
  - done.
  - by apply destroy_existing.
  - done.
  - done.
  - simpl. by rewrite lookup_delete_eq.
  - simpl. by rewrite lookup_delete_eq.
Qed.

Lemma thread_ok_after_custom_init : thread_ok world_after_custom_init 0%nat.
Proof.
  destruct (ensure_total 0%nat custom_allocator initial_world) as (r & w' & He).
  destruct (ensure_ok _ _ _ _ _ (thread_ok_initial 0%nat) He) as [Hok _].
  unfold world_after_custom_init. simpl. by rewrite He.
Qed.

Lemma cell_is_released_with_its_allocator_witness :
  cell_allocator (snd run_after_custom_init) 0%nat = Some custom_allocator /\
  exists p w'',
    specific world_after_custom_init !! 0%nat = Some p /\
    specific (snd run_after_custom_init) !! 0%nat = Some p /\
    rcutils_steady_time_now_thread_specific_fini ThreadLocalPthread 0%nat
      (snd run_after_custom_init) = Some (RCUTILS_RET_OK, w'') /\
    releases (trace w'') = (custom_allocator, p) :: releases (trace (snd run_after_custom_init)) /\
    allocations (trace w'') = allocations (trace (snd run_after_custom_init)) /\
    specific w'' !! 0%nat = None /\ heap w'' !! p = None.
Proof.
  apply (cell_is_released_with_its_allocator 0%nat custom_allocator calls_after_custom_init
           world_after_custom_init (fst run_after_custom_init)).
  - apply thread_ok_after_custom_init.
  - by vm_compute.
  - repeat constructor; by intros [=].
  - by vm_compute.
  - by vm_compute.
Defined.

(** ** Failures of [pthread_setspecific] *)

Lemma set_last_timestamp_run t v w :
  __set_last_steady_timestamp t v w =
  Some (setspecific_status (hd 0 (pending w)),
        if hd 0 (pending w) =? 0
        then set_specific (fun m => match v with
                                    | Some p => <[t := p]> m
                                    | None => delete t m
                                    end) (set_pending (tail (pending w)) w)
        else set_pending (tail (pending w)) w).
Proof.
  unfold_code_goal. unfold setspecific_status.
  destruct (hd 0 (pending w) =? 0) eqn:E0; [done|]. cbv beta iota. rewrite E0.
  by repeat case_match.
Qed.

(** X12.  In the pthread case, when [init] on a thread without a cell gets
    its cell from the allocator and [pthread_setspecific] then fails, the
    new cell is neither installed nor handed back: it stays live while no
    thread points to it.  [init] reports [RCUTILS_RET_BAD_ALLOC] for
    [ENOMEM] and [RCUTILS_RET_ERROR] for [EINVAL], and for any other error
    code it returns [RCUTILS_RET_OK] although the thread still has no
    cell. *)
Theorem init_leaks_cell_when_setspecific_fails
    (tid : thread_id) (a : rcutils_allocator_t) (w : world) (e : Z) (rest : list Z) :
  thread_ok w tid -> specific w !! tid = None ->
  __key_init_once w = true -> __make_pthread_keys_ret w = RCUTILS_RET_OK ->
  pending w = 0 :: 0 :: e :: rest -> e <> 0 ->
  exists w',
    rcutils_steady_time_now_thread_specific_init ThreadLocalPthread tid a w
      = Some (setspecific_status e, w') /\
    specific w' = specific w /\
    heap w' = <[brk w := {| timestamp := INT64_MIN; self_allocator := a |}]> (heap w) /\
    (forall t, specific w' !! t <> Some (brk w)) /\
    allocations (trace w') = (a, Some (brk w)) :: allocations (trace w) /\
    releases (trace w') = releases (trace w).
Proof.
  intros Hok Hnone Honce Hkeys Hpend He.
  unfold rcutils_steady_time_now_thread_specific_init,
    __rcutils_time_common_ensure_last_steady_timestamp,
    __ensure_last_steady_timestamp_storage.
  assert (Honce' : pthread_once __make_pthread_keys w
                   = Some (0, set_pending (0 :: e :: rest) w)).
  { unfold_code_goal. rewrite Hpend. cbn. by rewrite Honce. }
  rewrite (bind_run _ _ _ _ _ Honce'). cbn [Z.eqb].
  unfold_code_goal. cbn. rewrite Hkeys. cbn. rewrite Honce, Hkeys, Hnone. cbn.
  apply Z.eqb_neq in He. rewrite He.
  eexists. split.
  { unfold setspecific_status. rewrite He. by repeat case_match. }
  cbn. split_and!; try done.
  intros t Ht. pose proof (specific_below _ _ Hok _ _ Ht). lia.
Qed.

Lemma thread_ok_other_after_first_check : thread_ok world_after_first_check 1%nat.
Proof.
  destruct (check_same ThreadLocalPthread 0%nat 10 initial_world (thread_ok_initial _))
    as (r & w' & Hc & _).
  pose proof (check_touches _ _ _ _ _ _ Hc) as [Ht _].
  destruct (touches_other 0%nat 1%nat initial_world w' Ht) as [H _];
    [done | apply thread_ok_initial |].
  unfold world_after_first_check. by rewrite Hc.
Qed.

Lemma init_leaks_cell_when_setspecific_fails_witness :
  exists w',
    rcutils_steady_time_now_thread_specific_init ThreadLocalPthread 1%nat custom_allocator
      world_init_setspecific_fails = Some (RCUTILS_RET_ERROR, w') /\
    specific w' = specific world_init_setspecific_fails /\
    heap w' = <[brk world_init_setspecific_fails :=
                  {| timestamp := INT64_MIN; self_allocator := custom_allocator |}]>
                (heap world_init_setspecific_fails) /\
    (forall t, specific w' !! t <> Some (brk world_init_setspecific_fails)) /\
    allocations (trace w') =
      (custom_allocator, Some (brk world_init_setspecific_fails))
        :: allocations (trace world_init_setspecific_fails) /\
    releases (trace w') = releases (trace world_init_setspecific_fails).
Proof.
  apply (init_leaks_cell_when_setspecific_fails 1%nat custom_allocator
           world_init_setspecific_fails EINVAL []).
  - apply thread_ok_set_pending, thread_ok_other_after_first_check.
  - by vm_compute.
  - by vm_compute.
  - by vm_compute.
  - by vm_compute.
  - done.
Defined.

(** X13.  In the pthread case, when the [pthread_setspecific] of [fini]
    fails, the thread's cell has already been handed back to its allocator
    while the thread's key value still points to it.  [fini] reports
    [RCUTILS_RET_BAD_ALLOC] for [ENOMEM], [RCUTILS_RET_ERROR] for [EINVAL]
    and [RCUTILS_RET_OK] for any other error code.  Afterwards a second
    [fini] releases the cell a second time, and a monotonicity check or
    steady-time read that gets as far as the cell reads released memory:
    both are undefined. *)
Theorem failed_fini_leaves_dangling_pointer
    (tid : thread_id) (w : world) (p : addr) (e : Z) :
  thread_ok w tid -> specific w !! tid = Some p ->
  hd 0 (pending w) = e -> e <> 0 ->
  exists s w',
    heap w !! p = Some s /\
    rcutils_steady_time_now_thread_specific_fini ThreadLocalPthread tid w
      = Some (setspecific_status e, w') /\
    specific w' !! tid = Some p /\ heap w' !! p = None /\
    releases (trace w') = (self_allocator s, p) :: releases (trace w) /\
    rcutils_steady_time_now_thread_specific_fini ThreadLocalPthread tid w' = None /\
    (next_ok w' ->
     (forall c, __rcutils_check_steady_time_monotonicity_thread_local
                  ThreadLocalPthread tid c w' = None) /\
     (forall l smp, ~ negative_sample smp -> ~ overflows smp ->
        time_unix.rcutils_steady_time_now ThreadLocalPthread tid (Some l) smp w' = None)).
Proof.
  intros Hok Hp He Hne.
  destruct (cell_live _ _ Hok _ Hp) as [s Hs].
  destruct (cell_key _ _ Hok _ Hp) as [Honce Hkeys].
  set (w' := set_pending (tail (pending w))
               (log (EvDeallocate (self_allocator s) p) (set_heap (delete p) w))).
  assert (Hfini : rcutils_steady_time_now_thread_specific_fini ThreadLocalPthread tid w
                  = Some (setspecific_status e, w')).
  { unfold rcutils_steady_time_now_thread_specific_fini,
      __rcutils_time_common_destroy_last_steady_timestamp,
      __destroy_last_steady_timestamp_storage.
    unfold bind at 1. rewrite (getspecific_run tid w Honce Hkeys), Hp.
    unfold load, bind at 1. rewrite Hs.
    unfold deallocate, bind. rewrite Hs.
    rewrite set_last_timestamp_run. cbn [pending log set_heap].
    rewrite He. apply Z.eqb_neq in Hne. by rewrite Hne. }
  assert (Hp' : specific w' !! tid = Some p) by done.
  assert (Hs' : heap w' !! p = None) by (simpl; by rewrite lookup_delete_eq).
  assert (Hfini' : rcutils_steady_time_now_thread_specific_fini ThreadLocalPthread tid w'
                   = None).
  { unfold rcutils_steady_time_now_thread_specific_fini,
      __rcutils_time_common_destroy_last_steady_timestamp,
      __destroy_last_steady_timestamp_storage.
    unfold bind at 1. rewrite (getspecific_run tid w' Honce Hkeys), Hp'.
    unfold load, bind at 1. by rewrite Hs'. }
  assert (Hcheck : next_ok w' ->
            forall c, __rcutils_check_steady_time_monotonicity_thread_local
                        ThreadLocalPthread tid c w' = None).
  { intros Hn c. unfold __rcutils_check_steady_time_monotonicity_thread_local,
      __rcutils_time_common_get_last_steady_timestamp_thread_local.
    unfold bind at 1. unfold bind at 1.
    rewrite (ensure_existing tid rcutils_get_default_allocator w' p Hp' Honce Hkeys Hn).
    unfold bind at 1.
    rewrite (getspecific_run tid (set_pending (tail (pending w')) w') Honce Hkeys).
    cbn [specific set_pending]. fold w'. rewrite Hp'.
    unfold load, bind. cbn [heap set_pending]. by rewrite Hs'. }
  exists s, w'. split_and!; try done.
  intros Hn. split; [by apply Hcheck|].
  intros l smp Hneg Hov.
  unfold time_unix.rcutils_steady_time_now, RCUTILS_CHECK_ARGUMENT_FOR_NULL.
  destruct (time_unix.__WOULD_BE_NEGATIVE _ _) eqn:E;
    [by apply would_be_negative_spec in E|].
  cbn [RCUTILS_DISABLE_TIME_SANITY_CHECKS].
  assert (0 <= tv_sec smp) as Hsec by (unfold negative_sample in Hneg; lia).
  destruct (_ || _) eqn:E'; [by apply overflow_happened_spec in E'|].
  unfold bind. by rewrite Hcheck.
Qed.

Lemma failed_fini_leaves_dangling_pointer_witness :
  exists s w',
    heap world_setspecific_fails !! 1%nat = Some s /\
    rcutils_steady_time_now_thread_specific_fini ThreadLocalPthread 0%nat
      world_setspecific_fails = Some (RCUTILS_RET_BAD_ALLOC, w') /\
    specific w' !! 0%nat = Some 1%nat /\ heap w' !! 1%nat = None /\
    releases (trace w') = (self_allocator s, 1%nat) :: releases (trace world_setspecific_fails) /\
    rcutils_steady_time_now_thread_specific_fini ThreadLocalPthread 0%nat w' = None /\
    (next_ok w' ->
     (forall c, __rcutils_check_steady_time_monotonicity_thread_local
                  ThreadLocalPthread 0%nat c w' = None) /\
     (forall l smp, ~ negative_sample smp -> ~ overflows smp ->
        time_unix.rcutils_steady_time_now ThreadLocalPthread 0%nat (Some l) smp w' = None)).
Proof.
  apply (failed_fini_leaves_dangling_pointer 0%nat world_setspecific_fails 1%nat ENOMEM).
  - apply thread_ok_set_pending, thread_ok_after_first_check.
  - by vm_compute.
  - reflexivity.
  - done.
Defined.

(** ** Thread exit *)

(** X14.  In the pthread case, when a thread that has a cell exits, the
    destructor registered with the key hands the cell back to the allocator
    kept in it, exactly as [fini] would, without touching another thread's
    key value; after a successful [fini] the exit finds no value and
    releases nothing; after a [fini] whose [pthread_setspecific] failed it
    finds the stale pointer and releases the cell a second time, which is
    undefined. *)
Theorem thread_exit_releases_the_cell (tid : thread_id) (w : world) (p : addr) :
  thread_ok w tid -> specific w !! tid = Some p ->
  exists s,
    heap w !! p = Some s /\
    (exists w',
       pthread_exit tid w = Some (tt, w') /\
       releases (trace w') = (self_allocator s, p) :: releases (trace w) /\
       specific w' = delete tid (specific w) /\ heap w' = delete p (heap w) /\
       pending w' = pending w) /\
    (exists r w1,
       rcutils_steady_time_now_thread_specific_fini ThreadLocalPthread tid w = Some (r, w1) /\
       releases (trace w1) = (self_allocator s, p) :: releases (trace w) /\
       (next_ok w -> r = RCUTILS_RET_OK /\ pthread_exit tid w1 = Some (tt, w1)) /\
       (~ next_ok w -> pthread_exit tid w1 = None)).
Proof.
  intros Hok Hp. destruct (cell_live _ _ Hok _ Hp) as [s Hs]. exists s.
  destruct (cell_key _ _ Hok _ Hp) as [Honce Hkeys].
  split; [done|]. split.
  - eexists. split.
    { unfold pthread_exit, gets, bind at 1. rewrite Hp.
      unfold modify, bind at 1.
      unfold __last_steady_timestamp_storage_t_destructor, load, bind at 1.
      cbn [heap set_specific]. rewrite Hs. unfold deallocate.
      cbn [heap set_specific]. rewrite Hs. reflexivity. }
    by split_and!.
  - unfold rcutils_steady_time_now_thread_specific_fini,
      __rcutils_time_common_destroy_last_steady_timestamp,
      __destroy_last_steady_timestamp_storage.
    unfold bind at 1. rewrite (getspecific_run tid w Honce Hkeys), Hp.
    unfold load, bind at 1. rewrite Hs.
    unfold deallocate, bind at 1. rewrite Hs.
    rewrite set_last_timestamp_run. cbn [pending log set_heap].
    eexists _, _. split; [reflexivity|]. unfold next_ok.
    destruct (Z.eqb_spec (hd 0 (pending w)) 0) as [E|E].
    + split_and!; [done| |done].
      intros _. split; [by rewrite E|].
      unfold pthread_exit, gets, bind.
      cbn [specific set_specific]. by rewrite lookup_delete_eq.
    + split_and!; [done|done|].
      intros _. unfold pthread_exit, gets, bind at 1.
      cbn [specific set_pending log set_heap]. rewrite Hp.
      unfold modify, bind at 1.
      unfold __last_steady_timestamp_storage_t_destructor, load, bind.
      cbn [heap set_specific set_pending log set_heap]. by rewrite lookup_delete_eq.
Qed.

Lemma thread_exit_releases_the_cell_witness :
  exists s,
    heap world_after_custom_init !! 1%nat = Some s /\
    (exists w',
       pthread_exit 0%nat world_after_custom_init = Some (tt, w') /\
       releases (trace w') =
         (self_allocator s, 1%nat) :: releases (trace world_after_custom_init) /\
       specific w' = delete 0%nat (specific world_after_custom_init) /\
       heap w' = delete 1%nat (heap world_after_custom_init) /\
       pending w' = pending world_after_custom_init) /\
    (exists r w1,
       rcutils_steady_time_now_thread_specific_fini ThreadLocalPthread 0%nat
         world_after_custom_init = Some (r, w1) /\
       releases (trace w1) =
         (self_allocator s, 1%nat) :: releases (trace world_after_custom_init) /\
       (next_ok world_after_custom_init ->
        r = RCUTILS_RET_OK /\ pthread_exit 0%nat w1 = Some (tt, w1)) /\
       (~ next_ok world_after_custom_init -> pthread_exit 0%nat w1 = None)).
Proof.
  apply (thread_exit_releases_the_cell 0%nat world_after_custom_init 1%nat).
  - apply thread_ok_after_custom_init.
  - by vm_compute.
Defined.

(** ** Call sequences *)

Lemma unix_steady_accept_healthy b t l s w :
  thread_ok w t -> ~ negative_sample s -> ~ overflows s ->
  last_recorded b w t <= total_ns s ->
  (b = ThreadLocalPthread -> __make_pthread_keys_ret w = RCUTILS_RET_OK /\ no_faults w) ->
  exists w',
    time_unix.rcutils_steady_time_now b t (Some l) s w = Some (RCUTILS_RET_OK, w') /\
    thread_ok w' t /\ mem w' !! l = Some (total_ns s) /\
    (last_recorded b w' t = total_ns s \/
     b = SanityChecksDisabled /\ last_recorded b w' t = last_recorded b w t) /\
    (b = ThreadLocalPthread -> __make_pthread_keys_ret w' = RCUTILS_RET_OK /\ no_faults w').
Proof.
  intros Hok Hneg Hov Hle Hh.
  destruct (unix_steady_accept b t l s w Hok Hneg Hov Hle Hh)
    as (w' & Hrun & Hok' & _ & Hacc & _).
  destruct (Hacc eq_refl) as (l' & [= <-] & [Hm _] & Hlast).
  exists w'. split; [done|]. split_and!; try done.
  - by rewrite Hm, lookup_insert_eq.
  - destruct (decide (b = SanityChecksDisabled)) as [->|Hb]; [by right|].
    left. by apply Hlast.
  - intros ->. revert Hrun.
    unfold time_unix.rcutils_steady_time_now, RCUTILS_CHECK_ARGUMENT_FOR_NULL.
    fold (total_ns s).
    destruct (time_unix.__WOULD_BE_NEGATIVE _ _); [done|].
    cbn [RCUTILS_DISABLE_TIME_SANITY_CHECKS].
    destruct (_ || _); [done|].
    destruct (check_accept ThreadLocalPthread t (total_ns s) w Hok Hle Hh)
      as (w2 & Hc & Hh2).
    rewrite (bind_run _ _ _ _ _ Hc). intros [= <-]. by apply Hh2.
Qed.

(** X15.  No false alarm: when a thread reads samples that are valid and
    whose nanosecond counts do not go down, starting at or above the
    thread's last recorded value, then under a cooperative environment
    every one of its [rcutils_steady_time_now] calls returns
    [RCUTILS_RET_OK] and stores the count of its sample; a repeated count is
    accepted too. *)
Theorem non_decreasing_samples_are_all_accepted
    (b : tls_backend) (tid : thread_id) (l : loc) (ss : list timespec) (w : world) :
  thread_ok w tid ->
  (b = ThreadLocalPthread -> __make_pthread_keys_ret w = RCUTILS_RET_OK /\ no_faults w) ->
  Forall (fun s => ~ negative_sample s /\ ~ overflows s) ss ->
  StronglySorted Z.le (last_recorded b w tid :: map total_ns ss) ->
  exists obs w',
    run b (map (fun s => (tid, SteadyTimeNow (Some l) s)) ss) w = Some (obs, w') /\
    map o_ret obs = map (fun _ => RCUTILS_RET_OK) ss /\
    map o_now obs = map (fun s => Some (total_ns s)) ss.
Proof.
  revert w. induction ss as [|s ss IH]; intros w Hok Hh Hvalid Hsorted.
  { by eexists _, _. }
  apply Forall_cons in Hvalid as [[Hneg Hov] Hvalid].
  apply StronglySorted_inv in Hsorted as [Hsorted Hall].
  apply Forall_cons in Hall as [Hle Hall].
  destruct (unix_steady_accept_healthy b tid l s w Hok Hneg Hov Hle Hh)
    as (w1 & Hrun & Hok1 & Hm & Hlast & Hh1).
  destruct (IH w1 Hok1 Hh1 Hvalid) as (os & w2 & Hrest & Hrets & Hnows).
  { destruct Hlast as [->|[_ ->]]; [done|].
    apply StronglySorted_inv in Hsorted as [Hsorted _]. by constructor. }
  eassert (Ho : observe b (tid, SteadyTimeNow (Some l) s) w = Some (_, w1)).
  { unfold observe. simpl. rewrite (bind_run _ _ _ _ _ Hrun). reflexivity. }
  cbn [map run]. rewrite (bind_run _ _ _ _ _ Ho), (bind_run _ _ _ _ _ Hrest).
  eexists _, _. split; [reflexivity|]. simpl. by rewrite Hrets, Hnows, Hm.
Qed.

Lemma non_decreasing_samples_are_all_accepted_witness :
  exists obs w',
    run ThreadLocalPthread
      (map (fun s => (0%nat, SteadyTimeNow (Some 7%nat) s))
         [ {| tv_sec := 1; tv_nsec := 5 |}; {| tv_sec := 1; tv_nsec := 5 |};
           {| tv_sec := 2; tv_nsec := 0 |} ]) initial_world = Some (obs, w') /\
    map o_ret obs = [RCUTILS_RET_OK; RCUTILS_RET_OK; RCUTILS_RET_OK] /\
    map o_now obs = [Some 1000000005; Some 1000000005; Some 2000000000].
Proof.
  apply (non_decreasing_samples_are_all_accepted ThreadLocalPthread 0%nat 7%nat
           [ {| tv_sec := 1; tv_nsec := 5 |}; {| tv_sec := 1; tv_nsec := 5 |};
             {| tv_sec := 2; tv_nsec := 0 |} ] initial_world).
  - apply thread_ok_initial.
  - intros _. split; [reflexivity | by constructor].
  - repeat constructor; unfold negative_sample, overflows; simpl;
      change (INT64_MAX / 1000000000) with 9223372036; unfold INT64_MAX; lia.
  - repeat constructor; by vm_compute.
Defined.

(** X16.  Calls made by other threads, whatever they are ([init] and
    [fini] included) and whatever the environment does, leave a thread's
    monotonicity state alone: its last recorded timestamp, its key value,
    and the allocator kept in its cell are as before, in all three build
    cases. *)
Theorem other_threads_leave_the_thread_alone
    (b : tls_backend) (tid : thread_id) (cs : list (thread_id * call))
    (w : world) (obs : list observation) (w' : world) :
  thread_ok w tid ->
  Forall (fun tc => fst tc <> tid) cs ->
  run b cs w = Some (obs, w') ->
  thread_ok w' tid /\
  last_recorded b w' tid = last_recorded b w tid /\
  specific w' !! tid = specific w !! tid /\
  cell_allocator w' tid = cell_allocator w tid.
Proof.
  revert w obs w'. induction cs as [|[t c] cs IH]; intros w obs w' Hok Hne Hrun.
  { by injection Hrun as <- <-. }
  apply Forall_cons in Hne as [Hother Hne]. simpl in Hother.
  simpl in Hrun.
  apply bind_inv in Hrun as (o & w1 & Ho & Hrun).
  apply bind_inv in Hrun as (os & w2 & Hrest & Hrun).
  injection Hrun as <- <-.
  unfold observe in Ho. simpl in Ho.
  apply bind_inv in Ho as (r & w1' & Hp & Ho).
  injection Ho as <- <-.
  pose proof (perform_touches _ _ _ _ _ _ Hp) as Ht.
  destruct (touches_other _ _ _ _ Ht Hother Hok) as [Hok1 Hl1].
  destruct (touches_other_cell _ _ _ _ Ht Hother Hok) as [Ha1 Hs1].
  destruct (IH _ _ _ Hok1 Hne Hrest) as (Hok2 & Hl2 & Hs2 & Ha2).
  split_and!; [done| | |]; congruence.
Qed.

Lemma other_threads_leave_the_thread_alone_witness :
  thread_ok (snd run_of_other_threads) 0%nat /\
  last_recorded ThreadLocalPthread (snd run_of_other_threads) 0%nat
    = last_recorded ThreadLocalPthread world_after_first_check 0%nat /\
  specific (snd run_of_other_threads) !! 0%nat = specific world_after_first_check !! 0%nat /\
  cell_allocator (snd run_of_other_threads) 0%nat
    = cell_allocator world_after_first_check 0%nat.
Proof.
  apply (other_threads_leave_the_thread_alone ThreadLocalPthread 0%nat
           calls_of_other_threads world_after_first_check (fst run_of_other_threads)).
  - apply thread_ok_after_first_check.
  - repeat constructor; simpl; lia.
  - by vm_compute.
Defined.

(** ** The process-wide key *)

Lemma key_step_refl w : key_step w w.
Proof. by left. Qed.

Lemma key_step_trans w1 w2 w3 : key_step w1 w2 -> key_step w2 w3 -> key_step w1 w3.
Proof.
  intros [[Hk1 Ho1]|(Hf1 & Ht1 & e1 & Hk1)] [[Hk2 Ho2]|(Hf2 & Ht2 & e2 & Hk2)].
  - left. split; congruence.
  - right. split_and!; [congruence|done|]. exists e2. congruence.
  - right. split_and!; [done|congruence|]. exists e1. congruence.
  - congruence.
Qed.

Lemma key_step_same w w' :
  key_creations (trace w') = key_creations (trace w) ->
  __key_init_once w' = __key_init_once w -> key_step w w'.
Proof. by left. Qed.

Lemma ensure_key_step t a w r w' :
  __ensure_last_steady_timestamp_storage t a w = Some (r, w') -> key_step w w'.
Proof.
  intros H. unfold_code H. paths.
  all: try (by left).
  all: right; split_and!; simpl; eauto.
Qed.

Lemma destroy_key_step t w r w' :
  __destroy_last_steady_timestamp_storage t w = Some (r, w') -> key_step w w'.
Proof. intros H. unfold_code H. paths; by left. Qed.

Lemma get_last_key_step b t w rv w' :
  __rcutils_time_common_get_last_steady_timestamp_thread_local b t w = Some (rv, w') ->
  key_step w w'.
Proof.
  destruct b; simpl; try (intros [= <- <-]; apply key_step_refl).
  intros H. apply bind_inv in H as (r & w1 & He & H).
  apply ensure_key_step in He.
  destruct r; unfold_code H; paths; done.
Qed.

Lemma set_last_key_step b t v w r w' :
  __rcutils_time_common_set_last_steady_timestamp_thread_local b t v w = Some (r, w') ->
  key_step w w'.
Proof.
  destruct b; simpl; try (intros [= <- <-]; by left).
  intros H. apply bind_inv in H as (r0 & w1 & He & H).
  apply ensure_key_step in He.
  eapply key_step_trans; [exact He|].
  destruct r0; unfold_code H; paths; by left.
Qed.

Lemma check_key_step b t c w r w' :
  __rcutils_check_steady_time_monotonicity_thread_local b t c w = Some (r, w') ->
  key_step w w'.
Proof.
  unfold __rcutils_check_steady_time_monotonicity_thread_local. intros H.
  apply bind_inv in H as ([r0 v0] & w1 & Hg & H). simpl in H.
  apply get_last_key_step in Hg.
  destruct r0; try (by injection H as <- <-).
  destruct (v0 >? c); [by injection H as <- <-|].
  apply bind_inv in H as (r1 & w2 & Hset & H).
  apply set_last_key_step in Hset.
  assert (w' = w2) as -> by (destruct r1; by injection H).
  by eapply key_step_trans.
Qed.

Lemma perform_key_step b t c w r w' :
  perform b t c w = Some (r, w') -> key_step w w'.
Proof.
  destruct c as [now s|now s|a|]; simpl.
  - unfold time_unix.rcutils_steady_time_now, RCUTILS_CHECK_ARGUMENT_FOR_NULL.
    destruct now as [l|]; [|intros [= <- <-]; apply key_step_refl].
    destruct (time_unix.__WOULD_BE_NEGATIVE _ _); [intros [= <- <-]; apply key_step_refl|].
    destruct (RCUTILS_DISABLE_TIME_SANITY_CHECKS b); [intros [= <- <-]; by left|].
    destruct (_ || _); [intros [= <- <-]; apply key_step_refl|].
    intros H. apply bind_inv in H as (r0 & w1 & Hc & H).
    apply check_key_step in Hc.
    eapply key_step_trans; [exact Hc|].
    destruct r0; injection H as <- <-; by left.
  - intros H. destruct (system_time_events _ _ _ _ _ _ H) as (_ & _ & Hk & _).
    left. split; [done|].
    destruct (unix_system_run b now s w) as (r0 & [(_ & l & _ & Hr)|(_ & Hr)]);
      rewrite Hr in H; by injection H as <- <-.
  - destruct b; simpl; try (intros [= <- <-]; apply key_step_refl).
    apply ensure_key_step.
  - destruct b; simpl; try (intros [= <- <-]; apply key_step_refl).
    apply destroy_key_step.
Qed.

Lemma run_key_step b cs :
  forall w obs w', run b cs w = Some (obs, w') -> key_step w w'.
Proof.
  induction cs as [|[t c] cs IH]; intros w obs w' Hrun.
  { injection Hrun as <- <-. apply key_step_refl. }
  simpl in Hrun.
  apply bind_inv in Hrun as (o & w1 & Ho & Hrun).
  apply bind_inv in Hrun as (os & w2 & Hrest & Hrun).
  injection Hrun as <- <-.
  unfold observe in Ho. simpl in Ho.
  apply bind_inv in Ho as (r & w1' & Hp & Ho).
  injection Ho as <- <-.
  eapply key_step_trans; [by eapply perform_key_step | by eapply IH].
Qed.

(** X17.  The key is created at most once per process: over any sequence
    of calls, by any threads and whatever the environment does (failing
    [pthread_once], key creation, allocation or [pthread_setspecific]
    included), [pthread_key_create] is called at most once, and not at all
    once [pthread_once] has run its routine; a failed creation is not
    repeated. *)
Theorem key_is_created_at_most_once
    (b : tls_backend) (cs : list (thread_id * call))
    (w : world) (obs : list observation) (w' : world) :
  run b cs w = Some (obs, w') ->
  (length (key_creations (trace w')) <= S (length (key_creations (trace w))))%nat /\
  (__key_init_once w = true ->
   key_creations (trace w') = key_creations (trace w) /\ __key_init_once w' = true).
Proof.
  intros Hrun. pose proof (run_key_step _ _ _ _ _ Hrun) as Hstep. split.
  - destruct Hstep as [[-> _]|(_ & _ & e & ->)]; simpl; lia.
  - intros Ho. destruct Hstep as [[-> ->]|(? & _)]; [done | congruence].
Qed.

Lemma key_is_created_at_most_once_witness :
  (length (key_creations (trace (snd run_after_custom_init)))
   <= S (length (key_creations (trace world_after_custom_init))))%nat /\
  (__key_init_once world_after_custom_init = true ->
   key_creations (trace (snd run_after_custom_init))
     = key_creations (trace world_after_custom_init) /\
   __key_init_once (snd run_after_custom_init) = true).
Proof.
  apply (key_is_created_at_most_once ThreadLocalPthread calls_after_custom_init
           world_after_custom_init (fst run_after_custom_init)).
  by vm_compute.
Defined.

(** ** [strdup.c] *)

Lemma strlen_Some (str : list Z) (n : Z) :
  strdup.strlen str = Some n ->
  exists k : nat,
    n = Z.of_nat k /\ str !! k = Some 0 /\
    strdup.c_string str = take k str /\ Forall (fun c => c <> 0) (take k str).
Proof.
  revert n. induction str as [|c str IH]; intros n; simpl; [done|].
  destruct (Z.eqb_spec c 0) as [->|Hc].
  - intros [= <-]. exists 0%nat. by split_and!.
  - destruct (strdup.strlen str) as [m|]; [|done]. simpl. intros [= <-].
    destruct (IH m eq_refl) as (k & -> & Hk & Hcs & Hall).
    exists (S k). split_and!; [lia|done|by rewrite Hcs|by constructor].
Qed.

Lemma c_string_nonzero (pre rest : list Z) :
  Forall (fun c => c <> 0) pre -> strdup.c_string (pre ++ 0 :: rest) = pre.
Proof.
  induction 1 as [|c pre Hc _ IH]; simpl; [done|].
  destruct (Z.eqb_spec c 0); [done|]. by rewrite IH.
Qed.

Lemma strlen_nonzero (pre rest : list Z) :
  Forall (fun c => c <> 0) pre ->
  strdup.strlen (pre ++ 0 :: rest) = Some (Z.of_nat (length pre)).
Proof.
  induction 1 as [|c pre Hc _ IH]; simpl; [done|].
  destruct (Z.eqb_spec c 0); [done|]. rewrite IH. simpl. f_equal. lia.
Qed.

(** The copy and the terminating write of [rcutils_strndup], for a source
    object of at least [string_length + 1] bytes. *)
Lemma copy_and_terminate (blk str : list Z) (n : nat) :
  length blk = S n -> (n < length str)%nat ->
  strdup.memcpy blk str (Z.of_nat n + 1) = Some (take (S n) str) /\
  strdup.write (take (S n) str) (Z.of_nat n) 0 = Some (take n str ++ [0]).
Proof.
  intros Hblk Hstr. split.
  - unfold strdup.memcpy. rewrite Hblk.
    replace (Z.of_nat n + 1 <=? Z.of_nat (S n)) with true
      by (symmetry; apply Z.leb_le; lia).
    replace (Z.of_nat n + 1 <=? Z.of_nat (length str)) with true
      by (symmetry; apply Z.leb_le; lia).
    simpl. replace (Z.to_nat (Z.of_nat n + 1)) with (S n) by lia.
    rewrite (drop_ge blk) by lia. by rewrite app_nil_r.
  - destruct (lookup_lt_is_Some_2 str n Hstr) as [x Hx].
    rewrite (take_S_r _ _ _ Hx).
    unfold strdup.write. rewrite length_app, length_take_le by lia. simpl.
    replace (Z.of_nat n <? Z.of_nat (n + 1)) with true by (symmetry; apply Z.ltb_lt; lia).
    rewrite Nat2Z.id, insert_app_r_alt by (rewrite length_take_le; lia).
    rewrite length_take_le by lia. by rewrite Nat.sub_diag.
Qed.

Lemma strndup_run allocate (str blk : list Z) (n : nat) a :
  strdup.allocates_sized allocate ->
  Z.of_nat (length str) <= strdup.SIZE_MAX -> (n < length str)%nat ->
  allocate a (Z.of_nat n + 1) = Some blk ->
  strdup.rcutils_strndup allocate (Some str) (Z.of_nat n) a = Some (Some (take n str ++ [0])).
Proof.
  unfold strdup.SIZE_MAX. intros Hsized Hmax Hn Hal. unfold strdup.rcutils_strndup.
  rewrite Z.mod_small by lia. rewrite Hal.
  pose proof (Hsized a (Z.of_nat n + 1) blk ltac:(lia) Hal) as Hblk.
  destruct (copy_and_terminate blk str n ltac:(lia) Hn) as [-> Hw]. simpl.
  by rewrite Hw.
Qed.

(** X18.  [rcutils_strdup] of a NUL-terminated string returns [NULL] when
    the allocator fails and otherwise a new buffer of [strlen + 1] bytes
    holding the same string and its terminator; it never reads or writes
    outside the source string or the new buffer.  A [NULL] argument gives
    [NULL] without any allocation. *)
Theorem rcutils_strdup_copies_the_string
    (allocate : rcutils_allocator_t -> Z -> option (list Z))
    (str : list Z) (n : Z) (a : rcutils_allocator_t) :
  strdup.allocates_sized allocate ->
  Z.of_nat (length str) <= strdup.SIZE_MAX ->
  strdup.strlen str = Some n ->
  strdup.rcutils_strdup allocate (Some str) a =
    Some (match allocate a (n + 1) with
          | Some _ => Some (strdup.c_string str ++ [0])
          | None => None
          end) /\
  strdup.c_string (strdup.c_string str ++ [0]) = strdup.c_string str /\
  strdup.strlen (strdup.c_string str ++ [0]) = Some n /\
  Z.of_nat (length (strdup.c_string str ++ [0])) = n + 1 /\
  strdup.rcutils_strdup allocate None a = Some None.
Proof.
  intros Hsized Hmax Hlen.
  destruct (strlen_Some str n Hlen) as (k & -> & Hk & Hcs & Hall).
  pose proof (lookup_lt_Some _ _ _ Hk) as Hlt.
  split_and!.
  - unfold strdup.rcutils_strdup. rewrite Hlen. simpl.
    destruct (allocate a (Z.of_nat k + 1)) as [blk|] eqn:Hal.
    + rewrite Hcs. by eapply strndup_run.
    + unfold strdup.rcutils_strndup, strdup.SIZE_MAX in *.
      rewrite Z.mod_small by lia. by rewrite Hal.
  - rewrite Hcs. by apply c_string_nonzero.
  - rewrite Hcs, strlen_nonzero by done. rewrite length_take_le by lia. done.
  - rewrite Hcs, length_app, length_take_le by lia. simpl. lia.
  - done.
Qed.

Lemma allocate_filled_sized : strdup.allocates_sized strdup.allocate_filled.
Proof. intros a size blk Hsize [= <-]. rewrite length_replicate. lia. Qed.

Lemma rcutils_strdup_copies_the_string_witness :
  strdup.rcutils_strdup strdup.allocate_filled (Some [104; 105; 0; 33])
    rcutils_get_default_allocator = Some (Some [104; 105; 0]).
Proof.
  apply (rcutils_strdup_copies_the_string strdup.allocate_filled [104; 105; 0; 33] 2
           rcutils_get_default_allocator).
  - apply allocate_filled_sized.
  - by vm_compute.
  - reflexivity.
Defined.

(** X19.  [rcutils_strndup] with a length that does not exceed the length
    of the string returns, when the allocator succeeds, a new buffer of
    [string_length + 1] bytes holding the first [string_length] characters
    and a terminator. *)
Theorem rcutils_strndup_truncates
    (allocate : rcutils_allocator_t -> Z -> option (list Z))
    (str blk : list Z) (k string_length : Z) (a : rcutils_allocator_t) :
  strdup.allocates_sized allocate ->
  Z.of_nat (length str) <= strdup.SIZE_MAX ->
  strdup.strlen str = Some k -> 0 <= string_length <= k ->
  allocate a (string_length + 1) = Some blk ->
  let prefix := take (Z.to_nat string_length) (strdup.c_string str) in
  strdup.rcutils_strndup allocate (Some str) string_length a = Some (Some (prefix ++ [0])) /\
  strdup.c_string (prefix ++ [0]) = prefix /\
  Z.of_nat (length prefix) = string_length.
Proof.
  intros Hsized Hmax Hlen Hn Hal. cbv zeta.
  destruct (strlen_Some str k Hlen) as (k' & -> & Hk & Hcs & Hall).
  pose proof (lookup_lt_Some _ _ _ Hk) as Hlt.
  rewrite Hcs, take_take, Nat.min_l by lia.
  rewrite <- (Z2Nat.id string_length) in Hal |- * by lia.
  rewrite Nat2Z.id. split_and!.
  - eapply strndup_run; eauto. lia.
  - apply c_string_nonzero. rewrite <- (Nat.min_l (Z.to_nat string_length) k') by lia.
    rewrite <- take_take. by apply Forall_take.
  - rewrite length_take_le by lia. done.
Qed.

Lemma rcutils_strndup_truncates_witness :
  strdup.rcutils_strndup strdup.allocate_filled (Some [104; 105; 33; 0]) 2
    rcutils_get_default_allocator = Some (Some [104; 105; 0]) /\
  strdup.c_string [104; 105; 0] = [104; 105] /\
  Z.of_nat (length [104; 105]) = 2.
Proof.
  apply (rcutils_strndup_truncates strdup.allocate_filled [104; 105; 33; 0]
           [170; 170; 170] 3 2 rcutils_get_default_allocator).
  - apply allocate_filled_sized.
  - by vm_compute.
  - reflexivity.
  - lia.
  - reflexivity.
Defined.

(** X20.  [rcutils_strndup] copies [string_length + 1] bytes whatever the
    length of the string: with a [string_length] beyond the terminator it
    reads the bytes that follow the terminator in the source object.  If the
    object is that large the result still holds the whole string; if the
    object ends before (as a string that just fits its buffer does), or if
    [string_length] is [SIZE_MAX], the call is undefined as soon as the
    allocator succeeds. *)
Theorem rcutils_strndup_reads_past_the_terminator
    (allocate : rcutils_allocator_t -> Z -> option (list Z))
    (str blk : list Z) (k string_length : Z) (a : rcutils_allocator_t) :
  strdup.allocates_sized allocate ->
  Z.of_nat (length str) <= strdup.SIZE_MAX ->
  strdup.strlen str = Some k -> k < string_length <= strdup.SIZE_MAX ->
  allocate a ((string_length + 1) mod 2 ^ 64) = Some blk ->
  (string_length < Z.of_nat (length str) ->
   strdup.rcutils_strndup allocate (Some str) string_length a
     = Some (Some (take (Z.to_nat string_length) str ++ [0])) /\
   strdup.c_string (take (Z.to_nat string_length) str ++ [0]) = strdup.c_string str) /\
  (Z.of_nat (length str) <= string_length ->
   strdup.rcutils_strndup allocate (Some str) string_length a = None).
Proof.
  unfold strdup.SIZE_MAX. intros Hsized Hmax Hlen Hn Hal.
  destruct (strlen_Some str k Hlen) as (k' & -> & Hk & Hcs & Hall).
  pose proof (lookup_lt_Some _ _ _ Hk) as Hlt.
  split.
  - intros Hfit. rewrite Z.mod_small in Hal by lia.
    rewrite <- (Z2Nat.id string_length) in Hal |- * by lia.
    rewrite Nat2Z.id. split.
    + eapply strndup_run; eauto; unfold strdup.SIZE_MAX; lia.
    + rewrite Hcs. rewrite <- (take_drop_middle _ _ _ Hk) at 1.
      rewrite take_app_ge by (rewrite length_take_le; lia).
      rewrite length_take_le by lia.
      match goal with
      | |- context [take ?m (0 :: ?r)] => replace m with (S (m - 1)) by lia
      end.
      rewrite firstn_cons, <- app_assoc. simpl. by apply c_string_nonzero.
  - intros Hshort. unfold strdup.rcutils_strndup. rewrite Hal.
    pose proof (Hsized a _ blk (proj1 (Z.mod_pos_bound (string_length + 1) (2 ^ 64) ltac:(lia))) Hal)
      as Hblk.
    destruct (decide (string_length = 2 ^ 64 - 1)) as [->|Hmaxlen].
    + change ((2 ^ 64 - 1 + 1) mod 2 ^ 64) with 0 in *.
      assert (blk = []) as -> by (destruct blk; [done | simpl in Hblk; lia]).
      unfold strdup.memcpy. simpl. by destruct str.
    + rewrite Z.mod_small in * by lia.
      unfold strdup.memcpy.
      replace (string_length + 1 <=? Z.of_nat (length str)) with false
        by (symmetry; apply Z.leb_gt; lia).
      by rewrite andb_false_r.
Qed.

Lemma rcutils_strndup_reads_past_the_terminator_witness :
  (5 < Z.of_nat (length [104; 105; 0]) ->
   strdup.rcutils_strndup strdup.allocate_filled (Some [104; 105; 0]) 5
     rcutils_get_default_allocator
     = Some (Some (take (Z.to_nat 5) [104; 105; 0] ++ [0])) /\
   strdup.c_string (take (Z.to_nat 5) [104; 105; 0] ++ [0]) = strdup.c_string [104; 105; 0]) /\
  (Z.of_nat (length [104; 105; 0]) <= 5 ->
   strdup.rcutils_strndup strdup.allocate_filled (Some [104; 105; 0]) 5
     rcutils_get_default_allocator = None).
Proof.
  apply (rcutils_strndup_reads_past_the_terminator strdup.allocate_filled [104; 105; 0]
           (replicate 6 170) 2 5 rcutils_get_default_allocator).
  - apply allocate_filled_sized.
  - by vm_compute.
  - reflexivity.
  - unfold strdup.SIZE_MAX. lia.
  - reflexivity.
Defined.

(** ** [filesystem.c] *)

(** X21.  [rcutils_is_readable_and_writable] agrees with
    [rcutils_is_readable] and [rcutils_is_writable] taken together (owner
    read and owner write bit of [st_mode]); none of the three reads an
    indeterminate [st_mode], since the path has just been found to exist. *)
Theorem readable_and_writable_is_the_conjunction
    (stat : String.string -> option Z) (abs_path : String.string) :
  exists readable writable,
    filesystem.rcutils_is_readable stat abs_path = Some readable /\
    filesystem.rcutils_is_writable stat abs_path = Some writable /\
    filesystem.rcutils_is_readable_and_writable stat abs_path = Some (readable && writable) /\
    (readable = true <->
     exists st_mode, stat abs_path = Some st_mode /\ Z.testbit st_mode 8 = true) /\
    (writable = true <->
     exists st_mode, stat abs_path = Some st_mode /\ Z.testbit st_mode 7 = true).
Proof.
  assert (Hbit : forall m n, 0 <= n -> (Z.land m (2 ^ n) =? 0) = negb (Z.testbit m n)).
  { intros m n Hn. destruct (Z.testbit m n) eqn:E; simpl.
    - apply Z.eqb_neq. intros H. apply (f_equal (fun x => Z.testbit x n)) in H.
      rewrite Z.land_spec, E, Z.pow2_bits_true, Z.bits_0 in H by done. done.
    - apply Z.eqb_eq. apply Z.bits_inj'. intros i Hi.
      rewrite Z.land_spec, Z.bits_0. destruct (decide (i = n)) as [->|Hne].
      + by rewrite E.
      + rewrite Z.pow2_bits_false by lia. apply andb_false_r. }
  unfold filesystem.rcutils_is_readable, filesystem.rcutils_is_writable,
    filesystem.rcutils_is_readable_and_writable, filesystem.rcutils_exists.
  change filesystem.S_IRUSR with (2 ^ 8). change filesystem.S_IWUSR with (2 ^ 7).
  destruct (stat abs_path) as [m|]; simpl.
  - rewrite !Hbit by lia.
    exists (Z.testbit m 8), (Z.testbit m 7). split_and!.
    + by destruct (Z.testbit m 8).
    + by destruct (Z.testbit m 7).
    + by destruct (Z.testbit m 8), (Z.testbit m 7).
    + split; [eauto | by intros (? & [= <-] & ?)].
    + split; [eauto | by intros (? & [= <-] & ?)].
  - exists false, false. split_and!; try done.
    + split; [done | by intros (? & ? & _)].
    + split; [done | by intros (? & ? & _)].
Qed.

(** X22.  A path for which [stat] fails is neither a directory nor a file
    nor readable nor writable, and a path is never both a directory and a
    regular file; so each of the five tests implies [rcutils_exists]. *)
Theorem file_tests_imply_exists
    (stat : String.string -> option Z) (abs_path : String.string) :
  (filesystem.rcutils_exists stat abs_path = false ->
   filesystem.rcutils_is_directory stat abs_path = false /\
   filesystem.rcutils_is_file stat abs_path = false /\
   filesystem.rcutils_is_readable stat abs_path = Some false /\
   filesystem.rcutils_is_writable stat abs_path = Some false /\
   filesystem.rcutils_is_readable_and_writable stat abs_path = Some false) /\
  (filesystem.rcutils_is_directory stat abs_path = true ->
   filesystem.rcutils_is_file stat abs_path = false) /\
  (filesystem.rcutils_exists stat abs_path = true <-> is_Some (stat abs_path)).
Proof.
  unfold filesystem.rcutils_is_readable, filesystem.rcutils_is_writable,
    filesystem.rcutils_is_readable_and_writable, filesystem.rcutils_exists,
    filesystem.rcutils_is_directory, filesystem.rcutils_is_file,
    filesystem.S_ISDIR, filesystem.S_ISREG.
  destruct (stat abs_path) as [m|]; simpl; split_and!; try done.
  intros ->%Z.eqb_eq. done.
Qed.

Lemma file_tests_imply_exists_witness :
  filesystem.rcutils_is_directory (fun _ => None) String.EmptyString = false /\
  filesystem.rcutils_is_file (fun _ => None) String.EmptyString = false /\
  filesystem.rcutils_is_readable (fun _ => None) String.EmptyString = Some false /\
  filesystem.rcutils_is_writable (fun _ => None) String.EmptyString = Some false /\
  filesystem.rcutils_is_readable_and_writable (fun _ => None) String.EmptyString = Some false.
Proof.
  apply (proj1 (file_tests_imply_exists (fun _ => None) String.EmptyString)). reflexivity.
Defined.

(** ** Status codes *)

Lemma setspecific_status_cases (e : Z) :
  setspecific_status e = RCUTILS_RET_OK \/ setspecific_status e = RCUTILS_RET_ERROR \/
  setspecific_status e = RCUTILS_RET_BAD_ALLOC.
Proof. unfold setspecific_status. repeat case_match; auto. Qed.

(** X23.  The status codes the public functions can return, on a thread
    whose cell, if it has one, is live.  The unix system-time read returns
    [RCUTILS_RET_OK], [RCUTILS_RET_INVALID_ARGUMENT] or [RCUTILS_RET_ERROR];
    the win32 one [RCUTILS_RET_OK], [RCUTILS_RET_INVALID_ARGUMENT] or
    [RCUTILS_CALCULATION_OVERFLOW]; [init] returns [RCUTILS_RET_OK],
    [RCUTILS_RET_ERROR] or [RCUTILS_RET_BAD_ALLOC], and so does [fini] once
    the key exists (in the pthread case [fini] without the key is
    undefined); both always return [RCUTILS_RET_OK] where the build does not
    use pthread keys; the unix steady-time read returns
    [RCUTILS_RET_BAD_ALLOC] only in the pthread case.  Each of these calls
    returns. *)
Theorem status_codes_of_the_public_functions
    (b : tls_backend) (tid : thread_id) (a : rcutils_allocator_t)
    (now : option loc) (s : timespec) (ft : time_win32.FILETIME) (w : world) :
  thread_ok w tid ->
  (exists r w',
     time_unix.rcutils_system_time_now b now s w = Some (r, w') /\
     (r = RCUTILS_RET_OK \/ r = RCUTILS_RET_INVALID_ARGUMENT \/ r = RCUTILS_RET_ERROR)) /\
  (exists r w',
     time_win32.rcutils_system_time_now now ft w = Some (r, w') /\
     (r = RCUTILS_RET_OK \/ r = RCUTILS_RET_INVALID_ARGUMENT \/
      r = RCUTILS_CALCULATION_OVERFLOW)) /\
  (exists r w',
     rcutils_steady_time_now_thread_specific_init b tid a w = Some (r, w') /\
     (r = RCUTILS_RET_OK \/ r = RCUTILS_RET_ERROR \/ r = RCUTILS_RET_BAD_ALLOC) /\
     (b <> ThreadLocalPthread -> r = RCUTILS_RET_OK)) /\
  ((b = ThreadLocalPthread ->
    __key_init_once w = true /\ __make_pthread_keys_ret w = RCUTILS_RET_OK) ->
   exists r w',
     rcutils_steady_time_now_thread_specific_fini b tid w = Some (r, w') /\
     (r = RCUTILS_RET_OK \/ r = RCUTILS_RET_ERROR \/ r = RCUTILS_RET_BAD_ALLOC) /\
     (b <> ThreadLocalPthread -> r = RCUTILS_RET_OK)) /\
  (b = ThreadLocalPthread ->
   __key_init_once w = false \/ __make_pthread_keys_ret w <> RCUTILS_RET_OK ->
   rcutils_steady_time_now_thread_specific_fini b tid w = None) /\
  (exists r w',
     time_unix.rcutils_steady_time_now b tid now s w = Some (r, w') /\
     (b <> ThreadLocalPthread -> r <> RCUTILS_RET_BAD_ALLOC)).
Proof.
  intros Hok. split_and!.
  - unfold time_unix.rcutils_system_time_now, RCUTILS_CHECK_ARGUMENT_FOR_NULL.
    destruct now as [l|]; [|by eauto 6].
    destruct (time_unix.__WOULD_BE_NEGATIVE _ _); [by eauto 6|].
    destruct (RCUTILS_DISABLE_TIME_SANITY_CHECKS b); [by eauto 6|].
    destruct (_ || _); by eauto 6.
  - unfold time_win32.rcutils_system_time_now, RCUTILS_CHECK_ARGUMENT_FOR_NULL.
    destruct now as [l|]; [|by eauto 6].
    destruct (_ >? _); by eauto 6.
  - destruct b; simpl; try (by eauto 7).
    destruct (ensure_total tid a w) as (r & w' & He).
    destruct (ensure_cell _ _ _ _ _ He) as (_ & Hsane & _).
    exists r, w'. split; [done|]. split; [|done]. apply Hsane, (keys_ret_ok _ _ Hok).
  - intros Hh. destruct b; simpl; try (by eauto 7).
    destruct (Hh eq_refl) as [Honce Hkeys].
    unfold __destroy_last_steady_timestamp_storage.
    unfold bind at 1. rewrite (getspecific_run tid w Honce Hkeys).
    destruct (specific w !! tid) as [p|] eqn:Hp; [|by eauto 7].
    destruct (cell_live _ _ Hok _ Hp) as [c Hc].
    unfold load, bind at 1. rewrite Hc.
    unfold deallocate, bind at 1. rewrite Hc.
    rewrite set_last_timestamp_run.
    eexists _, _. split; [reflexivity|]. split; [apply setspecific_status_cases | done].
  - intros -> H. by apply destroy_without_key.
  - destruct (unix_steady_same b tid now s w Hok) as (r & w' & Hrun & _).
    exists r, w'. split; [done|]. intros Hb ->.
    destruct b; [| |done];
      destruct now as [l|];
      cbv [time_unix.rcutils_steady_time_now
           RCUTILS_CHECK_ARGUMENT_FOR_NULL RCUTILS_DISABLE_TIME_SANITY_CHECKS
           __rcutils_check_steady_time_monotonicity_thread_local
           __rcutils_time_common_get_last_steady_timestamp_thread_local
           __rcutils_time_common_set_last_steady_timestamp_thread_local] in Hrun;
      unfold_code Hrun; paths.
Qed.

Lemma status_codes_of_the_public_functions_witness :
  exists r w',
    rcutils_steady_time_now_thread_specific_fini ThreadLocalPthread 0%nat
      world_setspecific_fails = Some (r, w') /\
    (r = RCUTILS_RET_OK \/ r = RCUTILS_RET_ERROR \/ r = RCUTILS_RET_BAD_ALLOC) /\
    (ThreadLocalPthread <> ThreadLocalPthread -> r = RCUTILS_RET_OK).
Proof.
  apply (status_codes_of_the_public_functions ThreadLocalPthread 0%nat
           rcutils_get_default_allocator None {| tv_sec := 0; tv_nsec := 0 |}
           {| time_win32.dwLowDateTime := 0; time_win32.dwHighDateTime := 0 |}
           world_setspecific_fails).
  - apply thread_ok_set_pending, thread_ok_after_first_check.
  - intros _. by vm_compute.
Defined.
